(** * Remote file I/O server: wire protocol and dispatch loop

    A shallow embedding of [15440-p1/cp2/server.c].  The server runs on an
    LP64 little-endian host; every integer that crosses the wire is copied
    with [memcpy], so a field is the little-endian image of the C object.

    Memory objects are lists of bytes whose length is the size of the
    object.  Every access is bounds-checked: an access outside its object
    makes the run end in [Fault].  The operating system, the allocator and
    the peer are parameters of the development. *)

From Stdlib Require Import String ZArith List Lia Bool.
From coqutil Require Import Byte Word.LittleEndianList.
Import ListNotations.
Local Open Scope Z_scope.
Local Set Warnings "-register-all".

(** ** Machine integers *)

Definition sizeof_int : Z := 4.
Definition sizeof_mode_t : Z := 4.
Definition sizeof_size_t : Z := 8.
Definition sizeof_ssize_t : Z := 8.
Definition sizeof_off_t : Z := 8.
(** [sizeof(ret)]: a pointer and an [int], padded. *)
Definition sizeof_ret : Z := 16.
Definition MAXMSGLEN : Z := 200.

(** Conversion to an unsigned type of [bytes] bytes. *)
Definition wrap_unsigned (bytes : Z) (z : Z) : Z := z mod 2 ^ (8 * bytes).

(** Conversion to a signed type of [bytes] bytes (two's complement). *)
Definition wrap_signed (bytes : Z) (z : Z) : Z :=
  let u := z mod 2 ^ (8 * bytes) in
  if u <? 2 ^ (8 * bytes - 1) then u else u - 2 ^ (8 * bytes).

Definition to_int : Z -> Z := wrap_signed 4.
Definition to_size_t : Z -> Z := wrap_unsigned 8.
Definition to_ssize_t : Z -> Z := wrap_signed 8.

(** The object representation of an integer: [n] bytes, little-endian. *)
Definition rep (n : nat) (z : Z) : list byte := le_split n z.

(** ** Memory objects *)

Definition in_bounds (obj : list byte) (off n : Z) : bool :=
  (0 <=? off) && (0 <=? n) && (off + n <=? Z.of_nat (length obj)).

(** [memcpy(dst + doff, src, n)]; [None] when the copy leaves [dst] or
    [src]. *)
Definition memcpy (dst : list byte) (doff : Z) (src : list byte) (n : Z)
  : option (list byte) :=
  if in_bounds dst doff n && (n <=? Z.of_nat (length src)) then
    Some (firstn (Z.to_nat doff) dst ++ firstn (Z.to_nat n) src
            ++ skipn (Z.to_nat (doff + n)) dst)
  else None.

(** [buf + k] used as the source of a copy. *)
Definition ptr_add (buf : list byte) (k : Z) : list byte :=
  skipn (Z.to_nat k) buf.

(** [*(T* )(buf + off)] for an unsigned [T] of [n] bytes. *)
Definition load_unsigned (n : nat) (buf : list byte) (off : Z) : option Z :=
  if in_bounds buf off (Z.of_nat n) then
    Some (le_combine (firstn n (skipn (Z.to_nat off) buf)))
  else None.

(** [*(T* )(buf + off)] for a signed [T] of [n] bytes. *)
Definition load_signed (n : nat) (buf : list byte) (off : Z) : option Z :=
  option_map (wrap_signed (Z.of_nat n)) (load_unsigned n buf off).

(** The C string that starts at the beginning of [buf]: the bytes before
    the first NUL. *)
Fixpoint c_string (buf : list byte) : list byte :=
  match buf with
  | [] => []
  | b :: rest => if Byte.eqb b Byte.x00 then [] else b :: c_string rest
  end.

(** ** Directory trees ([struct dirtreenode] of [dirtree.h]) *)

Inductive dirtreenode : Type :=
| Node (name : list byte) (num_subdirs : Z) (subdirs : list dirtreenode).

Definition name (t : dirtreenode) : list byte :=
  match t with Node n _ _ => n end.
Definition num_subdirs (t : dirtreenode) : Z :=
  match t with Node _ k _ => k end.
Definition subdirs (t : dirtreenode) : list dirtreenode :=
  match t with Node _ _ cs => cs end.

(** ** The platform: operating system, allocator, uninitialised memory

    Every call returns its value, the value it stores into [errno] (if it
    stores one) and the next state of the platform. *)

Definition call (E A : Type) : Type := E -> A * option Z * E.

Class Platform (E : Type) : Type := {
  (** [sizeof(struct stat)] *)
  sizeof_stat : Z;
  (** the content of memory that has not been written yet *)
  junk : nat -> byte;
  (** [malloc(n)]: [true] when a block is returned, [false] for [NULL] *)
  os_malloc : Z -> call E bool;
  os_free : call E unit;
  os_open : list byte -> Z -> Z -> call E Z;
  os_close : Z -> call E Z;
  (** [write(fd, data, nbyte)] with [nbyte = length data] *)
  os_write : Z -> list byte -> call E Z;
  (** [read(fd, _, nbyte)]: [None] is [-1], [Some d] stores [d] and returns
      its length *)
  os_read : Z -> Z -> call E (option (list byte));
  os_lseek : Z -> Z -> Z -> call E Z;
  (** [stat(path, &s)]: the result and what is stored into [s] *)
  os_stat : list byte -> call E (Z * option (list byte));
  os_unlink : list byte -> call E Z;
  (** [getdirentries(fd, _, nbyte, &basep)] *)
  os_getdirentries : Z -> Z -> Z -> call E (option (list byte));
  (** [getdirtree(path)]: [None] is [NULL] *)
  os_getdirtree : list byte -> call E (option dirtreenode);
}.

(** ** The state of a server process *)

(** What successive [recv] calls find on the session socket: data in the
    fragments the transport delivers, or a transport error.  The end of the
    list is the peer's orderly shutdown. *)
Inductive chunk : Type :=
| Data (bs : list byte)
| Broken (e : Z).

Inductive logline : Type :=
| Text (s : string)      (* fprintf(stderr, s) *)
| ErrMsg (e : Z).        (* err(1, 0): the message of errno e *)

Record world (E : Type) : Type := mkWorld {
  inbox : list chunk;            (* what the peer delivers *)
  outbox : list (list byte);     (* the buffers handed to send, oldest first *)
  stderr : list logline;
  errno : Z;
  returned : list Z;             (* errno as each file-system call returned *)
  sess_open : bool;              (* the session socket is open *)
  env : E;
}.
Arguments mkWorld {E}.
Arguments inbox {E}. Arguments outbox {E}. Arguments stderr {E}.
Arguments errno {E}. Arguments returned {E}. Arguments sess_open {E}.
Arguments env {E}.

(** How a run of a piece of the server ends. *)
Inductive result (E A : Type) : Type :=
| Ret (a : A) (w : world E)       (* returns a *)
| Exit (status : Z) (w : world E) (* the process exits *)
| Fault (w : world E)             (* access outside an object *)
| OutOfFuel.                      (* still running when the fuel is spent *)
Arguments Ret {E A}. Arguments Exit {E A}. Arguments Fault {E A}.
Arguments OutOfFuel {E A}.

Definition M (E A : Type) : Type := world E -> result E A.

Definition ret {E A} (a : A) : M E A := fun w => Ret a w.

Definition bind {E A B} (m : M E A) (k : A -> M E B) : M E B :=
  fun w =>
    match m w with
    | Ret a w' => k a w'
    | Exit s w' => Exit s w'
    | Fault w' => Fault w'
    | OutOfFuel => OutOfFuel
    end.

Notation "x <- m ;; k" := (bind m (fun x => k))
  (at level 61, m at next level, right associativity).
Notation "m ;;; k" := (bind m (fun _ => k))
  (at level 61, right associativity).

(** *** Steps of the world *)

Definition new_errno (upd : option Z) (old : Z) : Z :=
  match upd with Some e => e | None => old end.

(** After a call of the C library that is not a file-system operation. *)
Definition lib_step {E} (upd : option Z) (e' : E) (w : world E) : world E :=
  mkWorld (inbox w) (outbox w) (stderr w) (new_errno upd (errno w))
    (returned w) (sess_open w) e'.

(** After a file-system call; [returned] keeps the value of [errno] at the
    moment the call returns. *)
Definition sys_step {E} (upd : option Z) (e' : E) (w : world E) : world E :=
  mkWorld (inbox w) (outbox w) (stderr w) (new_errno upd (errno w))
    (returned w ++ [new_errno upd (errno w)]) (sess_open w) e'.

Definition sent {E} (frame : list byte) (w : world E) : world E :=
  mkWorld (inbox w) (outbox w ++ [frame]) (stderr w) (errno w) (returned w)
    (sess_open w) (env w).

Definition logged {E} (l : logline) (w : world E) : world E :=
  mkWorld (inbox w) (outbox w) (stderr w ++ [l]) (errno w) (returned w)
    (sess_open w) (env w).

Definition received {E} (inb : list chunk) (upd : option Z) (w : world E)
  : world E :=
  mkWorld inb (outbox w) (stderr w) (new_errno upd (errno w)) (returned w)
    (sess_open w) (env w).

Definition closed {E} (w : world E) : world E :=
  mkWorld (inbox w) (outbox w) (stderr w) (errno w) (returned w) false (env w).

(** *** Primitive actions *)

Definition fault {E A} : M E A := fun w => Fault w.

(** A checked access: [None] is an access outside the object. *)
Definition access {E A} (o : option A) : M E A :=
  match o with Some a => ret a | None => fault end.

(** [err(1, 0)] *)
Definition err {E A} : M E A := fun w => Exit 1 (logged (ErrMsg (errno w)) w).

(** [exit(status)] *)
Definition exit {E A} (status : Z) : M E A := fun w => Exit status w.

Definition fprintf_stderr {E} (s : string) : M E unit :=
  fun w => Ret tt (logged (Text s) w).

(** The value of the global [errno]. *)
Definition get_errno {E} : M E Z := fun w => Ret (errno w) w.

Definition libcall {E A} (f : call E A) : M E A :=
  fun w =>
    let r := f (env w) in
    Ret (fst (fst r)) (lib_step (snd (fst r)) (snd r) w).

Definition syscall {E A} (f : call E A) : M E A :=
  fun w =>
    let r := f (env w) in
    Ret (fst (fst r)) (sys_step (snd (fst r)) (snd r) w).

Section Primitives.
Context {E : Type} {P : Platform E}.

(** [n] bytes of memory nobody has written. *)
Definition fresh (n : Z) : list byte := map junk (seq 0 (Z.to_nat n)).

(** [malloc(n)], [n] already converted to [size_t]; [None] is [NULL]. *)
Definition malloc (n : Z) : M E (option (list byte)) :=
  ok <- libcall (os_malloc n) ;;
  ret (if ok : bool then Some (fresh n) else None).

(** [if (p == NULL) err(1,0);] *)
Definition check_null (p : option (list byte)) : M E (list byte) :=
  match p with Some b => ret b | None => err end.

(** Use of a pointer that was not checked. *)
Definition deref (p : option (list byte)) : M E (list byte) :=
  match p with Some b => ret b | None => fault end.

Definition free : M E unit := libcall os_free.

(** A local array of [n] bytes ([char a[n]]). *)
Definition alloca (n : Z) : M E (list byte) :=
  if n <? 0 then fault else ret (fresh n).

(** What one [recv] of at most [max] bytes takes from the stream: the
    result, the bytes, the errno it sets and what is left. *)
Fixpoint take (max : Z) (inb : list chunk)
  : Z * list byte * option Z * list chunk :=
  match inb with
  | [] => (0, [], None, [])
  | Broken e :: rest => (-1, [], Some e, rest)
  | Data [] :: rest => take max rest
  | Data bs :: rest =>
      if Z.of_nat (length bs) <=? max then
        (Z.of_nat (length bs), bs, None, rest)
      else
        (max, firstn (Z.to_nat max) bs, None,
         Data (skipn (Z.to_nat max) bs) :: rest)
  end.

(** [rv = recv(sessfd, buf + off, max, 0)]: the result and the buffer. *)
Definition recv (buf : list byte) (off max : Z) : M E (Z * list byte) :=
  fun w =>
    let '(rv, bs, upd, inb') := take max (inbox w) in
    match memcpy buf off bs (Z.of_nat (length bs)) with
    | Some buf' => Ret (rv, buf') (received inb' upd w)
    | None => Fault (received inb' upd w)
    end.

(** [send(sessfd, buf, n, 0)], [n] already converted to [size_t]; the
    transport takes the whole buffer. *)
Definition send (buf : list byte) (n : Z) : M E Z :=
  fun w =>
    if in_bounds buf 0 n then Ret n (sent (firstn (Z.to_nat n) buf) w)
    else Fault w.

(** [close(sessfd)] *)
Definition close_session : M E unit := fun w => Ret tt (closed w).

End Primitives.

(** What [accept] and [fork] meet when a client arrives. *)
Inductive arrival : Type :=
| Connects (stream : list chunk)   (* accepted and forked; the peer's stream *)
| AcceptFails (e : Z)
| ForkFails (e : Z).

(** The parent process: blocked in [accept], or gone. *)
Inductive listener (E : Type) : Type :=
| Listening (w : world E)
| Stopped (status : Z) (w : world E).
Arguments Listening {E}. Arguments Stopped {E}.

(** ** The server *)

(** [struct info]: a serialized buffer and the number of bytes used. *)
Record info : Type := mkInfo { tmp : list byte; len : Z }.

Section Server.
Context {E : Type} {P : Platform E}.

(** An object into which a call stored [d] from its start; the rest keeps
    what it held. *)
Definition overwrite (obj d : list byte) : list byte :=
  firstn (length obj) (d ++ skipn (length d) obj).

(** What a call that fills a buffer of [nbyte] bytes leaves: its result and
    the buffer. *)
Definition filled (r : option (list byte)) (nbyte : Z) (buff : list byte)
  : Z * list byte :=
  match r with
  | Some d => let d' := firstn (Z.to_nat nbyte) d in
              (Z.of_nat (length d'), overwrite buff d')
  | None => (-1, buff)
  end.

(** [strlen] of a name given by its characters. *)
Definition strlen (s : list byte) : Z := Z.of_nat (length s).

Definition serializaTreeNode (t : dirtreenode) : M E info :=
  let cnt := 0 in
  let n := to_int (strlen (name t)) in
  p <- malloc (to_size_t (n + sizeof_int * 2)) ;;
  buf <- check_null p ;;
  buf <- access (memcpy buf 0 (rep 4 n) sizeof_int) ;;
  let cnt := cnt + sizeof_int in
  buf <- access (memcpy buf cnt (rep 4 (num_subdirs t)) sizeof_int) ;;
  let cnt := cnt + sizeof_int in
  buf <- access (memcpy buf cnt (name t) (to_size_t n)) ;;
  base <- malloc sizeof_ret ;;
  check_null base ;;;
  ret (mkInfo buf (to_int (n + sizeof_int * 2))).

(** The [for] loop of [serializeTree] over [subdirs[i]], [i < k]; [rec] is
    the recursive call and [size] the constant the buffer was allocated
    with. *)
Definition serializeTree_children (rec : dirtreenode -> M E info) (k size : Z)
  : list dirtreenode -> Z -> list byte -> Z -> M E info :=
  fix loop (cs : list dirtreenode) (i : Z) (buf : list byte) (offset : Z)
      {struct cs} : M E info :=
    if i <? k then
      match cs with
      | [] => fault
      | c :: cs' =>
          tmp_ <- rec c ;;
          let sum := to_int (offset + len tmp_) in
          bo <- (if size <? sum then
                   p <- (if 2 * size <? sum
                         then malloc (to_size_t (to_int (sum + size)))
                         else malloc (size * 2)) ;;
                   resize <- check_null p ;;
                   resize <- access (memcpy resize 0 buf (to_size_t offset)) ;;
                   resize <- access (memcpy resize offset (tmp tmp_)
                                       (to_size_t (len tmp_))) ;;
                   free ;;;
                   ret (resize, sum)
                 else
                   buf <- access (memcpy buf offset (tmp tmp_)
                                    (to_size_t (len tmp_))) ;;
                   ret (buf, sum)) ;;
          free ;;;
          free ;;;
          loop cs' (i + 1) (fst bo) (snd bo)
      end
    else
      rval <- malloc sizeof_ret ;;
      check_null rval ;;;
      ret (mkInfo buf offset).

Fixpoint serializeTree (t : dirtreenode) : M E info :=
  match t with
  | Node _ k cs =>
      if k =? 0 then serializaTreeNode t
      else
        let size := MAXMSGLEN in
        p <- malloc size ;;
        buf <- check_null p ;;
        root <- serializaTreeNode t ;;
        let offset := len root in
        buf <- access (memcpy buf 0 (tmp root) (to_size_t (len root))) ;;
        free ;;;
        free ;;;
        serializeTree_children serializeTree k size cs 0 buf offset
  end.

Fixpoint receiveAll_loop (fuel : nat) (buf : list byte)
    (bufSize maxSize currlen : Z) : M E (list byte) :=
  match fuel with
  | O => fun _ => OutOfFuel
  | S fuel' =>
      if currlen <? bufSize then
        r <- recv buf currlen maxSize ;;
        let rv := fst r in
        let buf := snd r in
        let currlen := currlen + rv in
        if rv <? 0 then err
        else
          let maxSize :=
            if bufSize - currlen <? maxSize then bufSize - currlen
            else maxSize in
          receiveAll_loop fuel' buf bufSize maxSize currlen
      else ret buf
  end.

Definition receiveAll (fuel : nat) (buf : list byte) (bufSize : Z)
  : M E (list byte) :=
  let maxSize := MAXMSGLEN in
  let currlen := 0 in
  let maxSize := if bufSize <? maxSize then bufSize else maxSize in
  receiveAll_loop fuel buf bufSize maxSize currlen.

Definition serveOpen (buf : list byte) : M E unit :=
  flag <- access (load_signed 4 buf 0) ;;
  m <- access (load_unsigned 4 buf sizeof_int) ;;
  pathLen <- access (load_unsigned 8 buf (sizeof_int + sizeof_mode_t)) ;;
  p <- malloc (to_size_t (pathLen + 1)) ;;
  path <- check_null p ;;
  path <- access (memcpy path 0
                    (ptr_add buf (sizeof_int + sizeof_mode_t + sizeof_size_t))
                    pathLen) ;;
  path <- access (memcpy path pathLen [Byte.x00] 1) ;;
  res <- syscall (os_open (c_string path) flag m) ;;
  free ;;;
  p <- malloc (sizeof_int * 3) ;;
  retval <- check_null p ;;
  let len := sizeof_int * 2 in
  retval <- access (memcpy retval 0 (rep 4 len) sizeof_int) ;;
  retval <- access (memcpy retval sizeof_int (rep 4 res) sizeof_int) ;;
  e <- get_errno ;;
  retval <- access (memcpy retval (sizeof_int * 2) (rep 4 e) sizeof_int) ;;
  send retval (3 * sizeof_int) ;;;
  free.

Definition serveClose (buf : list byte) : M E unit :=
  fd <- access (load_signed 4 buf 0) ;;
  res <- syscall (os_close fd) ;;
  p <- malloc (sizeof_int * 3) ;;
  retval <- check_null p ;;
  let len := sizeof_int * 2 in
  retval <- access (memcpy retval 0 (rep 4 len) sizeof_int) ;;
  retval <- access (memcpy retval sizeof_int (rep 4 res) sizeof_int) ;;
  e <- get_errno ;;
  retval <- access (memcpy retval (sizeof_int * 2) (rep 4 e) sizeof_int) ;;
  send retval (3 * sizeof_int) ;;;
  free.

Definition serveWrite (buf : list byte) : M E unit :=
  fildes <- access (load_signed 4 buf 0) ;;
  nbyte <- access (load_unsigned 8 buf sizeof_int) ;;
  p <- malloc nbyte ;;
  buff <- deref p ;;
  buff <- access (memcpy buff 0 (ptr_add buf (sizeof_int + sizeof_size_t))
                    nbyte) ;;
  res <- syscall (os_write fildes (firstn (Z.to_nat nbyte) buff)) ;;
  free ;;;
  p <- malloc (sizeof_int * 2 + sizeof_ssize_t) ;;
  retval <- check_null p ;;
  let len := sizeof_int + sizeof_ssize_t in
  retval <- access (memcpy retval 0 (rep 4 len) sizeof_int) ;;
  retval <- access (memcpy retval sizeof_int (rep 8 res) sizeof_ssize_t) ;;
  e <- get_errno ;;
  retval <- access (memcpy retval (sizeof_int + sizeof_ssize_t) (rep 4 e)
                      sizeof_int) ;;
  send retval (sizeof_ssize_t + sizeof_int * 2) ;;;
  free.

Definition serveRead (buf : list byte) : M E unit :=
  fildes <- access (load_signed 4 buf 0) ;;
  nbyte <- access (load_unsigned 8 buf sizeof_int) ;;
  p <- malloc nbyte ;;
  buff <- check_null p ;;
  r <- syscall (os_read fildes nbyte) ;;
  let res := fst (filled r nbyte buff) in
  let buff := snd (filled r nbyte buff) in
  (if negb (res =? -1) then
     p <- malloc (to_size_t (res + sizeof_ssize_t + sizeof_int * 2)) ;;
     retval <- check_null p ;;
     let len := to_int (res + sizeof_ssize_t + sizeof_int) in
     retval <- access (memcpy retval 0 (rep 4 len) sizeof_int) ;;
     retval <- access (memcpy retval sizeof_int (rep 8 res) sizeof_ssize_t) ;;
     e <- get_errno ;;
     retval <- access (memcpy retval (sizeof_ssize_t + sizeof_int) (rep 4 e)
                         sizeof_int) ;;
     retval <- access (memcpy retval (sizeof_int * 2 + sizeof_size_t) buff
                         (to_size_t res)) ;;
     send retval (to_size_t (sizeof_ssize_t + sizeof_int * 2 + res)) ;;;
     free
   else
     p <- malloc (sizeof_ssize_t + 2 * sizeof_int) ;;
     retval <- check_null p ;;
     let len := sizeof_ssize_t + sizeof_int in
     retval <- access (memcpy retval 0 (rep 4 len) sizeof_int) ;;
     retval <- access (memcpy retval sizeof_int (rep 8 res) sizeof_ssize_t) ;;
     e <- get_errno ;;
     retval <- access (memcpy retval (sizeof_ssize_t + sizeof_int) (rep 4 e)
                         sizeof_int) ;;
     send retval (sizeof_ssize_t + 2 * sizeof_int) ;;;
     free) ;;;
  free.

Definition serveLseek (buf : list byte) : M E unit :=
  fildes <- access (load_signed 4 buf 0) ;;
  offset <- access (load_signed 8 buf sizeof_int) ;;
  pos <- access (load_signed 4 buf (sizeof_int + sizeof_off_t)) ;;
  res <- syscall (os_lseek fildes offset pos) ;;
  p <- malloc (sizeof_off_t + sizeof_int * 2) ;;
  retval <- check_null p ;;
  let len := sizeof_off_t + sizeof_int in
  retval <- access (memcpy retval 0 (rep 4 len) sizeof_int) ;;
  retval <- access (memcpy retval sizeof_int (rep 8 res) sizeof_off_t) ;;
  e <- get_errno ;;
  retval <- access (memcpy retval (sizeof_off_t + sizeof_int) (rep 4 e)
                      sizeof_int) ;;
  send retval (sizeof_off_t + sizeof_int * 2) ;;;
  free.

Definition serveStat (buf : list byte) : M E unit :=
  pathLen <- access (load_signed 4 buf 0) ;;
  p <- malloc (to_size_t (to_int (pathLen + 1))) ;;
  path <- check_null p ;;
  s <- alloca sizeof_stat ;;
  path <- access (memcpy path 0 (ptr_add buf sizeof_int) (to_size_t pathLen)) ;;
  path <- access (memcpy path pathLen [Byte.x00] 1) ;;
  r <- syscall (os_stat (c_string path)) ;;
  let res := fst r in
  let s := match snd r with Some d => overwrite s d | None => s end in
  p <- malloc (to_size_t (sizeof_int * 3 + sizeof_stat)) ;;
  retval <- check_null p ;;
  let len := to_int (sizeof_int * 2 + sizeof_stat) in
  retval <- access (memcpy retval 0 (rep 4 len) sizeof_int) ;;
  retval <- access (memcpy retval sizeof_int (rep 4 res) sizeof_int) ;;
  e <- get_errno ;;
  retval <- access (memcpy retval (sizeof_int * 2) (rep 4 e) sizeof_int) ;;
  retval <- access (memcpy retval (sizeof_int * 3) s sizeof_stat) ;;
  send retval (to_size_t (sizeof_int * 3 + sizeof_stat)) ;;;
  free ;;;
  free.

Definition serveUnlink (buf : list byte) : M E unit :=
  pathLen <- access (load_signed 4 buf 0) ;;
  p <- malloc (to_size_t (to_int (pathLen + 1))) ;;
  path <- check_null p ;;
  path <- access (memcpy path 0 (ptr_add buf sizeof_int) (to_size_t pathLen)) ;;
  path <- access (memcpy path pathLen [Byte.x00] 1) ;;
  res <- syscall (os_unlink (c_string path)) ;;
  p <- malloc (sizeof_int * 3) ;;
  retval <- check_null p ;;
  let len := sizeof_int * 2 in
  retval <- access (memcpy retval 0 (rep 4 len) sizeof_int) ;;
  retval <- access (memcpy retval sizeof_int (rep 4 res) sizeof_int) ;;
  e <- get_errno ;;
  retval <- access (memcpy retval (sizeof_int * 2) (rep 4 e) sizeof_int) ;;
  send retval (sizeof_int * 3) ;;;
  free ;;;
  free.

Definition serveGetdirentries (buf : list byte) : M E unit :=
  fd <- access (load_signed 4 buf 0) ;;
  nbyte <- access (load_unsigned 8 buf sizeof_int) ;;
  basep <- access (load_signed 8 buf (sizeof_int + sizeof_size_t)) ;;
  buff <- alloca nbyte ;;
  r <- syscall (os_getdirentries fd nbyte basep) ;;
  let res := fst (filled r nbyte buff) in
  let buff := snd (filled r nbyte buff) in
  p <- malloc (to_size_t (res + sizeof_int * 2 + sizeof_ssize_t)) ;;
  retval <- check_null p ;;
  let len := to_int (res + sizeof_int + sizeof_ssize_t) in
  retval <- access (memcpy retval 0 (rep 4 len) sizeof_int) ;;
  retval <- access (memcpy retval sizeof_int (rep 8 res) sizeof_ssize_t) ;;
  e <- get_errno ;;
  retval <- access (memcpy retval (sizeof_ssize_t + sizeof_int) (rep 4 e)
                      sizeof_int) ;;
  retval <- access (memcpy retval (sizeof_int * 2 + sizeof_ssize_t) buff
                      (to_size_t res)) ;;
  send retval (to_size_t (sizeof_ssize_t + sizeof_int * 2 + res)) ;;;
  free.

Definition serveGetdirtree (buf : list byte) : M E unit :=
  n <- access (load_signed 4 buf 0) ;;
  path <- alloca (to_int (n + 1)) ;;
  path <- access (memcpy path 0 (ptr_add buf sizeof_int) (to_size_t n)) ;;
  path <- access (memcpy path n [Byte.x00] 1) ;;
  t <- syscall (os_getdirtree (c_string path)) ;;
  match t with
  | None =>
      retval <- alloca (sizeof_int * 3) ;;
      let bufLen := sizeof_int * 2 in
      let error := 1 in
      retval <- access (memcpy retval 0 (rep 4 bufLen) sizeof_int) ;;
      retval <- access (memcpy retval sizeof_int (rep 4 error) sizeof_int) ;;
      e <- get_errno ;;
      retval <- access (memcpy retval (sizeof_int * 2) (rep 4 e) sizeof_int) ;;
      send retval (sizeof_int * 3) ;;;
      ret tt
  | Some t =>
      s <- serializeTree t ;;
      let len_ := to_ssize_t (len s) in
      retval <- alloca (to_size_t (sizeof_int * 3 + sizeof_ssize_t + len_ + 1)) ;;
      let bufLen := to_int (sizeof_int * 2 + sizeof_ssize_t + len_ + 1) in
      retval <- access (memcpy retval 0 (rep 4 bufLen) sizeof_int) ;;
      let error := 0 in
      retval <- access (memcpy retval sizeof_int (rep 4 error) sizeof_int) ;;
      retval <- access (memcpy retval (sizeof_int * 2) (rep 8 len_)
                          sizeof_ssize_t) ;;
      e <- get_errno ;;
      retval <- access (memcpy retval (sizeof_ssize_t + sizeof_int * 2)
                          (rep 4 e) sizeof_int) ;;
      retval <- access (memcpy retval (sizeof_int * 3 + sizeof_ssize_t) (tmp s)
                          (to_size_t len_)) ;;
      retval <- access (memcpy retval (sizeof_int * 3 + sizeof_ssize_t + len_)
                          [Byte.x00] 1) ;;
      send retval (to_size_t (len s + sizeof_int * 3 + sizeof_ssize_t + 1)) ;;;
      free ;;;   (* freedirtree(t) *)
      free ;;;
      free
  end.

Definition undefined_function : string :=
  String.append "undefined function " (String (Ascii.ascii_of_nat 10) EmptyString).

(** The chain of tests of [serve] on the operation number. *)
Definition dispatch (fID : Z) (buf : list byte) : M E Z :=
  if fID =? 0 then serveOpen buf ;;; ret 0
  else if fID =? 1 then serveClose buf ;;; ret 0
  else if fID =? 2 then serveWrite buf ;;; ret 0
  else if fID =? 3 then serveRead buf ;;; ret 0
  else if fID =? 4 then serveLseek buf ;;; ret 0
  else if fID =? 5 then serveStat buf ;;; ret 0
  else if fID =? 6 then serveUnlink buf ;;; ret 0
  else if fID =? 7 then serveGetdirentries buf ;;; ret 0
  else if fID =? 8 then serveGetdirtree buf ;;; ret 0
  else fprintf_stderr undefined_function ;;; ret (-1).

(** [serve]: one request of the session; [-1] when the session is over. *)
Definition serve (fuel : nat) : M E Z :=
  op <- alloca (sizeof_int * 2) ;;
  r <- recv op 0 (sizeof_int * 2) ;;
  let rv := fst r in
  let op := snd r in
  if rv <=? 0 then
    if rv <? 0 then err
    else ret (-1)
  else
    fID <- access (load_signed 4 op 0) ;;
    bufSize <- access (load_signed 4 op sizeof_int) ;;
    buf <- alloca bufSize ;;
    buf <- receiveAll fuel buf bufSize ;;
    dispatch fID buf.

(** The child of [main]: the loop over [serve], then [close(sessfd)] and
    [exit(0)]. *)
Fixpoint session_loop (fuel : nat) : M E unit :=
  match fuel with
  | O => fun _ => OutOfFuel
  | S fuel' =>
      r <- serve fuel ;;
      if r =? -1 then ret tt else session_loop fuel'
  end.

Definition child (fuel : nat) : M E unit :=
  session_loop fuel ;;;
  close_session ;;;
  exit 0.

(** The process a [fork] creates: a copy of the parent that holds the
    accepted socket, on which the peer delivers [stream]. *)
Definition forked (stream : list chunk) (w : world E) : world E :=
  mkWorld stream [] (stderr w) (errno w) (returned w) true (env w).

(** The platform as a child leaves it. *)
Definition env_after {A} (r : result E A) (w : world E) : E :=
  match r with
  | Ret _ w' | Exit _ w' | Fault w' => env w'
  | OutOfFuel => env w
  end.

(** The accept loop of [main] over the clients that arrive.  The children
    are run one after the other; the parent does not wait for them.  The
    result is how each child ends and the state of the parent. *)
Fixpoint main_loop (fuel : nat) (queue : list arrival) (w : world E)
  : list (result E unit) * listener E :=
  match queue with
  | [] => ([], Listening w)
  | AcceptFails e :: _ =>
      ([], Stopped 1 (logged (ErrMsg e) (lib_step (Some e) (env w) w)))
  | ForkFails e :: _ =>
      ([], Stopped 1 (logged (ErrMsg e) (lib_step (Some e) (env w) w)))
  | Connects stream :: rest =>
      let c := child fuel (forked stream w) in
      let r := main_loop fuel rest (closed (lib_step None (env_after c w) w)) in
      (c :: fst r, snd r)
  end.

End Server.


(** ** The start of [main], and the library of [interpose/mylib.c] *)

(** *** Numbers in strings, byte order *)

(** [isspace] in the C locale. *)
Definition isspace (c : Ascii.ascii) : bool :=
  let n := Z.of_nat (Ascii.nat_of_ascii c) in
  (n =? 32) || ((9 <=? n) && (n <=? 13)).

Definition digit_of (c : Ascii.ascii) : option Z :=
  let n := Z.of_nat (Ascii.nat_of_ascii c) in
  if (48 <=? n) && (n <=? 57) then Some (n - 48) else None.

Fixpoint skip_space (s : string) : string :=
  match s with
  | String c r => if isspace c then skip_space r else s
  | EmptyString => s
  end.

(** The value of the decimal digits [s] starts with, after [acc]. *)
Fixpoint decimal (acc : Z) (s : string) : Z :=
  match s with
  | String c r =>
      match digit_of c with
      | Some d => decimal (10 * acc + d) r
      | None => acc
      end
  | EmptyString => acc
  end.

(** [atoi(s)]: white space, an optional sign, decimal digits; [None] when
    the value is not that of an [int], for which C leaves the behaviour
    undefined. *)
Definition atoi (s : string) : option Z :=
  let t := skip_space s in
  let v := match t with
           | String c r =>
               let n := Z.of_nat (Ascii.nat_of_ascii c) in
               if n =? 45 then - decimal 0 r        (* '-' *)
               else if n =? 43 then decimal 0 r     (* '+' *)
               else decimal 0 t
           | EmptyString => 0
           end in
  if (- 2 ^ 31 <=? v) && (v <? 2 ^ 31) then Some v else None.

(** [htons], [htonl] on a little-endian host. *)
Definition htons (x : Z) : Z := le_combine (rev (le_split 2 x)).
Definition htonl (x : Z) : Z := le_combine (rev (le_split 4 x)).
Definition INADDR_ANY : Z := 0.

Definition newline : string := String (Ascii.ascii_of_nat 10) EmptyString.

(** *** Sockets and the environment *)

Class Network (E : Type) : Type := {
  (** [getenv(name)] *)
  os_getenv : string -> option string;
  os_inet_addr : string -> Z;
  (** [socket(AF_INET, SOCK_STREAM, 0)] *)
  os_socket : call E Z;
  (** [bind(sockfd, &srv, _)], [srv] holding [s_addr] and [sin_port] *)
  os_bind : Z -> Z -> Z -> call E Z;
  os_listen : Z -> Z -> call E Z;
  (** [connect(sockfd, &srv, _)] *)
  os_connect : Z -> Z -> Z -> call E Z;
}.

Section Main.
Context {E : Type} {P : Platform E} {N : Network E}.

(** [port] in [main]: [(unsigned short)atoi(serverport)], or 15400 when the
    variable is not set. *)
Definition server_port (serverport : option string) : option Z :=
  match serverport with
  | Some s => option_map (wrap_unsigned 2) (atoi s)
  | None => Some 15400
  end.

(** [main]: the socket, then the accept loop over the clients of [queue];
    the result is that of [main_loop]. *)
Definition main (fuel : nat) (queue : list arrival)
  : M E (list (result E unit) * listener E) :=
  let serverport := os_getenv "serverport15440" in
  port <- access (server_port serverport) ;;
  sockfd <- libcall os_socket ;;
  (if sockfd <? 0 then err else ret tt) ;;;
  rv <- libcall (os_bind sockfd (htonl INADDR_ANY) (htons port)) ;;
  (if rv <? 0 then err else ret tt) ;;;
  rv <- libcall (os_listen sockfd 5) ;;
  (if rv <? 0 then err else ret tt) ;;;
  fun w => Ret (main_loop fuel queue w) w.

End Main.

(** *** The interposed functions

    The functions of [mylib.c] take the place of those of the C library in
    a client process.  [orig_open] and the like are the calls of the
    platform, as [dlsym(RTLD_NEXT, _)] resolved them in [_init]. *)

Module mylib.
Section Interposed.
Context {E : Type} {P : Platform E} {N : Network E}.

Definition O_CREAT : Z := 64.

(** [port] in [sendToServer]: [(unsigned short)atoi(serverport)], where
    [serverport] is ["15440"] when the variable is not set. *)
Definition client_port (serverport : option string) : option Z :=
  option_map (wrap_unsigned 2)
    (atoi match serverport with Some s => s | None => "15440"%string end).

Definition sendToServer (arg : string) : M E Z :=
  let msg := list_byte_of_string arg ++ [Byte.x00] in
  serverip <- match os_getenv "server15440" with
              | Some ip =>
                  fprintf_stderr
                    ("Got environment variable server15440: " ++ ip ++ newline) ;;;
                  ret ip
              | None =>
                  fprintf_stderr
                    ("Environment variable server15440 not found.  Using 127.0.0.1"
                       ++ newline) ;;;
                  ret "127.0.0.1"%string
              end ;;
  let serverport := os_getenv "serverport15440" in
  match serverport with
  | Some s =>
      fprintf_stderr
        ("Got environment variable serverport15440: " ++ s ++ newline)
  | None =>
      fprintf_stderr
        ("Environment variable serverport15440 not found.  Using 15440"
           ++ newline)
  end ;;;
  port <- access (client_port serverport) ;;
  sockfd <- libcall os_socket ;;
  (if sockfd <? 0 then err else ret tt) ;;;
  rv <- libcall (os_connect sockfd (os_inet_addr serverip) (htons port)) ;;
  (if rv <? 0 then err else ret tt) ;;;
  send msg (strlen (c_string msg)) ;;;
  libcall (os_close sockfd) ;;;
  ret 0.

(** [mode] is the argument after [flags], when the caller gave one. *)
Definition open (pathname : string) (flags : Z) (mode : option Z) : M E Z :=
  m <- (if Z.land flags O_CREAT =? 0 then ret 0 else access mode) ;;
  fprintf_stderr ("mylib: open called for path " ++ pathname ++ newline) ;;;
  sendToServer "open" ;;;
  syscall (os_open (list_byte_of_string pathname) flags m).

Definition close (fd : Z) : M E Z :=
  sendToServer "close" ;;;
  syscall (os_close fd).

Definition read (fildes : Z) (nbyte : Z) : M E (option (list byte)) :=
  sendToServer "read" ;;;
  syscall (os_read fildes nbyte).

Definition write (fildes : Z) (buf : list byte) : M E Z :=
  sendToServer "write" ;;;
  syscall (os_write fildes buf).

Definition lseek (fd offset whence : Z) : M E Z :=
  sendToServer "lseek" ;;;
  syscall (os_lseek fd offset whence).

Definition stat (path : string) : M E (Z * option (list byte)) :=
  sendToServer "stat" ;;;
  syscall (os_stat (list_byte_of_string path)).

Definition unlink (path : string) : M E Z :=
  sendToServer "unlink" ;;;
  syscall (os_unlink (list_byte_of_string path)).

Definition getdirentries (fd nbytes basep : Z) : M E (option (list byte)) :=
  sendToServer "getdirentries" ;;;
  syscall (os_getdirentries fd nbytes basep).

Definition getdirtree (path : string) : M E (option dirtreenode) :=
  sendToServer "getdirtree" ;;;
  syscall (os_getdirtree (list_byte_of_string path)).

Definition freedirtree : M E unit :=
  sendToServer "freedirtree" ;;;
  free.

End Interposed.
End mylib.



(** ** Specification vocabulary *)

(** The first [n] bytes a stream delivers, whatever the fragments, and the
    stream left behind; [None] when the peer closes or the transport fails
    before [n] bytes have come. *)
Fixpoint pull (n : nat) (inb : list chunk) : option (list byte * list chunk) :=
  match n with
  | O => Some ([], inb)
  | S _ =>
      match inb with
      | [] => None
      | Broken _ :: _ => None
      | Data bs :: rest =>
          if (length bs <=? n)%nat then
            match pull (n - length bs) rest with
            | Some (more, inb') => Some (bs ++ more, inb')
            | None => None
            end
          else Some (firstn n bs, Data (skipn n bs) :: rest)
      end
  end.

(** The number of bytes a stream delivers before the peer closes, when the
    transport never fails. *)
Fixpoint delivered (inb : list chunk) : option nat :=
  match inb with
  | [] => Some O
  | Broken _ :: _ => None
  | Data bs :: rest => option_map (Nat.add (length bs)) (delivered rest)
  end.

(** The bytes [off .. off + n - 1] of a frame. *)
Definition field (frame : list byte) (off n : nat) : list byte :=
  firstn n (skipn off frame).

(** The length a reply announces in its first four bytes. *)
Definition reply_len (frame : list byte) : Z := le_combine (field frame 0 4).

(** Where the reply of operation [op] carries [err_code]: after a 4-byte
    result for [open], [close], [stat], [unlink] and the failure reply of
    [getdirtree]; after an 8-byte result for [write], [read], [lseek] and
    [getdirentries]; after the result and [tree_len] in the tree reply of
    [getdirtree]. *)
Definition err_code_offset (op : Z) (frame : list byte) : nat :=
  if (op =? 2) || (op =? 3) || (op =? 4) || (op =? 7) then 12%nat
  else if (op =? 8) && (le_combine (field frame 4 4) =? 0) then 16%nat
  else 8%nat.

Definition err_code (op : Z) (frame : list byte) : list byte :=
  field frame (err_code_offset op frame) 4.

(** The preorder serialization of a tree: each node gives the length of its
    name, its number of children, its name, then its children in order. *)
Fixpoint preorder (t : dirtreenode) : list byte :=
  match t with
  | Node nm k cs =>
      rep 4 (strlen nm) ++ rep 4 k ++ nm ++ flat_map preorder cs
  end.

(** The sum over the nodes of [8 + length of the name]. *)
Fixpoint tree_size (t : dirtreenode) : Z :=
  match t with
  | Node nm _ cs => 8 + strlen nm + fold_right (fun c acc => tree_size c + acc) 0 cs
  end.

(** The sum of the sizes of a list of trees. *)
Definition sizes (cs : list dirtreenode) : Z :=
  fold_right (fun c acc => tree_size c + acc) 0 cs.

(** A tree as [getdirtree] builds it: [num_subdirs] counts [subdirs]. *)
Fixpoint well_formed (t : dirtreenode) : Prop :=
  match t with
  | Node _ k cs =>
      k = Z.of_nat (length cs) /\
      fold_right (fun c acc => well_formed c /\ acc) True cs
  end.

(** Every node that has children has a name of at most [limit] bytes. *)
Fixpoint inner_names_within (limit : Z) (t : dirtreenode) : Prop :=
  match t with
  | Node nm k cs =>
      (k <> 0 -> strlen nm <= limit) /\
      fold_right (fun c acc => inner_names_within limit c /\ acc) True cs
  end.

(** How a run ends, without its value. *)
Definition final {E A} (r : result E A) : option (world E) :=
  match r with
  | Ret _ w | Exit _ w | Fault w => Some w
  | OutOfFuel => None
  end.

Definition returns {E A} (r : result E A) : bool :=
  match r with Ret _ _ => true | _ => false end.

Section Assumptions.
Context {E : Type} {P : Platform E}.

(** The allocator never returns [NULL]. *)
Definition malloc_succeeds : Prop :=
  forall n e, fst (fst (os_malloc n e)) = true.

(** [malloc] and [free] leave [errno] alone. *)
Definition allocator_keeps_errno : Prop :=
  (forall n e, snd (fst (os_malloc n e)) = None) /\
  (forall e, snd (fst (os_free e)) = None).

(** Two worlds with the same traffic, log and history of calls. *)
Definition same_io (w w' : world E) : Prop :=
  inbox w' = inbox w /\ outbox w' = outbox w /\ stderr w' = stderr w /\
  returned w' = returned w /\ sess_open w' = sess_open w.

(** [w'] differs from [w] by calls of the allocator only. *)
Definition alloc_only (w w' : world E) : Prop :=
  same_io w w' /\ (allocator_keeps_errno -> errno w' = errno w).

(** What a handler that returns has done: one reply, whose prefix is its
    length less four, and whose error code, at offset [off], is the errno
    the reply was filled from. *)
Definition replied (off : nat) (w w' : world E) : Prop :=
  exists frame e,
    outbox w' = outbox w ++ [frame] /\
    returned w' = returned w ++ [e] /\
    inbox w' = inbox w /\ stderr w' = stderr w /\
    (allocator_keeps_errno -> field frame off 4 = rep 4 e) /\
    reply_len frame = (Z.of_nat (length frame) - 4) mod 2 ^ 32.

(** What the recursive call gives for a child: its preorder bytes at the
    start of a block, and their number. *)
Definition child_serialized (rec : dirtreenode -> M E info) (c : dirtreenode)
  : Prop :=
  forall w, exists w' rest,
    rec c w = Ret (mkInfo (preorder c ++ rest) (tree_size c)) w' /\
    alloc_only w w'.

End Assumptions.


(** *** Vocabulary of the further properties *)

(** The bytes the fixed fields of the payload of operation [op] take. *)
Definition fixed_fields (op : Z) : Z :=
  if op =? 0 then sizeof_int + sizeof_mode_t + sizeof_size_t
  else if op =? 1 then sizeof_int
  else if op =? 2 then sizeof_int + sizeof_size_t
  else if op =? 3 then sizeof_int + sizeof_size_t
  else if op =? 4 then sizeof_int + sizeof_off_t + sizeof_int
  else if op =? 5 then sizeof_int
  else if op =? 6 then sizeof_int
  else if op =? 7 then sizeof_int + sizeof_size_t + sizeof_off_t
  else sizeof_int.

(** A reply whose first four bytes announce the bytes that follow them. *)
Definition well_framed (frame : list byte) : Prop :=
  reply_len frame = (Z.of_nat (length frame) - 4) mod 2 ^ 32.

(** How a run that only receives may end: never outside the buffer, which
    keeps its size; nothing is sent, nothing is asked of the file system,
    and the log gets the message of [err] only. *)
Definition quiet_end {E} (buf : list byte) (w : world E)
    (r : result E (list byte)) : Prop :=
  match r with
  | Ret buf' w' =>
      length buf' = length buf /\ outbox w' = outbox w /\
      returned w' = returned w /\ stderr w' = stderr w /\ env w' = env w /\
      sess_open w' = sess_open w
  | Exit s w' =>
      s = 1 /\ outbox w' = outbox w /\ returned w' = returned w /\
      stderr w' = stderr w ++ [ErrMsg (errno w')]
  | Fault _ => False
  | OutOfFuel => True
  end.

(** An action that leaves the process, when it does, by [err(1,0)]. *)
Definition exits_by_err {E A} (m : M E A) : Prop :=
  forall w s w', m w = Exit s w' -> s = 1.

(** The parent between two clients: its log, its [errno] and what it sent
    are those of [w]. *)
Definition same_parent {E} (w w' : world E) : Prop :=
  stderr w' = stderr w /\ errno w' = errno w /\ outbox w' = outbox w.

(** The call [f] on a platform that keeps a count, which the result [a] of
    the call changes by [delta a]. *)
Definition counted {E A} (delta : A -> Z) (f : call E A) : call (E * Z) A :=
  fun s =>
    let r := f (fst s) in
    (fst (fst r), snd (fst r), (snd r, snd s + delta (fst (fst r)))).

(** The platform [P] with the number of blocks that were handed out and
    not given back: [malloc] adds one when it returns a block,
    [getdirtree] when it returns a tree; [free] and [freedirtree] take one
    away. *)
Definition counting {E} (P : Platform E) : Platform (E * Z) := {|
  sizeof_stat := @sizeof_stat E P;
  junk := @junk E P;
  os_malloc := fun n =>
    counted (fun ok : bool => if ok then 1 else 0) (os_malloc n);
  os_free := counted (fun _ => -1) os_free;
  os_open := fun path flag m => counted (fun _ => 0) (os_open path flag m);
  os_close := fun fd => counted (fun _ => 0) (os_close fd);
  os_write := fun fd d => counted (fun _ => 0) (os_write fd d);
  os_read := fun fd n => counted (fun _ => 0) (os_read fd n);
  os_lseek := fun fd o p => counted (fun _ => 0) (os_lseek fd o p);
  os_stat := fun path => counted (fun _ => 0) (os_stat path);
  os_unlink := fun path => counted (fun _ => 0) (os_unlink path);
  os_getdirentries := fun fd n b =>
    counted (fun _ => 0) (os_getdirentries fd n b);
  os_getdirtree := fun path =>
    counted (fun t : option dirtreenode =>
               match t with Some _ => 1 | None => 0 end)
      (os_getdirtree path);
|}.

(** The blocks that are live in [w]. *)
Definition live {E} (w : world (E * Z)) : Z := snd (env w).

(** An action that, when it returns, has changed the count by [d]. *)
Definition balanced {E A} (m : M (E * Z) A) (d : Z) : Prop :=
  forall w a w', m w = Ret a w' -> live w' = live w + d.

Section ClientVocabulary.
Context {E : Type} {P : Platform E} {N : Network E}.

(** The address [sendToServer] connects to. *)
Definition server_ip : string :=
  match os_getenv "server15440" with
  | Some ip => ip
  | None => "127.0.0.1"%string
  end.

(** From the platform [e], [socket] gives a descriptor and [connect]
    reaches the server at [port]. *)
Definition reaches_server (port : Z) (e : E) : Prop :=
  let s := os_socket e in
  0 <= fst (fst s) /\
  0 <= fst (fst (os_connect (fst (fst s)) (os_inet_addr server_ip)
                   (htons port) (snd s))).

(** What [sendToServer] logs about the two variables. *)
Definition announcement : list logline :=
  [Text match os_getenv "server15440" with
        | Some ip => "Got environment variable server15440: " ++ ip ++ newline
        | None =>
            "Environment variable server15440 not found.  Using 127.0.0.1"
              ++ newline
        end;
   Text match os_getenv "serverport15440" with
        | Some s => "Got environment variable serverport15440: " ++ s ++ newline
        | None =>
            "Environment variable serverport15440 not found.  Using 15440"
              ++ newline
        end].

(** [w1] is [w] after the server was told [name]: one message, the name
    without its NUL; the two lines of log; no call of the file system. *)
Definition notified (name : string) (w w1 : world E) : Prop :=
  outbox w1 = outbox w ++ [list_byte_of_string name] /\
  returned w1 = returned w /\
  stderr w1 = stderr w ++ announcement /\
  inbox w1 = inbox w.

(** A call that ended in [err(1,0)] before it reached the file system. *)
Definition gave_up {A} (w : world E) (r : result E A) : Prop :=
  exists w',
    r = Exit 1 w' /\ returned w' = returned w /\ outbox w' = outbox w /\
    exists log, stderr w' = stderr w ++ log ++ [ErrMsg (errno w')].

End ClientVocabulary.

(** ** A scripted platform

    A platform whose calls answer from a fixed table; it gives the concrete
    runs the development evaluates. *)

Module Script.

Record script : Type := mkScript {
  sc_malloc : Z -> bool * option Z;
  sc_free : option Z;
  sc_open : list byte -> Z * option Z;
  sc_close : Z -> Z * option Z;
  sc_write : Z -> list byte -> Z * option Z;
  sc_read : Z -> option (list byte) * option Z;
  sc_lseek : Z -> Z * option Z;
  sc_stat : list byte -> (Z * option (list byte)) * option Z;
  sc_unlink : list byte -> Z * option Z;
  sc_getdirentries : Z -> option (list byte) * option Z;
  sc_getdirtree : list byte -> option dirtreenode * option Z;
}.

(** A call that answers [r] and keeps no state. *)
Definition answer {A} (r : A * option Z) : call unit A :=
  fun e => (fst r, snd r, e).

Definition scripted (s : script) : Platform unit := {|
  sizeof_stat := 144;
  junk := fun i => byte.of_Z (Z.of_nat i + 160);
  os_malloc := fun n => answer (sc_malloc s n);
  os_free := answer (tt, sc_free s);
  os_open := fun path _ _ => answer (sc_open s path);
  os_close := fun fd => answer (sc_close s fd);
  os_write := fun fd d => answer (sc_write s fd d);
  os_read := fun fd _ => answer (sc_read s fd);
  os_lseek := fun fd _ _ => answer (sc_lseek s fd);
  os_stat := fun path => answer (sc_stat s path);
  os_unlink := fun path => answer (sc_unlink s path);
  os_getdirentries := fun fd _ _ => answer (sc_getdirentries s fd);
  os_getdirtree := fun path => answer (sc_getdirtree s path);
|}.

Definition ENOENT : Z := 2.
Definition EBADF : Z := 9.
Definition ENOMEM : Z := 12.

(** The bytes of an ASCII string. *)
Definition bytes (s : string) : list byte := list_byte_of_string s.

(** The tree of [/a]: [a] holds the directory [c], which holds [d], and the
    file [b]. *)
Definition tree_a : dirtreenode :=
  Node (bytes "a") 2
    [Node (bytes "c") 1 [Node (bytes "d") 0 []]; Node (bytes "b") 0 []].

(** Descriptor 3 is a file that holds [hello], descriptor 4 a directory;
    no other descriptor is open and only [/a] exists. *)
Definition quiet : script := {|
  sc_malloc := fun _ => (true, None);
  sc_free := None;
  sc_open := fun _ => (-1, Some ENOENT);
  sc_close := fun fd => if fd =? 3 then (0, None) else (-1, Some EBADF);
  sc_write := fun fd d =>
    if fd =? 3 then (Z.of_nat (length d), None) else (-1, Some EBADF);
  sc_read := fun fd =>
    if fd =? 3 then (Some (bytes "hello"), None) else (None, Some EBADF);
  sc_lseek := fun fd => if fd =? 3 then (0, None) else (-1, Some EBADF);
  sc_stat := fun _ => ((-1, None), Some ENOENT);
  sc_unlink := fun _ => (-1, Some ENOENT);
  sc_getdirentries := fun fd =>
    if fd =? 4 then (Some (bytes "entries"), None) else (None, Some EBADF);
  sc_getdirtree := fun path =>
    if list_eq_dec Byte.byte_eq_dec path (bytes "/a")
    then (Some tree_a, None) else (None, Some ENOENT);
|}.

(** The same platform with a [malloc] that returns its block and leaves
    [ENOMEM] in [errno], as an allocator does that had to try twice. *)
Definition noisy : script := {|
  sc_malloc := fun _ => (true, Some ENOMEM);
  sc_free := sc_free quiet;
  sc_open := sc_open quiet;
  sc_close := sc_close quiet;
  sc_write := sc_write quiet;
  sc_read := sc_read quiet;
  sc_lseek := sc_lseek quiet;
  sc_stat := sc_stat quiet;
  sc_unlink := sc_unlink quiet;
  sc_getdirentries := sc_getdirentries quiet;
  sc_getdirtree := sc_getdirtree quiet;
|}.

#[export] Instance quiet_platform : Platform unit := scripted quiet.

(** The world of a session whose peer delivers [inb]. *)
Definition start (inb : list chunk) : world unit :=
  mkWorld inb [] [] 0 [] true tt.

(** A request frame: operation, length of the payload, payload. *)
Definition request (op : Z) (payload : list byte) : list byte :=
  rep 4 op ++ rep 4 (Z.of_nat (length payload)) ++ payload.

(** The world a run ends in, [w] when it is still running. *)
Definition world_of {A} (r : result unit A) (w : world unit) : world unit :=
  match final r with Some w' => w' | None => w end.

(** *** Requests and trees of the concrete runs *)

(** [open("/x", O_RDONLY)] *)
Definition open_missing : list byte :=
  rep 4 0 ++ rep 4 0 ++ rep 8 2 ++ bytes "/x".

(** [getdirentries(-10, buf, 4096, &0)] *)
Definition getdirentries_bad_fd : list byte :=
  rep 4 (-10) ++ rep 8 4096 ++ rep 8 0.

(** [read(3, buf, 16)] *)
Definition read_hello : list byte := rep 4 3 ++ rep 8 16.

(** [read(5, buf, 16)] on a descriptor that is not open *)
Definition read_bad_fd : list byte := rep 4 5 ++ rep 8 16.

(** [getdirtree("/a")] and [getdirtree("/b")] *)
Definition getdirtree_a : list byte := rep 4 2 ++ bytes "/a".
Definition getdirtree_b : list byte := rep 4 2 ++ bytes "/b".

(** A directory whose name has 193 bytes and that holds one entry. *)
Definition long_name_tree : dirtreenode :=
  Node (repeat Byte.x61 193) 1 [Node (bytes "b") 0 []].


(** *** The network of the concrete runs *)

Definition ECONNREFUSED : Z := 111.

(** No variable is set; [socket] gives descriptor 3; the server answers at
    127.0.0.1. *)
#[export] Instance online : Network unit := {|
  os_getenv := fun _ => None;
  os_inet_addr := fun _ => 16777343;
  os_socket := answer (3, None);
  os_bind := fun _ _ _ => answer (0, None);
  os_listen := fun _ _ => answer (0, None);
  os_connect := fun _ _ _ => answer (0, None);
|}.

(** The same, with nobody who listens: [connect] and [bind] fail. *)
Definition offline : Network unit := {|
  os_getenv := fun _ => None;
  os_inet_addr := fun _ => 16777343;
  os_socket := answer (3, None);
  os_bind := fun _ _ _ => answer (-1, Some ECONNREFUSED);
  os_listen := fun _ _ => answer (0, None);
  os_connect := fun _ _ _ => answer (-1, Some ECONNREFUSED);
|}.

(** The world of a session on the platform that counts. *)
Definition start_counting (inb : list chunk) : world (unit * Z) :=
  mkWorld inb [] [] 0 [] true (tt, 0).

(** [close(3)], [close(7)], [lseek(3, 0, SEEK_SET)] *)
Definition close_3 : list byte := rep 4 3.
Definition close_7 : list byte := rep 4 7.
Definition lseek_3 : list byte := rep 4 3 ++ rep 8 0 ++ rep 4 0.

(** [write(3, "hi", 2)], and the same announcing 200 bytes *)
Definition write_hi : list byte := rep 4 3 ++ rep 8 2 ++ bytes "hi".
Definition write_overlong : list byte := rep 4 3 ++ rep 8 200 ++ bytes "hi".

(** [open] announcing a path of 200 bytes in a payload that holds two *)
Definition open_overlong : list byte :=
  rep 4 0 ++ rep 4 0 ++ rep 8 200 ++ bytes "/x".

(** [stat("/x")], [unlink("/x")], and a path of length -1 *)
Definition path_x : list byte := rep 4 2 ++ bytes "/x".
Definition path_negative : list byte := rep 4 (-1) ++ bytes "/x".

(** [getdirentries(4, buf, 16, &0)] *)
Definition getdirentries_4 : list byte := rep 4 4 ++ rep 8 16 ++ rep 8 0.

(** Two requests in one segment: [close(3)], then [close(7)]. *)
Definition two_closes : world unit :=
  start [Data (request 1 close_3 ++ request 1 close_7)].

(** The world a run on the platform that counts ends in. *)
Definition world_of_counting {A} (r : result (unit * Z) A)
    (w : world (unit * Z)) : world (unit * Z) :=
  match final r with Some w' => w' | None => w end.


(** The quiet platform where every path is the directory with the long
    name. *)
Definition long_names : script := {|
  sc_malloc := sc_malloc quiet;
  sc_free := sc_free quiet;
  sc_open := sc_open quiet;
  sc_close := sc_close quiet;
  sc_write := sc_write quiet;
  sc_read := sc_read quiet;
  sc_lseek := sc_lseek quiet;
  sc_stat := sc_stat quiet;
  sc_unlink := sc_unlink quiet;
  sc_getdirentries := sc_getdirentries quiet;
  sc_getdirtree := fun _ => (Some long_name_tree, None);
|}.

(** Operation 9 announcing a payload of [0x80000000] bytes. *)
Definition undefined_negative : list byte := rep 4 9 ++ rep 4 2147483648.

End Script.

Ltac splits := repeat match goal with |- _ /\ _ => split end.

Ltac sizes :=
  unfold sizeof_int, sizeof_mode_t, sizeof_size_t, sizeof_ssize_t,
    sizeof_off_t, sizeof_ret, MAXMSGLEN in *.

(** * Properties *)

(** ** Memory objects *)

Lemma in_bounds_true obj off n :
  in_bounds obj off n = true <->
  0 <= off /\ 0 <= n /\ off + n <= Z.of_nat (length obj).
Proof.
  unfold in_bounds. rewrite !andb_true_iff, !Z.leb_le. tauto.
Qed.

Lemma memcpy_Some dst off src n r :
  memcpy dst off src n = Some r ->
  0 <= off /\ 0 <= n /\ off + n <= Z.of_nat (length dst) /\
  n <= Z.of_nat (length src) /\
  r = firstn (Z.to_nat off) dst ++ firstn (Z.to_nat n) src
        ++ skipn (Z.to_nat (off + n)) dst.
Proof.
  unfold memcpy. destruct (in_bounds dst off n) eqn:Hb; [|discriminate].
  destruct (n <=? Z.of_nat (length src)) eqn:Hs; [|discriminate].
  apply in_bounds_true in Hb. apply Z.leb_le in Hs.
  intros [= <-]. intuition.
Qed.

Lemma memcpy_length dst off src n r :
  memcpy dst off src n = Some r -> length r = length dst.
Proof.
  intros H. apply memcpy_Some in H as (? & ? & ? & ? & ->).
  rewrite !length_app, !length_firstn, length_skipn. lia.
Qed.

Lemma memcpy_None_dst dst off src n :
  Z.of_nat (length dst) < off + n -> memcpy dst off src n = None.
Proof.
  intros H. unfold memcpy.
  destruct (in_bounds dst off n) eqn:Hb; [|reflexivity].
  apply in_bounds_true in Hb. lia.
Qed.

Lemma memcpy_None_src dst off src n :
  Z.of_nat (length src) < n -> memcpy dst off src n = None.
Proof.
  intros H. unfold memcpy.
  destruct (n <=? Z.of_nat (length src)) eqn:Hs.
  - apply Z.leb_le in Hs. lia.
  - now rewrite andb_false_r.
Qed.

Lemma length_rep n z : length (rep n z) = n.
Proof. apply length_le_split. Qed.

(** A copy that starts where the part written so far ends. *)
Lemma memcpy_frontier done rest off src n :
  off = Z.of_nat (length done) -> 0 <= n -> n <= Z.of_nat (length src) ->
  n <= Z.of_nat (length rest) ->
  memcpy (done ++ rest) off src n
  = Some ((done ++ firstn (Z.to_nat n) src) ++ skipn (Z.to_nat n) rest).
Proof.
  intros -> Hn Hs Hr. unfold memcpy.
  replace (in_bounds _ _ _) with true
    by (symmetry; apply in_bounds_true; rewrite length_app; lia).
  replace (n <=? _) with true by (symmetry; apply Z.leb_le; lia).
  cbn [andb]. f_equal.
  rewrite Nat2Z.id, firstn_app, Nat.sub_diag, firstn_O, app_nil_r, firstn_all.
  rewrite <- app_assoc. do 2 f_equal.
  rewrite skipn_app, skipn_all2 by lia. cbn [app]. f_equal. lia.
Qed.

Lemma memcpy_frontier_all done rest off src n :
  off = Z.of_nat (length done) -> n = Z.of_nat (length src) ->
  n <= Z.of_nat (length rest) ->
  memcpy (done ++ rest) off src n
  = Some ((done ++ src) ++ skipn (Z.to_nat n) rest).
Proof.
  intros. rewrite memcpy_frontier by lia. subst n.
  now rewrite Nat2Z.id, firstn_all.
Qed.

(** ** Conversions *)

Lemma to_size_t_small z : 0 <= z < 2 ^ 64 -> to_size_t z = z.
Proof. intros. unfold to_size_t, wrap_unsigned. now apply Z.mod_small. Qed.

Lemma to_int_small z : - 2 ^ 31 <= z < 2 ^ 31 -> to_int z = z.
Proof.
  intros H. unfold to_int, wrap_signed.
  change (2 ^ (8 * 4)) with 4294967296. change (2 ^ (8 * 4 - 1)) with 2147483648.
  change (2 ^ 31) with 2147483648 in H.
  destruct (Z.ltb_spec (z mod 4294967296) 2147483648) as [Hlt|Hge].
  - destruct (Z.le_gt_cases 0 z).
    + apply Z.mod_small. lia.
    + rewrite <- (Z.mod_add z 1) in Hlt by lia. rewrite Z.mod_small in Hlt; lia.
  - destruct (Z.le_gt_cases 0 z).
    + rewrite Z.mod_small in Hge; lia.
    + rewrite <- (Z.mod_add z 1) by lia. rewrite Z.mod_small; lia.
Qed.

Lemma to_ssize_t_small z : - 2 ^ 63 <= z < 2 ^ 63 -> to_ssize_t z = z.
Proof.
  intros H. unfold to_ssize_t, wrap_signed.
  change (2 ^ (8 * 8)) with 18446744073709551616.
  change (2 ^ (8 * 8 - 1)) with 9223372036854775808.
  change (2 ^ 63) with 9223372036854775808 in H.
  destruct (Z.ltb_spec (z mod 18446744073709551616) 9223372036854775808) as [Hlt|Hge].
  - destruct (Z.le_gt_cases 0 z).
    + apply Z.mod_small. lia.
    + rewrite <- (Z.mod_add z 1) in Hlt by lia. rewrite Z.mod_small in Hlt; lia.
  - destruct (Z.le_gt_cases 0 z).
    + rewrite Z.mod_small in Hge; lia.
    + rewrite <- (Z.mod_add z 1) by lia. rewrite Z.mod_small; lia.
Qed.

Lemma load_unsigned_range n buf off v :
  load_unsigned n buf off = Some v -> 0 <= v < 2 ^ (8 * Z.of_nat n).
Proof.
  unfold load_unsigned. destruct (in_bounds _ _ _) eqn:Hb; [|discriminate].
  intros [= <-]. apply in_bounds_true in Hb.
  pose proof (le_combine_bound (firstn n (skipn (Z.to_nat off) buf))) as Hc.
  rewrite length_firstn, length_skipn in Hc.
  replace (Init.Nat.min n (length buf - Z.to_nat off)) with n in Hc by lia.
  exact Hc.
Qed.

(** ** Worlds *)

Lemma received_same {E} (w : world E) : received (inbox w) None w = w.
Proof. now destruct w. Qed.

Lemma firstn_plus {A} (a b : nat) (l : list A) :
  firstn (a + b) l = firstn a l ++ firstn b (skipn a l).
Proof.
  revert l. induction a as [|a IH]; intros [|x l]; cbn; try reflexivity.
  - now rewrite firstn_nil.
  - now rewrite IH.
Qed.

Lemma pull_succ k c inb :
  (0 < k)%nat ->
  pull k (c :: inb) =
  match c with
  | Broken _ => None
  | Data bs =>
      if (length bs <=? k)%nat then
        match pull (k - length bs) inb with
        | Some (more, inb') => Some (bs ++ more, inb')
        | None => None
        end
      else Some (firstn k bs, Data (skipn k bs) :: inb)
  end.
Proof. destruct k; [lia|reflexivity]. Qed.

Lemma pull_zero inb : pull 0 inb = Some ([], inb).
Proof. now destruct inb. Qed.

Lemma take_pull inb : forall k max payload inb',
  (0 < k)%nat -> 0 < max <= Z.of_nat k ->
  pull k inb = Some (payload, inb') ->
  exists bs inb1 more,
    take max inb = (Z.of_nat (length bs), bs, None, inb1) /\
    (0 < length bs)%nat /\ Z.of_nat (length bs) <= max /\
    pull (k - length bs) inb1 = Some (more, inb') /\ payload = bs ++ more.
Proof.
  induction inb as [|c inb IH]; intros k max payload inb' Hk Hmax Hp.
  - destruct k; [lia|discriminate].
  - rewrite pull_succ in Hp by assumption.
    destruct c as [bs|e]; [|discriminate].
    destruct (Nat.leb_spec (length bs) k) as [Hle|Hgt].
    + destruct (pull (k - length bs) inb) as [[more0 inb0]|] eqn:Hp0; [|discriminate].
      injection Hp as <- <-.
      destruct bs as [|b bs].
      * cbn [length] in Hp0. rewrite Nat.sub_0_r in Hp0.
        destruct (IH k max more0 inb0 Hk Hmax Hp0) as (bs' & inb1 & more & Ht & ? & ? & ? & ->).
        exists bs', inb1, more. cbn [take app]. splits; auto.
      * cbn [take]. destruct (Z.leb_spec (Z.of_nat (length (b :: bs))) max) as [Hlm|Hlm].
        -- exists (b :: bs), inb, more0. splits; auto. cbn [length]; lia.
        -- exists (firstn (Z.to_nat max) (b :: bs)),
             (Data (skipn (Z.to_nat max) (b :: bs)) :: inb),
             (skipn (Z.to_nat max) (b :: bs) ++ more0).
           rewrite length_firstn.
           replace (Init.Nat.min (Z.to_nat max) (length (b :: bs))) with (Z.to_nat max) by lia.
           rewrite Z2Nat.id by lia. splits; try reflexivity; try lia.
           ++ rewrite pull_succ by lia. rewrite length_skipn.
              replace (_ <=? _)%nat with true by (symmetry; apply Nat.leb_le; lia).
              replace (k - Z.to_nat max - (length (b :: bs) - Z.to_nat max))%nat
                with (k - length (b :: bs))%nat by lia.
              now rewrite Hp0.
           ++ now rewrite app_assoc, firstn_skipn.
    + injection Hp as <- <-.
      destruct bs as [|b bs]; [cbn [length] in Hgt; lia|].
      cbn [take].
      replace (_ <=? _) with false by (symmetry; apply Z.leb_gt; lia).
      exists (firstn (Z.to_nat max) (b :: bs)),
        (Data (skipn (Z.to_nat max) (b :: bs)) :: inb),
        (firstn (k - Z.to_nat max) (skipn (Z.to_nat max) (b :: bs))).
      rewrite length_firstn.
      replace (Init.Nat.min (Z.to_nat max) (length (b :: bs))) with (Z.to_nat max) by lia.
      rewrite Z2Nat.id by lia. splits; try reflexivity; try lia.
      * destruct (Nat.eq_dec k (Z.to_nat max)) as [->|Hne].
        -- rewrite Nat.sub_diag, pull_zero. reflexivity.
        -- rewrite pull_succ by lia. rewrite length_skipn.
           replace (_ <=? _)%nat with false by (symmetry; apply Nat.leb_gt; lia).
           rewrite skipn_skipn.
           replace (k - Z.to_nat max + Z.to_nat max)%nat with k by lia.
           reflexivity.
      * rewrite <- firstn_plus. f_equal. lia.
Qed.

Section Facts.
Context {E : Type} {P : Platform E}.

Lemma length_fresh n : length (fresh n) = Z.to_nat n.
Proof. unfold fresh. now rewrite length_map, length_seq. Qed.

Lemma bind_Ret {A B} (m : M E A) (k : A -> M E B) w a w' :
  m w = Ret a w' -> bind m k w = k a w'.
Proof. unfold bind. now intros ->. Qed.

Lemma bind_inv {A B} (m : M E A) (k : A -> M E B) w b w' :
  bind m k w = Ret b w' -> exists a w1, m w = Ret a w1 /\ k a w1 = Ret b w'.
Proof.
  unfold bind. destruct (m w) as [a w1| | |]; try discriminate.
  intros H. now exists a, w1.
Qed.

(** ** The frame reader *)

Lemma take_nonneg_data max inb n :
  delivered inb = Some n -> 0 < max ->
  exists bs inb',
    take max inb = (Z.of_nat (length bs), bs, None, inb') /\
    Z.of_nat (length bs) <= max /\
    delivered inb' = Some (n - length bs)%nat /\ (length bs <= n)%nat.
Proof.
  revert n. induction inb as [|c inb IH]; intros n Hd Hmax.
  - exists [], []. cbn in Hd. injection Hd as <-. cbn. splits; try reflexivity; lia.
  - destruct c as [bs|e]; [|discriminate].
    cbn [delivered] in Hd.
    destruct (delivered inb) as [m|] eqn:Hm; [|discriminate].
    cbn in Hd. injection Hd as <-.
    destruct bs as [|b bs].
    + destruct (IH m eq_refl Hmax) as (bs' & inb' & Ht & Hl & Hd' & Hle).
      exists bs', inb'. cbn [take]. rewrite Ht. cbn [length Nat.add].
      splits; auto.
    + cbn [take]. destruct (Z.leb_spec (Z.of_nat (length (b :: bs))) max) as [Hle|Hgt].
      * exists (b :: bs), inb. splits; auto; try lia.
        rewrite Hm. f_equal. lia.
      * exists (firstn (Z.to_nat max) (b :: bs)), (Data (skipn (Z.to_nat max) (b :: bs)) :: inb).
        rewrite length_firstn.
        replace (Init.Nat.min (Z.to_nat max) (length (b :: bs))) with (Z.to_nat max) by lia.
        rewrite Z2Nat.id by lia. splits; try reflexivity; try lia.
        cbn [delivered]. rewrite Hm, length_skipn. cbn [option_map]. f_equal. lia.
Qed.

Lemma memcpy_in_bounds dst off src n :
  0 <= off -> 0 <= n -> off + n <= Z.of_nat (length dst) ->
  n <= Z.of_nat (length src) ->
  exists r, memcpy dst off src n = Some r /\ length r = length dst.
Proof.
  intros. unfold memcpy.
  replace (in_bounds dst off n) with true by (symmetry; apply in_bounds_true; lia).
  replace (n <=? _) with true by (symmetry; apply Z.leb_le; lia).
  cbn [andb]. eexists. split; [reflexivity|].
  rewrite !length_app, !length_firstn, length_skipn. lia.
Qed.

Lemma receiveAll_loop_spins fuel : forall buf bufSize maxSize currlen (w : world E) n,
  delivered (inbox w) = Some n ->
  currlen + Z.of_nat n < bufSize -> 0 <= currlen ->
  Z.of_nat (length buf) = bufSize -> 0 < maxSize <= bufSize - currlen ->
  receiveAll_loop fuel buf bufSize maxSize currlen w = OutOfFuel.
Proof.
  induction fuel as [|fuel IH]; intros buf bufSize maxSize currlen w n Hd Hn Hc Hb Hm.
  - reflexivity.
  - cbn [receiveAll_loop].
    replace (currlen <? bufSize) with true by (symmetry; apply Z.ltb_lt; lia).
    destruct (take_nonneg_data maxSize (inbox w) n Hd) as (bs & inb' & Ht & Hl & Hd' & Hle);
      [lia|].
    destruct (memcpy_in_bounds buf currlen bs (Z.of_nat (length bs)))
      as (buf' & Hcp & Hlen); try lia.
    unfold bind, recv. rewrite Ht, Hcp. cbn [fst snd].
    replace (Z.of_nat (length bs) <? 0) with false by (symmetry; apply Z.ltb_ge; lia).
    apply IH with (n := (n - length bs)%nat); try assumption; try lia.
    destruct (Z.ltb_spec (bufSize - (currlen + Z.of_nat (length bs))) maxSize); lia.
Qed.

(** C3 (the part the code misses): a peer that closes after fewer than
    [bufSize] bytes leaves [receiveAll] in its loop; whatever the fuel, the
    call has not returned and has not failed. *)
Theorem receiveAll_peer_closed_spins fuel buf bufSize (w : world E) n :
  delivered (inbox w) = Some n ->
  Z.of_nat n < bufSize ->
  Z.of_nat (length buf) = bufSize ->
  receiveAll fuel buf bufSize w = OutOfFuel.
Proof.
  intros Hd Hn Hb. unfold receiveAll.
  apply receiveAll_loop_spins with (n := n); try assumption; try lia.
  unfold MAXMSGLEN. destruct (Z.ltb_spec bufSize 200); lia.
Qed.

Lemma receiveAll_loop_reads fuel :
  forall k done rest bufSize maxSize currlen (w : world E) payload inb',
  (k < fuel)%nat -> length rest = k ->
  currlen = Z.of_nat (length done) -> bufSize = currlen + Z.of_nat k ->
  ((0 < k)%nat -> 0 < maxSize <= Z.of_nat k) ->
  pull k (inbox w) = Some (payload, inb') ->
  receiveAll_loop fuel (done ++ rest) bufSize maxSize currlen w
  = Ret (done ++ payload) (received inb' None w).
Proof.
  induction fuel as [|fuel IH];
    intros k done rest bufSize maxSize currlen w payload inb' Hf Hr Hc Hb Hm Hp;
    [lia|].
  cbn [receiveAll_loop]. destruct k as [|k'].
  - replace (currlen <? bufSize) with false by (symmetry; apply Z.ltb_ge; lia).
    rewrite pull_zero in Hp. injection Hp as <- <-.
    destruct rest; [|discriminate]. unfold ret. now rewrite received_same.
  - replace (currlen <? bufSize) with true by (symmetry; apply Z.ltb_lt; lia).
    destruct (take_pull (inbox w) (S k') maxSize payload inb')
      as (bs & inb1 & more & Ht & Hpos & Hle & Hp1 & ->); try lia; try assumption.
    unfold bind, recv. rewrite Ht.
    rewrite memcpy_frontier_all by lia. cbn [fst snd].
    replace (Z.of_nat (length bs) <? 0) with false by (symmetry; apply Z.ltb_ge; lia).
    erewrite IH with (k := (S k' - length bs)%nat) (payload := more) (inb' := inb').
    + rewrite <- app_assoc. reflexivity.
    + lia.
    + rewrite length_skipn, Nat2Z.id. lia.
    + rewrite length_app. lia.
    + lia.
    + intros Hk. destruct (Z.ltb_spec (bufSize - (currlen + Z.of_nat (length bs))) maxSize); lia.
    + exact Hp1.
Qed.

(** C3 (the part the code does): when the stream delivers [bufSize] bytes,
    in whatever fragments, [receiveAll] returns with exactly these bytes in
    the buffer and leaves the rest of the stream. *)
Lemma receiveAll_reads fuel buf bufSize (w : world E) payload inb' :
  (Z.to_nat bufSize < fuel)%nat -> 0 <= bufSize ->
  Z.of_nat (length buf) = bufSize ->
  pull (Z.to_nat bufSize) (inbox w) = Some (payload, inb') ->
  receiveAll fuel buf bufSize w = Ret payload (received inb' None w).
Proof.
  intros Hf H0 Hb Hp. unfold receiveAll.
  change buf with ([] ++ buf).
  erewrite receiveAll_loop_reads with (k := Z.to_nat bufSize); eauto; try lia.
  - reflexivity.
  - unfold MAXMSGLEN. destruct (Z.ltb_spec bufSize 200); lia.
Qed.

(** C3 (the part the code does): a transport error ends the process through
    [err(1,0)], with the message of the error on the log. *)
Lemma receiveAll_transport_error fuel buf bufSize (w : world E) e rest :
  inbox w = Broken e :: rest ->
  0 < bufSize -> Z.of_nat (length buf) = bufSize ->
  receiveAll (S fuel) buf bufSize w
  = Exit 1 (logged (ErrMsg e) (received rest (Some e) w)).
Proof.
  intros Hi H0 Hb. unfold receiveAll. cbn [receiveAll_loop].
  replace (0 <? bufSize) with true by (symmetry; apply Z.ltb_lt; lia).
  unfold bind, recv. rewrite Hi. cbn [take].
  destruct (memcpy_in_bounds buf 0 [] (Z.of_nat (length (@nil byte))))
    as (buf' & -> & _); cbn [length]; try lia.
  reflexivity.
Qed.

(** ** The dispatcher *)

Lemma take_cases max inb rv bs upd inb' :
  0 < max -> take max inb = (rv, bs, upd, inb') ->
  (rv = -1 /\ bs = [] /\ exists e, upd = Some e) \/
  (rv = Z.of_nat (length bs) /\ rv <= max /\ upd = None /\
   (rv = 0 -> inb' = [])).
Proof.
  intros Hmax. revert rv bs upd inb'.
  induction inb as [|c inb IH]; intros rv bs upd inb' Ht.
  - injection Ht as <- <- <- <-. right. splits; auto; cbn; lia.
  - destruct c as [[|b d]|e].
    + cbn [take] in Ht. now apply IH.
    + cbn [take] in Ht.
      destruct (Z.leb_spec (Z.of_nat (length (b :: d))) max);
        injection Ht as <- <- <- <-; right.
      * splits; auto. cbn [length]; lia.
      * rewrite length_firstn. splits; auto; lia.
    + injection Ht as <- <- <- <-. left. eauto.
Qed.

Lemma alloca_nonneg n (w : world E) : 0 <= n -> alloca n w = Ret (fresh n) w.
Proof.
  intros. unfold alloca.
  now replace (n <? 0) with false by (symmetry; apply Z.ltb_ge; lia).
Qed.

Lemma load_signed_range n buf off v :
  (0 < n)%nat -> load_signed n buf off = Some v ->
  - 2 ^ (8 * Z.of_nat n - 1) <= v < 2 ^ (8 * Z.of_nat n - 1).
Proof.
  intros Hn. unfold load_signed.
  destruct (load_unsigned n buf off) as [u|] eqn:Hu; [|discriminate].
  apply load_unsigned_range in Hu. cbn [option_map]. intros [= <-].
  unfold wrap_signed. rewrite (Z.mod_small u) by lia.
  assert (2 ^ (8 * Z.of_nat n) = 2 * 2 ^ (8 * Z.of_nat n - 1)) as Hp.
  { rewrite <- Z.pow_succ_r by lia. f_equal. lia. }
  destruct (Z.ltb_spec u (2 ^ (8 * Z.of_nat n - 1))); lia.
Qed.

(** The header of a request has come whole and its payload follows: then
    [serve] hands the dispatcher a buffer that holds exactly the announced
    bytes. *)
Lemma serve_frame fuel (w : world E) hdr inb1 fID bufSize payload inb2 :
  take 8 (inbox w) = (8, hdr, None, inb1) ->
  load_signed 4 hdr 0 = Some fID ->
  load_signed 4 hdr 4 = Some bufSize ->
  0 <= bufSize ->
  pull (Z.to_nat bufSize) inb1 = Some (payload, inb2) ->
  (Z.to_nat bufSize < fuel)%nat ->
  serve fuel w = dispatch fID payload (received inb2 None w).
Proof.
  intros Ht Hop Hlen H0 Hp Hf.
  destruct (take_cases 8 _ _ _ _ _ ltac:(lia) Ht) as [(? & _)|(Hl & _)]; [lia|].
  unfold serve. sizes. change (4 * 2) with 8.
  rewrite (bind_Ret _ _ _ _ _ (alloca_nonneg 8 w ltac:(lia))).
  unfold bind at 1. unfold recv. rewrite Ht.
  change (fresh 8) with ([] ++ fresh 8).
  rewrite memcpy_frontier_all by (rewrite ?length_fresh; cbn; lia).
  cbn [fst snd]. change (8 <=? 0) with false. cbn match.
  rewrite skipn_all2 by (rewrite length_fresh; cbn; lia).
  rewrite app_nil_l, app_nil_r.
  unfold bind at 1. rewrite Hop. cbn [access ret].
  unfold bind at 1. rewrite Hlen. cbn [access ret].
  rewrite (bind_Ret _ _ _ _ _ (alloca_nonneg bufSize _ H0)).
  erewrite bind_Ret; [reflexivity|].
  erewrite receiveAll_reads; eauto.
  - reflexivity.
  - rewrite length_fresh. lia.
Qed.

Lemma dispatch_undefined fID buf (w : world E) :
  fID < 0 \/ 8 < fID ->
  dispatch fID buf w = Ret (-1) (logged (Text undefined_function) w).
Proof.
  intros H. unfold dispatch.
  repeat match goal with
  | |- context [?a =? ?b] =>
      replace (a =? b) with false by (symmetry; apply Z.eqb_neq; lia)
  end.
  reflexivity.
Qed.

Lemma child_after_serve fuel (w w' : world E) :
  serve (S fuel) w = Ret (-1) w' -> child (S fuel) w = Exit 0 (closed w').
Proof.
  intros H. unfold child. cbn [session_loop]. unfold bind. now rewrite H.
Qed.

(** C8 (as amended): a request whose operation number is not one of 0..8
    and whose announced length, read as an [int], is not negative gets, once
    its payload is received, a line on the log and no reply; [serve] returns
    [-1], the session loop ends, the session socket is closed and the child
    exits. *)
Theorem undefined_op_ends_session fuel (w : world E) hdr inb1 fID bufSize
    payload inb2 :
  take 8 (inbox w) = (8, hdr, None, inb1) ->
  load_signed 4 hdr 0 = Some fID ->
  load_signed 4 hdr 4 = Some bufSize ->
  fID < 0 \/ 8 < fID ->
  0 <= bufSize ->
  pull (Z.to_nat bufSize) inb1 = Some (payload, inb2) ->
  (Z.to_nat bufSize <= fuel)%nat ->
  exists w',
    serve (S fuel) w = Ret (-1) w' /\
    stderr w' = stderr w ++ [Text undefined_function] /\
    outbox w' = outbox w /\
    inbox w' = inb2 /\
    child (S fuel) w = Exit 0 (closed w') /\
    sess_open (closed w') = false /\ outbox (closed w') = outbox w.
Proof.
  intros Ht Hop Hlen Hid H0 Hp Hf.
  eexists. split.
  - erewrite serve_frame; eauto; [|lia]. now apply dispatch_undefined.
  - splits; try reflexivity.
    apply child_after_serve.
    erewrite serve_frame; eauto; [|lia]. now apply dispatch_undefined.
Qed.

Lemma take_zero max inb bs upd inb' :
  0 < max -> take max inb = (0, bs, upd, inb') ->
  bs = [] /\ upd = None /\ inb' = [].
Proof.
  intros Hmax Ht.
  destruct (take_cases _ _ _ _ _ _ Hmax Ht) as [(? & _)|(Hl & _ & ? & Hi)]; [lia|].
  destruct bs; [auto|discriminate].
Qed.

(** C9: when the read of the header returns zero because the peer has
    closed, [serve] returns [-1] and has sent nothing; the child closes the
    session socket and exits with status 0; the parent, which never waits
    for the child, goes on with the clients that follow. *)
Theorem peer_closed_ends_session_cleanly fuel (w : world E) bs upd inb' :
  take 8 (inbox w) = (0, bs, upd, inb') ->
  serve fuel w = Ret (-1) (received [] None w) /\
  outbox (received [] None w) = outbox w /\
  stderr (received [] None w) = stderr w /\
  child (S fuel) w = Exit 0 (closed (received [] None w)) /\
  forall queue (parent : world E),
    forked (inbox w) parent = w ->
    exists parent',
      main_loop (S fuel) (Connects (inbox w) :: queue) parent
      = (Exit 0 (closed (received [] None w))
           :: fst (main_loop (S fuel) queue parent'),
         snd (main_loop (S fuel) queue parent')) /\
      env parent' = env parent /\ stderr parent' = stderr parent.
Proof.
  intros Ht.
  destruct (take_zero 8 _ _ _ _ ltac:(lia) Ht) as (-> & -> & ->).
  assert (forall f, serve f w = Ret (-1) (received [] None w)) as Hs.
  { intros f. unfold serve. sizes. change (4 * 2) with 8.
    rewrite (bind_Ret _ _ _ _ _ (alloca_nonneg 8 w ltac:(lia))).
    unfold bind, recv. rewrite Ht. reflexivity. }
  splits; auto.
  - now apply child_after_serve.
  - intros queue parent Hw. eexists. split.
    + cbn [main_loop]. rewrite Hw. rewrite (child_after_serve _ _ _ (Hs _)).
      reflexivity.
    + cbn [env stderr closed lib_step env_after received]. rewrite <- Hw.
      split; reflexivity.
Qed.

End Facts.

(** ** Fields of a buffer *)

Lemma field_firstn l n off k :
  (off + k <= n)%nat -> field (firstn n l) off k = field l off k.
Proof.
  intros H. unfold field.
  rewrite skipn_firstn_comm, firstn_firstn. f_equal. lia.
Qed.

Lemma field_app_l a b off k :
  (off + k <= length a)%nat -> field (a ++ b) off k = field a off k.
Proof.
  intros H. unfold field. rewrite skipn_app, firstn_app, length_skipn.
  replace (k - (length a - off))%nat with 0%nat by lia.
  now rewrite firstn_O, app_nil_r.
Qed.

Lemma field_app_r a b k :
  (k <= length b)%nat -> field (a ++ b) (length a) k = firstn k b.
Proof.
  intros H. unfold field. rewrite skipn_app, skipn_all, Nat.sub_diag. reflexivity.
Qed.

(** The bytes a copy has written. *)
Lemma memcpy_field dst off src n r :
  memcpy dst off src n = Some r ->
  field r (Z.to_nat off) (Z.to_nat n) = firstn (Z.to_nat n) src.
Proof.
  intros H. apply memcpy_Some in H as (? & ? & ? & ? & ->).
  unfold field. rewrite skipn_app, length_firstn.
  rewrite skipn_all2 by (rewrite length_firstn; lia).
  replace (Z.to_nat off - Init.Nat.min (Z.to_nat off) (length dst))%nat with 0%nat by lia.
  cbn [app skipn]. rewrite firstn_app, length_firstn.
  replace (Z.to_nat n - Init.Nat.min (Z.to_nat n) (length src))%nat with 0%nat by lia.
  now rewrite firstn_O, app_nil_r, firstn_firstn, Nat.min_id.
Qed.

(** A copy leaves the bytes below it as they were. *)
Lemma memcpy_field_below dst off src n r o k :
  memcpy dst off src n = Some r ->
  (o + k <= Z.to_nat off)%nat -> field r o k = field dst o k.
Proof.
  intros H Hk. apply memcpy_Some in H as (? & ? & ? & ? & ->).
  rewrite field_app_l by (rewrite length_firstn; lia).
  apply field_firstn. lia.
Qed.

Lemma field_length l off k :
  (off + k <= length l)%nat -> length (field l off k) = k.
Proof. intros. unfold field. rewrite length_firstn, length_skipn. lia. Qed.

Lemma reply_len_rep frame len :
  field frame 0 4 = rep 4 len -> reply_len frame = len mod 2 ^ 32.
Proof. unfold reply_len. intros ->. apply le_combine_split. Qed.

Lemma wrap_signed_mod b z : 0 < b -> wrap_signed b z mod 2 ^ (8 * b) = z mod 2 ^ (8 * b).
Proof.
  intros Hb. unfold wrap_signed.
  assert (0 < 2 ^ (8 * b)) by (apply Z.pow_pos_nonneg; lia).
  destruct (Z.ltb_spec (z mod 2 ^ (8 * b)) (2 ^ (8 * b - 1))).
  - apply Z.mod_mod. lia.
  - rewrite <- (Z.mod_add _ 1) by lia.
    replace (z mod 2 ^ (8 * b) - 2 ^ (8 * b) + 1 * 2 ^ (8 * b)) with (z mod 2 ^ (8 * b)) by lia.
    apply Z.mod_mod. lia.
Qed.

Lemma to_int_mod z : to_int z mod 2 ^ 32 = z mod 2 ^ 32.
Proof. apply (wrap_signed_mod 4). lia. Qed.

Lemma mod32_of_mod64 a b :
  a mod 2 ^ 64 = b mod 2 ^ 64 -> a mod 2 ^ 32 = b mod 2 ^ 32.
Proof.
  intros H.
  rewrite <- (Z.mod_mod_divide a (2 ^ 64) (2 ^ 32)), <- (Z.mod_mod_divide b (2 ^ 64) (2 ^ 32));
    try (exists (2 ^ 32); reflexivity).
  now rewrite H.
Qed.

Lemma to_ssize_t_mod z : to_ssize_t z mod 2 ^ 64 = z mod 2 ^ 64.
Proof. apply (wrap_signed_mod 8). lia. Qed.

Lemma to_size_t_mod z : to_size_t z mod 2 ^ 64 = z mod 2 ^ 64.
Proof. unfold to_size_t, wrap_unsigned. apply Z.mod_mod. discriminate. Qed.

Lemma to_size_t_ssize x c : to_size_t (to_ssize_t x + c) = to_size_t (x + c).
Proof.
  unfold to_size_t, wrap_unsigned. change (2 ^ (8 * 8)) with (2 ^ 64).
  rewrite (Z.add_mod (to_ssize_t x)), (Z.add_mod x) by discriminate.
  now rewrite to_ssize_t_mod.
Qed.

Lemma to_ssize_t_range z : - 2 ^ 63 <= to_ssize_t z < 2 ^ 63.
Proof.
  unfold to_ssize_t, wrap_signed.
  change (2 ^ (8 * 8)) with 18446744073709551616.
  change (2 ^ (8 * 8 - 1)) with 9223372036854775808.
  change (2 ^ 63) with 9223372036854775808.
  pose proof (Z.mod_pos_bound z 18446744073709551616 eq_refl).
  destruct (Z.ltb_spec (z mod 18446744073709551616) 9223372036854775808); lia.
Qed.

(** A signed length whose copy fits the buffer sized from it is not
    negative. *)
Lemma copied_length_nonneg c L :
  - 2 ^ 63 <= L < 2 ^ 63 -> 0 < c < 2 ^ 62 -> 0 <= c + L ->
  c + to_size_t L <= to_size_t (c + 1 + L) -> 0 <= L.
Proof.
  intros HL Hc H0 H. destruct (Z.le_gt_cases 0 L) as [|Hneg]; [assumption|].
  exfalso. unfold to_size_t, wrap_unsigned in H.
  change (2 ^ (8 * 8)) with 18446744073709551616 in H.
  change (2 ^ 63) with 9223372036854775808 in HL.
  change (2 ^ 62) with 4611686018427387904 in Hc.
  rewrite (Z.mod_small (c + 1 + L)) in H by lia.
  rewrite <- (Z.mod_add L 1) in H by lia.
  rewrite Z.mod_small in H; lia.
Qed.

Lemma to_size_t_le z : 0 <= z -> 0 <= to_size_t z <= z.
Proof.
  intros. unfold to_size_t, wrap_unsigned. split.
  - apply Z.mod_pos_bound. reflexivity.
  - apply Z.mod_le; lia.
Qed.

Lemma to_size_t_range z : 0 <= to_size_t z < 2 ^ 64.
Proof. apply Z.mod_pos_bound. reflexivity. Qed.

Lemma same_io_refl {E} (w : world E) : same_io w w.
Proof. repeat split. Qed.

Lemma same_io_trans {E} (w1 w2 w3 : world E) :
  same_io w1 w2 -> same_io w2 w3 -> same_io w1 w3.
Proof. unfold same_io. intuition congruence. Qed.

Lemma same_io_lib {E} upd e (w : world E) : same_io w (lib_step upd e w).
Proof. repeat split. Qed.

Section Inversion.
Context {E : Type} {P : Platform E}.

Lemma access_inv {A} (o : option A) (w w' : world E) a :
  access o w = Ret a w' -> o = Some a /\ w' = w.
Proof. destruct o; cbn; [intros [= -> ->]; auto | discriminate]. Qed.

Lemma check_null_inv p (w w' : world E) b :
  check_null p w = Ret b w' -> p = Some b /\ w' = w.
Proof. destruct p; cbn; [intros [= -> ->]; auto | discriminate]. Qed.

Lemma check_null_Some_inv x (w w' : world E) b :
  check_null (Some x) w = Ret b w' -> b = x /\ w' = w.
Proof. cbn. intros [= -> ->]; auto. Qed.

Lemma deref_Some_inv x (w w' : world E) b :
  deref (Some x) w = Ret b w' -> b = x /\ w' = w.
Proof. cbn. intros [= -> ->]; auto. Qed.

Lemma malloc_inv n (w w' : world E) p :
  malloc n w = Ret p w' ->
  w' = lib_step (snd (fst (os_malloc n (env w)))) (snd (os_malloc n (env w))) w /\
  (p = None \/ p = Some (fresh n)).
Proof.
  unfold malloc, bind, libcall, ret. intros [= <- <-]. split; [reflexivity|].
  destruct (fst (fst _)); auto.
Qed.

Lemma malloc_block_inv n (w w' : world E) b :
  (p <- malloc n ;; check_null p) w = Ret b w' ->
  b = fresh n /\
  w' = lib_step (snd (fst (os_malloc n (env w)))) (snd (os_malloc n (env w))) w.
Proof.
  intros H. apply bind_inv in H as (p & w1 & Hm & Hc).
  apply malloc_inv in Hm as (-> & Hp). apply check_null_inv in Hc as (-> & ->).
  destruct Hp as [Hp|Hp]; [discriminate|]. injection Hp as <-. auto.
Qed.

Lemma alloca_inv n (w w' : world E) b :
  alloca n w = Ret b w' -> b = fresh n /\ w' = w /\ 0 <= n.
Proof.
  unfold alloca. destruct (Z.ltb_spec n 0); [discriminate|].
  intros [= <- <-]. auto.
Qed.

Lemma send_inv buf n (w w' : world E) r :
  send buf n w = Ret r w' ->
  w' = sent (firstn (Z.to_nat n) buf) w /\ 0 <= n <= Z.of_nat (length buf).
Proof.
  unfold send. destruct (in_bounds buf 0 n) eqn:Hb; [|discriminate].
  apply in_bounds_true in Hb. intros [= <- <-]. split; [reflexivity|lia].
Qed.

Lemma ret_inv {A} (a b : A) (w w' : world E) :
  ret a w = Ret b w' -> a = b /\ w = w'.
Proof. unfold ret. now intros [= -> ->]. Qed.

Lemma free_inv (w w' : world E) r :
  free w = Ret r w' ->
  w' = lib_step (snd (fst (os_free (env w)))) (snd (os_free (env w))) w.
Proof. unfold free, libcall. now intros [= _ <-]. Qed.

Lemma syscall_inv {A} (f : call E A) (w w' : world E) a :
  syscall f w = Ret a w' ->
  a = fst (fst (f (env w))) /\
  w' = sys_step (snd (fst (f (env w)))) (snd (f (env w))) w.
Proof. unfold syscall. now intros [= <- <-]. Qed.

Lemma get_errno_inv (w w' : world E) e :
  get_errno w = Ret e w' -> e = errno w /\ w' = w.
Proof. unfold get_errno. now intros [= <- <-]. Qed.

End Inversion.

(** One step of a run that returned. *)
Ltac unbind H :=
  let a := fresh "a" in let w1 := fresh "w" in let Hm := fresh "Hm" in
  apply bind_inv in H as (a & w1 & Hm & H);
  first
    [ apply access_inv in Hm as (Hm & ->)
    | apply malloc_inv in Hm as (-> & [-> | ->]);
      [ unfold bind at 1 in H; cbn [check_null deref err fault] in H; discriminate
      | unbind H ]
    | apply check_null_Some_inv in Hm as (-> & ->)
    | apply deref_Some_inv in Hm as (-> & ->)
    | apply alloca_inv in Hm as (-> & -> & Hm)
    | apply send_inv in Hm as (-> & Hm)
    | apply free_inv in Hm as ->
    | apply syscall_inv in Hm as (-> & ->)
    | apply get_errno_inv in Hm as (-> & ->)
    | idtac ];
  cbn [env errno lib_step sys_step sent] in *.


Lemma memcpy_bounds dst off src n r :
  memcpy dst off src n = Some r ->
  length r = length dst /\
  0 <= off /\ 0 <= n /\ off + n <= Z.of_nat (length dst) /\
  n <= Z.of_nat (length src).
Proof.
  intros H. split; [now apply memcpy_length in H|].
  apply memcpy_Some in H. tauto.
Qed.

(** The length of every buffer a copy produced, and the bounds it met. *)
Ltac lengths :=
  repeat match goal with
  | H : memcpy ?d _ _ _ = Some ?r |- _ =>
      lazymatch goal with
      | _ : length r = length d /\ _ |- _ => fail
      | _ => pose proof (memcpy_bounds _ _ _ _ _ H)
      end
  end.

(** What a field of the reply holds, from the copies that built it. *)
Ltac field_is H :=
  let F := fresh "F" in
  pose proof (memcpy_field _ _ _ _ _ H) as F;
  simpl (Z.to_nat _) in F;
  rewrite ?firstn_all2 in F by (rewrite length_rep; lia).

Ltac below H := rewrite (memcpy_field_below _ _ _ _ _ _ _ H) by (simpl; lia).

Section Handlers.
Context {E : Type} {P : Platform E}.

Lemma to_size_t_sub4 x : (to_size_t x - 4) mod 2 ^ 32 = (x - 4) mod 2 ^ 32.
Proof.
  unfold to_size_t, wrap_unsigned. change (2 ^ (8 * 8)) with (2 ^ 32 * 2 ^ 32).
  rewrite (Z.mod_eq x (2 ^ 32 * 2 ^ 32)) by lia.
  replace (x - 2 ^ 32 * 2 ^ 32 * (x / (2 ^ 32 * 2 ^ 32)) - 4)
    with (x - 4 + (- 2 ^ 32 * (x / (2 ^ 32 * 2 ^ 32))) * 2 ^ 32) by ring.
  apply Z.mod_add. lia.
Qed.

Ltac chase :=
  rewrite ?field_firstn by lia;
  repeat match goal with
  | H : memcpy _ _ _ _ = Some ?r |- context [field ?r _ _] =>
      rewrite (memcpy_field_below _ _ _ _ _ _ _ H) by lia
  end;
  match goal with
  | H : memcpy _ _ ?src ?n = Some ?r |- context [field ?r ?o ?k] =>
      let F := fresh "F" in
      assert (field r o k = firstn (Z.to_nat n) src) as F
        by exact (memcpy_field _ _ _ _ _ H);
      rewrite ?firstn_all2 in F by (rewrite length_rep; lia)
  end.

Ltac errno_same HM HF F := rewrite ?HM, ?HF in F; rewrite ?HM, ?HF; exact F.

Ltac open_reply :=
  lengths; rewrite ?length_fresh in *;
  unfold replied; cbn [outbox returned inbox stderr errno env lib_step sys_step sent];
  eexists _, _; splits; try reflexivity.

Lemma serveClose_replied buf (w w' : world E) :
  serveClose buf w = Ret tt w' -> replied 8 w w'.
Proof.
  intros H. unfold serveClose in H. sizes.
  repeat unbind H. apply free_inv in H as ->. open_reply.
  - intros [HM _]. chase. rewrite HM in F. exact F.
  - erewrite reply_len_rep by (chase; exact F).
    rewrite length_firstn. f_equal. lia.
Qed.

Lemma serveOpen_replied buf (w w' : world E) :
  serveOpen buf w = Ret tt w' -> replied 8 w w'.
Proof.
  intros H. unfold serveOpen in H. sizes.
  repeat unbind H. apply free_inv in H as ->. open_reply.
  - intros [HM HF]. chase. cbn [errno lib_step sys_step] in F.
    rewrite HM, HF in F. exact F.
  - erewrite reply_len_rep by (chase; exact F).
    rewrite length_firstn. f_equal. lia.
Qed.

Lemma serveUnlink_replied buf (w w' : world E) :
  serveUnlink buf w = Ret tt w' -> replied 8 w w'.
Proof.
  intros H. unfold serveUnlink in H. sizes.
  repeat unbind H. apply free_inv in H as ->. open_reply.
  - intros [HM HF]. chase. cbn [errno lib_step sys_step] in F.
    rewrite HM in F. exact F.
  - erewrite reply_len_rep by (chase; exact F).
    rewrite length_firstn. f_equal. lia.
Qed.

Lemma serveWrite_replied buf (w w' : world E) :
  serveWrite buf w = Ret tt w' -> replied 12 w w'.
Proof.
  intros H. unfold serveWrite in H. sizes.
  repeat unbind H. apply free_inv in H as ->. open_reply.
  - intros [HM HF]. chase. cbn [errno lib_step sys_step] in F.
    rewrite HM, HF in F. exact F.
  - erewrite reply_len_rep by (chase; exact F).
    rewrite length_firstn. f_equal. lia.
Qed.

Lemma serveLseek_replied buf (w w' : world E) :
  serveLseek buf w = Ret tt w' -> replied 12 w w'.
Proof.
  intros H. unfold serveLseek in H. sizes.
  repeat unbind H. apply free_inv in H as ->. open_reply.
  - intros [HM HF]. chase. cbn [errno lib_step sys_step] in F.
    rewrite HM in F. exact F.
  - erewrite reply_len_rep by (chase; exact F).
    rewrite length_firstn. f_equal. lia.
Qed.

Lemma serveStat_replied buf (w w' : world E) :
  serveStat buf w = Ret tt w' -> replied 8 w w'.
Proof.
  intros H. unfold serveStat in H. sizes.
  repeat unbind H. apply free_inv in H as ->. open_reply.
  - intros [HM HF]. chase. rewrite ?HM, ?HF in F. rewrite ?HM, ?HF. exact F.
  - erewrite reply_len_rep by (chase; exact F).
    rewrite length_firstn, to_int_mod.
    assert (Z.of_nat (length a5) = to_size_t (4 * 3 + sizeof_stat)) as Hl.
    { pose proof (to_size_t_range (4 * 3 + sizeof_stat)). lia. }
    replace (Z.of_nat (Init.Nat.min _ _)) with (to_size_t (4 * 3 + sizeof_stat)) by lia.
    rewrite to_size_t_sub4. f_equal. lia.
Qed.

Lemma serveRead_replied buf (w w' : world E) :
  serveRead buf w = Ret tt w' -> replied 12 w w'.
Proof.
  intros H. unfold serveRead in H. sizes.
  do 4 unbind H. unbind H.
  match type of Hm1 with context [filled ?r ?n ?b] =>
    set (res := fst (filled r n b)) in *; set (buff := snd (filled r n b)) in *
  end.
  apply free_inv in H as ->.
  destruct (negb (res =? -1)).
  - repeat unbind Hm1. apply free_inv in Hm1 as ->.
    replace (8 + 4 * 2 + res) with (res + 8 + 4 * 2) in * by lia.
    open_reply.
    + intros [HM HF]. chase. errno_same HM HF F.
    + erewrite reply_len_rep by (chase; exact F).
      rewrite length_firstn, to_int_mod.
      replace (Z.of_nat (Init.Nat.min _ _)) with (to_size_t (res + 8 + 4 * 2)) by lia.
      rewrite to_size_t_sub4. f_equal. lia.
  - repeat unbind Hm1. apply free_inv in Hm1 as ->. open_reply.
    + intros [HM HF]. chase. errno_same HM HF F.
    + erewrite reply_len_rep by (chase; exact F).
      rewrite length_firstn. f_equal. lia.
Qed.

Lemma serveGetdirentries_replied buf (w w' : world E) :
  serveGetdirentries buf w = Ret tt w' -> replied 12 w w'.
Proof.
  intros H. unfold serveGetdirentries in H. sizes.
  do 5 unbind H.
  match type of H with context [filled ?r ?n ?b] =>
    set (res := fst (filled r n b)) in *; set (buff := snd (filled r n b)) in *
  end.
  repeat unbind H. apply free_inv in H as ->.
  replace (8 + 4 * 2 + res) with (res + 4 * 2 + 8) in * by lia.
  open_reply.
  - intros [HM HF]. chase. errno_same HM HF F.
  - erewrite reply_len_rep by (chase; exact F).
    rewrite length_firstn, to_int_mod.
    replace (Z.of_nat (Init.Nat.min _ _)) with (to_size_t (res + 4 * 2 + 8)) by lia.
    rewrite to_size_t_sub4. f_equal. lia.
Qed.

(** *** The serializer touches nothing but the allocator *)

Lemma alloc_only_refl w : alloc_only w w.
Proof. split; [apply same_io_refl | reflexivity]. Qed.

Lemma alloc_only_trans w1 w2 w3 :
  alloc_only w1 w2 -> alloc_only w2 w3 -> alloc_only w1 w3.
Proof.
  intros [S1 E1] [S2 E2]. split; [eapply same_io_trans; eauto|].
  intros K. rewrite E2, E1; auto.
Qed.

Lemma alloc_only_lib u e w0 w :
  alloc_only w0 w -> (allocator_keeps_errno -> u = None) ->
  alloc_only w0 (lib_step u e w).
Proof.
  intros [S0 E0] Hu. split.
  - eapply same_io_trans; [exact S0|apply same_io_lib].
  - intros K. cbn [errno lib_step]. rewrite (Hu K). cbn [new_errno]. auto.
Qed.

(** Worlds reached through allocator calls only. *)
Ltac alloc_chain :=
  repeat (apply alloc_only_lib;
          [|let K := fresh in intros K; destruct K as [? ?]; auto]);
  first [ apply alloc_only_refl
        | assumption
        | (eapply alloc_only_trans; [|eassumption]; alloc_chain) ].

Lemma serializaTreeNode_alloc_only t w s w' :
  serializaTreeNode t w = Ret s w' -> alloc_only w w'.
Proof.
  intros H. unfold serializaTreeNode in H. sizes.
  repeat unbind H. injection H as _ <-. alloc_chain.
Qed.

Lemma serializeTree_children_alloc_only rec k size cs :
  Forall (fun c => forall w s w', rec c w = Ret s w' -> alloc_only w w') cs ->
  forall i buf offset w s w',
    serializeTree_children rec k size cs i buf offset w = Ret s w' ->
    alloc_only w w'.
Proof.
  induction 1 as [|c cs Hc _ IH]; intros i buf offset w s w' H.
  - cbn [serializeTree_children] in H. destruct (i <? k).
    + discriminate.
    + sizes. repeat unbind H. injection H as _ <-. alloc_chain.
  - cbn [serializeTree_children] in H. destruct (i <? k).
    + unbind H. apply Hc in Hm. unbind H.
      do 2 unbind H. apply IH in H.
      eapply alloc_only_trans; [|exact H]. clear H IH.
      destruct (size <? _).
      * unbind Hm0.
        destruct (2 * size <? _); apply malloc_inv in Hm1 as (-> & [-> | ->]);
          try (unfold bind at 1 in Hm0; cbn [check_null err] in Hm0; discriminate);
          repeat unbind Hm0; injection Hm0 as _ <-; alloc_chain.
      * repeat unbind Hm0. injection Hm0 as _ <-. alloc_chain.
    + sizes. repeat unbind H. injection H as _ <-. alloc_chain.
Qed.

Lemma dirtreenode_induction (Q : dirtreenode -> Prop) :
  (forall nm k cs, Forall Q cs -> Q (Node nm k cs)) -> forall t, Q t.
Proof.
  intros step. fix IH 1. intros [nm k cs]. apply step.
  exact ((fix all (cs : list dirtreenode) : Forall Q cs :=
            match cs with
            | [] => Forall_nil Q
            | c :: cs' => Forall_cons c (IH c) (all cs')
            end) cs).
Qed.

Lemma serializeTree_alloc_only t :
  forall w s w', serializeTree t w = Ret s w' -> alloc_only w w'.
Proof.
  induction t as [nm k cs IH] using dirtreenode_induction.
  intros w s w' H. cbn [serializeTree] in H. destruct (k =? 0).
  - now apply serializaTreeNode_alloc_only in H.
  - sizes. unbind H. unbind H. apply serializaTreeNode_alloc_only in Hm.
    do 3 unbind H.
    apply (serializeTree_children_alloc_only _ _ _ _ IH) in H.
    eapply alloc_only_trans; [|exact H]. alloc_chain.
Qed.

Lemma err_code_offset_tree frame :
  field frame 4 4 = rep 4 0 -> err_code_offset 8 frame = 16%nat.
Proof. intros H. unfold err_code_offset. now rewrite H. Qed.

Lemma err_code_offset_null frame :
  field frame 4 4 = rep 4 1 -> err_code_offset 8 frame = 8%nat.
Proof. intros H. unfold err_code_offset. now rewrite H. Qed.

Lemma serveGetdirtree_replied buf (w w' : world E) :
  serveGetdirtree buf w = Ret tt w' ->
  exists frame e,
    outbox w' = outbox w ++ [frame] /\
    returned w' = returned w ++ [e] /\
    inbox w' = inbox w /\ stderr w' = stderr w /\
    (allocator_keeps_errno -> err_code 8 frame = rep 4 e) /\
    reply_len frame = (Z.of_nat (length frame) - 4) mod 2 ^ 32.
Proof.
  intros H. unfold serveGetdirtree in H. sizes.
  do 5 unbind H.
  destruct (fst (fst (os_getdirtree _ _))) as [t|].
  - unbind H. apply serializeTree_alloc_only in Hm3 as [(Hi & Ho & Hs & Hr & _) He].
    cbn [inbox outbox stderr returned errno sys_step] in *.
    repeat unbind H. apply free_inv in H as ->.
    lengths. rewrite ?length_fresh in *.
    cbn [outbox returned inbox stderr errno env lib_step sys_step sent].
    rewrite Ho, Hr, Hi, Hs.
    replace (to_size_t (len a2 + 4 * 3 + 8 + 1))
      with (to_size_t (4 * 3 + 8 + to_ssize_t (len a2) + 1)) in *
      by (transitivity (to_size_t (to_ssize_t (len a2) + 21));
          [f_equal; lia | rewrite to_size_t_ssize; f_equal; lia]).
    assert (0 <= to_ssize_t (len a2)) as HL.
    { apply (copied_length_nonneg 20); try lia.
      - apply to_ssize_t_range.
      - replace (20 + 1 + to_ssize_t (len a2))
          with (4 * 3 + 8 + to_ssize_t (len a2) + 1) by lia. lia. }
    set (n := to_size_t (4 * 3 + 8 + to_ssize_t (len a2) + 1)) in *.
    assert (field (firstn (Z.to_nat n) a8) 4 4 = rep 4 0) as Hres
      by (chase; exact F).
    eexists _, _. splits; try reflexivity.
    + intros K. unfold err_code.
      rewrite err_code_offset_tree by exact Hres.
      chase. rewrite (He K) in F. exact F.
    + erewrite reply_len_rep by (chase; exact F).
      rewrite length_firstn, to_int_mod.
      replace (Z.of_nat (Init.Nat.min _ _)) with n by lia.
      subst n. rewrite to_size_t_sub4. f_equal. lia.
  - repeat unbind H. apply ret_inv in H as (_ & <-). open_reply.
    + intros K. unfold err_code.
      match goal with |- context [err_code_offset 8 ?f] =>
        assert (field f 4 4 = rep 4 1) as Hres by (chase; exact F)
      end.
      rewrite err_code_offset_null by exact Hres.
      chase. exact F.
    + erewrite reply_len_rep by (chase; exact F).
      rewrite length_firstn. f_equal. lia.
Qed.

(** *** The dispatcher *)

Lemma replied_err_code off op (w w' : world E) :
  (forall frame, err_code_offset op frame = off) ->
  replied off w w' ->
  exists frame e,
    outbox w' = outbox w ++ [frame] /\
    returned w' = returned w ++ [e] /\
    inbox w' = inbox w /\ stderr w' = stderr w /\
    (allocator_keeps_errno -> err_code op frame = rep 4 e) /\
    reply_len frame = (Z.of_nat (length frame) - 4) mod 2 ^ 32.
Proof.
  intros Hoff (frame & e & H). exists frame, e.
  unfold err_code. now rewrite Hoff.
Qed.

Lemma then_ret_inv (m : M E unit) (w w' : world E) v :
  (m ;;; ret 0) w = Ret v w' -> v = 0 /\ m w = Ret tt w'.
Proof.
  intros H. apply bind_inv in H as ([] & w1 & Hm & H).
  apply ret_inv in H as (<- & <-). auto.
Qed.

(** Whenever the dispatcher has run a handler to its end, one reply has left:
    its first four bytes are its length less four (modulo 2^32), and under an
    allocator that leaves [errno] alone its error code is [errno] as the
    file-system call returned. *)
Lemma dispatch_replied op buf (w w' : world E) v :
  0 <= op <= 8 -> dispatch op buf w = Ret v w' ->
  v = 0 /\
  exists frame e,
    outbox w' = outbox w ++ [frame] /\
    returned w' = returned w ++ [e] /\
    inbox w' = inbox w /\ stderr w' = stderr w /\
    (allocator_keeps_errno -> err_code op frame = rep 4 e) /\
    reply_len frame = (Z.of_nat (length frame) - 4) mod 2 ^ 32.
Proof.
  intros Hop H.
  assert (op = 0 \/ op = 1 \/ op = 2 \/ op = 3 \/ op = 4 \/ op = 5 \/
          op = 6 \/ op = 7 \/ op = 8) as Hcases by lia.
  unfold dispatch in H.
  repeat destruct Hcases as [->|Hcases]; try subst op; cbn [Z.eqb Pos.eqb] in H;
    apply then_ret_inv in H as (-> & H); (split; [reflexivity|]).
  - apply (replied_err_code 8); [reflexivity|]. now apply serveOpen_replied in H.
  - apply (replied_err_code 8); [reflexivity|]. now apply serveClose_replied in H.
  - apply (replied_err_code 12); [reflexivity|]. now apply serveWrite_replied in H.
  - apply (replied_err_code 12); [reflexivity|]. now apply serveRead_replied in H.
  - apply (replied_err_code 12); [reflexivity|]. now apply serveLseek_replied in H.
  - apply (replied_err_code 8); [reflexivity|]. now apply serveStat_replied in H.
  - apply (replied_err_code 8); [reflexivity|]. now apply serveUnlink_replied in H.
  - apply (replied_err_code 12); [reflexivity|]. now apply serveGetdirentries_replied in H.
  - now apply serveGetdirtree_replied in H.
Qed.
End Handlers.

(** ** The serializer *)

Lemma preorder_length t : Z.of_nat (length (preorder t)) = tree_size t.
Proof.
  induction t as [nm k cs IH] using dirtreenode_induction.
  cbn [preorder tree_size]. rewrite !length_app, !length_rep.
  unfold strlen.
  assert (Z.of_nat (length (flat_map preorder cs))
          = fold_right (fun c acc => tree_size c + acc) 0 cs) as <-.
  { induction IH as [|c cs Hc _ IHcs]; [reflexivity|].
    cbn [flat_map fold_right]. rewrite length_app. lia. }
  lia.
Qed.

Lemma tree_size_pos t : 8 <= tree_size t.
Proof.
  rewrite <- preorder_length. destruct t as [nm k cs]. cbn [preorder].
  rewrite !length_app, !length_rep. lia.
Qed.

Lemma sizes_nonneg cs : 0 <= sizes cs.
Proof.
  induction cs as [|c cs IH]; cbn; [lia|]. pose proof (tree_size_pos c). 
  unfold sizes in IH. lia.
Qed.

(** A copy, at the end of what is written, of the first part of its
    source. *)
Lemma memcpy_frontier_prefix done rest off a b n :
  off = Z.of_nat (length done) -> n = Z.of_nat (length a) ->
  n <= Z.of_nat (length rest) ->
  memcpy (done ++ rest) off (a ++ b) n
  = Some ((done ++ a) ++ skipn (Z.to_nat n) rest).
Proof.
  intros Ho Hn Hr. rewrite memcpy_frontier; try lia.
  - subst n. rewrite Nat2Z.id, firstn_app, Nat.sub_diag, firstn_O, app_nil_r, firstn_all.
    reflexivity.
  - rewrite length_app. lia.
Qed.

Section Serializer.
Context {E : Type} {P : Platform E}.

Lemma bind_assoc {A B C} (m : M E A) (f : A -> M E B) (g : B -> M E C) w :
  bind (bind m f) g w = bind m (fun x => bind (f x) g) w.
Proof. unfold bind. now destruct (m w). Qed.


Ltac run :=
  repeat (progress (rewrite ?bind_assoc;
    cbn [bind ret access fault err libcall syscall malloc check_null deref free
         get_errno fst snd env errno lib_step sys_step sent filled tmp len])).

Ltac len :=
  repeat rewrite ?length_app, ?length_firstn, ?length_skipn, ?length_rep,
    ?length_fresh;
  cbn [length]; lia.

Lemma serializaTreeNode_run t (w : world E) :
  malloc_succeeds -> strlen (name t) < 2 ^ 31 - 8 ->
  exists w',
    serializaTreeNode t w
    = Ret (mkInfo (rep 4 (strlen (name t)) ++ rep 4 (num_subdirs t) ++ name t)
             (strlen (name t) + 8)) w' /\
    alloc_only w w'.
Proof.
  intros HM Hn. unfold serializaTreeNode. sizes.
  assert (0 <= strlen (name t)) as H0 by (unfold strlen; lia).
  rewrite (to_int_small (strlen (name t))) by lia.
  rewrite (to_int_small (strlen (name t) + 4 * 2)) by lia.
  rewrite !to_size_t_small by lia.
  run. rewrite !HM. run.
  change (fresh (strlen (name t) + 4 * 2))
    with ([] ++ fresh (strlen (name t) + 4 * 2)).
  rewrite memcpy_frontier_all by len. run.
  rewrite memcpy_frontier_all by len. run.
  rewrite memcpy_frontier_all by (unfold strlen in *; len). run.
  rewrite skipn_all2 by (unfold strlen in *; len).
  rewrite app_nil_r. cbn [app]. rewrite <- app_assoc.
  rewrite HM. run.
  replace (strlen (name t) + 4 * 2) with (strlen (name t) + 8) by lia.
  eexists. split.
  - reflexivity.
  - split; [|intros [K _]; cbn [errno lib_step]; now rewrite !K].
    repeat split.
Qed.

(** C6 (where the code breaks it): a node that has children and a name of
    more than 192 bytes does not fit the 200 bytes [serializeTree]
    allocates before it copies the node; the copy leaves the buffer. *)
Theorem serializeTree_long_inner_name_faults t (w : world E) :
  malloc_succeeds ->
  num_subdirs t <> 0 ->
  192 < strlen (name t) < 2 ^ 31 - 8 ->
  exists w', serializeTree t w = Fault w' /\ alloc_only w w'.
Proof.
  intros HM Hk Hn. destruct t as [nm k cs]. cbn [serializeTree].
  cbn [num_subdirs name] in *.
  replace (k =? 0) with false by (symmetry; apply Z.eqb_neq; exact Hk).
  sizes. run. rewrite HM. run.
  match goal with |- context [bind (serializaTreeNode ?t) _ ?w0] =>
    destruct (serializaTreeNode_run t w0 HM) as (w1 & Hrun & Ha);
      [cbn [name]; lia|]
  end.
  rewrite (bind_Ret _ _ _ _ _ Hrun). run. cbn [name num_subdirs].
  rewrite to_size_t_small by lia.
  rewrite memcpy_None_dst by (rewrite length_fresh; lia).
  run. eexists. split; [reflexivity|].
  eapply alloc_only_trans; [|exact Ha].
  apply alloc_only_lib; [apply alloc_only_refl|].
  intros [K _]. apply K.
Qed.


Lemma serializeTree_children_run rec k cs :
  malloc_succeeds ->
  Forall (child_serialized rec) cs ->
  forall i done rest offset (w : world E),
    0 <= i -> i + Z.of_nat (length cs) = k ->
    offset = Z.of_nat (length done) ->
    200 <= Z.of_nat (length (done ++ rest)) ->
    offset + sizes cs + 200 < 2 ^ 31 ->
    exists w' rest',
      serializeTree_children rec k 200 cs i (done ++ rest) offset w
      = Ret (mkInfo ((done ++ flat_map preorder cs) ++ rest')
               (offset + sizes cs)) w' /\
      alloc_only w w'.
Proof.
  intros HM Hcs. induction Hcs as [|c cs Hc _ IH];
    intros i done rest offset w Hi Hk Ho Hcap Hsz.
  - cbn [serializeTree_children length] in *.
    replace (i <? k) with false by (symmetry; apply Z.ltb_ge; lia).
    sizes. run. rewrite HM. run.
    exists (lib_step (snd (fst (os_malloc 16 (env w)))) (snd (os_malloc 16 (env w))) w), rest.
    cbn [flat_map sizes fold_right]. rewrite app_nil_r, Z.add_0_r.
    split; [reflexivity|].
    apply alloc_only_lib; [apply alloc_only_refl|]. intros [K _]. apply K.
  - cbn [serializeTree_children length] in *.
    replace (i <? k) with true by (symmetry; apply Z.ltb_lt; lia).
    destruct (Hc w) as (w1 & rest_c & Hrun & Ha1).
    rewrite (bind_Ret _ _ _ _ _ Hrun). run.
    pose proof (tree_size_pos c) as Hc8. pose proof (sizes_nonneg cs) as Hs0.
    pose proof (preorder_length c) as Hpl.
    cbn [sizes fold_right] in Hsz. fold (sizes cs) in Hsz.
    rewrite (to_int_small (offset + tree_size c)) by lia.
    rewrite (to_size_t_small (tree_size c)) by lia.
    destruct (Z.ltb_spec 200 (offset + tree_size c)) as [Hbig|Hsmall].
    + (* the buffer is replaced *)
      rewrite (to_int_small (offset + tree_size c + 200)) by lia.
      rewrite (to_size_t_small (offset + tree_size c + 200)) by lia.
      rewrite (to_size_t_small offset) by lia.
      set (cap := if 2 * 200 <? offset + tree_size c
                  then offset + tree_size c + 200 else 200 * 2).
      assert (offset + tree_size c <= cap /\ 200 <= cap) as Hcapn
        by (subst cap; destruct (Z.ltb_spec (2 * 200) (offset + tree_size c)); lia).
      assert (exists w2,
        (if 2 * 200 <? offset + tree_size c
         then malloc (offset + tree_size c + 200) else malloc (200 * 2)) w1
        = Ret (Some (fresh cap)) w2 /\ alloc_only w1 w2) as (w2 & Hm & Ha2).
      { subst cap. destruct (2 * 200 <? offset + tree_size c);
          unfold malloc; run; rewrite HM; eexists; (split; [reflexivity|]);
          (apply alloc_only_lib; [apply alloc_only_refl|]); intros [K _]; apply K. }
      rewrite bind_assoc, (bind_Ret _ _ _ _ _ Hm). run.
      change (fresh cap) with ([] ++ fresh cap).
      rewrite memcpy_frontier_prefix by len. run.
      rewrite memcpy_frontier_prefix by len. run.
      cbn [app].
      edestruct (IH (i + 1) (done ++ preorder c)) as (w3 & rest' & Hloop & Ha3);
        [| | | | |rewrite Hloop].
      * lia.
      * lia.
      * rewrite length_app. lia.
      * len.
      * lia.
      * exists w3, rest'. cbn [flat_map sizes fold_right]. fold (sizes cs).
        rewrite <- !app_assoc, Z.add_assoc. split; [reflexivity|].
        eapply alloc_only_trans; [|exact Ha3].
        repeat (apply alloc_only_lib; [|intros [? ?]; auto]).
        eapply alloc_only_trans; [exact Ha1|exact Ha2].
    + (* the child fits *)
      rewrite memcpy_frontier_prefix by (try rewrite length_app in Hcap; lia). run.
      edestruct (IH (i + 1) (done ++ preorder c)) as (w3 & rest' & Hloop & Ha3);
        [| | | | |rewrite Hloop].
      * lia.
      * lia.
      * rewrite length_app. lia.
      * rewrite length_app in Hcap. len.
      * lia.
      * exists w3, rest'. cbn [flat_map sizes fold_right]. fold (sizes cs).
        rewrite <- !app_assoc, Z.add_assoc. split; [reflexivity|].
        eapply alloc_only_trans; [|exact Ha3].
        repeat (apply alloc_only_lib; [|intros [? ?]; auto]).
        exact Ha1.
Qed.

Lemma well_formed_children nm k cs :
  well_formed (Node nm k cs) ->
  k = Z.of_nat (length cs) /\ Forall well_formed cs.
Proof.
  cbn [well_formed]. intros [Hk Hcs]. split; [exact Hk|]. clear Hk.
  induction cs as [|c cs IH]; [constructor|].
  cbn [fold_right] in Hcs. constructor; tauto.
Qed.

Lemma inner_names_children limit nm k cs :
  inner_names_within limit (Node nm k cs) ->
  (k <> 0 -> strlen nm <= limit) /\ Forall (inner_names_within limit) cs.
Proof.
  cbn [inner_names_within]. intros [Hk Hcs]. split; [exact Hk|]. clear Hk.
  induction cs as [|c cs IH]; [constructor|].
  cbn [fold_right] in Hcs. constructor; tauto.
Qed.

Lemma sizes_bound cs : Forall (fun c => tree_size c <= sizes cs) cs.
Proof.
  induction cs as [|c cs IH]; constructor.
  - cbn [sizes fold_right]. pose proof (sizes_nonneg cs). unfold sizes in *. lia.
  - eapply Forall_impl; [|exact IH]. cbn beta. intros a Ha.
    cbn [sizes fold_right]. pose proof (tree_size_pos c). unfold sizes in *. lia.
Qed.

(** C6 (where the code keeps it): for a tree as [getdirtree] builds it,
    whose nodes with children have names of at most 192 bytes,
    [serializeTree] returns the preorder serialization at the start of its
    block, and its length, the sum over the nodes of 8 plus the length of
    the name. *)
Lemma serializeTree_preorder t :
  malloc_succeeds ->
  well_formed t -> inner_names_within 192 t -> tree_size t + 200 < 2 ^ 31 ->
  forall w : world E, exists w' rest,
    serializeTree t w = Ret (mkInfo (preorder t ++ rest) (tree_size t)) w' /\
    alloc_only w w'.
Proof.
  intros HM. induction t as [nm k cs IH] using dirtreenode_induction.
  intros Hwf Hnames Hsize w.
  apply well_formed_children in Hwf as (Hk & Hwfs).
  apply inner_names_children in Hnames as (Hnm & Hnames).
  cbn [tree_size] in Hsize. fold (sizes cs) in Hsize.
  pose proof (sizes_nonneg cs) as Hs0.
  assert (0 <= strlen nm) as Hn0 by (unfold strlen; lia).
  cbn [serializeTree]. destruct (Z.eqb_spec k 0) as [Hz|Hnz].
  - destruct cs; [|cbn [length] in Hk; lia].
    destruct (serializaTreeNode_run (Node nm k []) w HM) as (w' & Hrun & Ha);
      [cbn [name]; lia|].
    exists w', []. rewrite Hrun. cbn [name num_subdirs preorder tree_size flat_map fold_right].
    rewrite !app_nil_r. split; [|exact Ha]. do 2 f_equal. lia.
  - sizes. run. rewrite HM. run.
    match goal with |- context [bind (serializaTreeNode ?t) _ ?w0] =>
      destruct (serializaTreeNode_run t w0 HM) as (w1 & Hrun & Ha1);
        [cbn [name]; lia|]
    end.
    rewrite (bind_Ret _ _ _ _ _ Hrun). run. cbn [name num_subdirs].
    rewrite to_size_t_small by lia.
    change (fresh 200) with ([] ++ fresh 200).
    rewrite memcpy_frontier_all
      by (rewrite ?length_app, ?length_rep, ?length_fresh; unfold strlen in *;
          cbn [length]; lia).
    run. cbn [app].
    edestruct (serializeTree_children_run serializeTree k cs HM)
      with (i := 0) (done := rep 4 (strlen nm) ++ rep 4 k ++ nm)
      as (w3 & rest' & Hloop & Ha3); [| | | | | |rewrite Hloop].
    + (* every child *)
      pose proof (sizes_bound cs) as Hb.
      rewrite Forall_forall in IH, Hwfs, Hnames, Hb |- *.
      intros c Hin w0. apply IH; auto.
      specialize (Hb c Hin). lia.
    + lia.
    + lia.
    + rewrite !length_app, !length_rep. unfold strlen. lia.
    + rewrite ?length_app, ?length_skipn, ?length_rep, ?length_fresh.
      unfold strlen in *. lia.
    + lia.
    + exists w3, rest'. cbn [preorder tree_size]. fold (sizes cs).
      rewrite <- !app_assoc. split.
      * do 2 f_equal. lia.
      * eapply alloc_only_trans; [|exact Ha3].
        repeat (apply alloc_only_lib; [|intros [? ?]; auto]).
        eapply alloc_only_trans; [|exact Ha1].
        apply alloc_only_lib; [apply alloc_only_refl|]. intros [K _]. apply K.
Qed.

(** ** The replies of [read] and [getdirtree] *)

Lemma send_all buf n (w : world E) :
  n = Z.of_nat (length buf) -> send buf n w = Ret n (sent buf w).
Proof.
  intros ->. unfold send. rewrite Nat2Z.id, firstn_all.
  replace (in_bounds _ _ _) with true; [reflexivity|].
  symmetry. apply in_bounds_true. lia.
Qed.

Lemma free_Ret (w : world E) :
  free w = Ret tt (lib_step (snd (fst (os_free (env w)))) (snd (os_free (env w))) w).
Proof. unfold free, libcall. now destruct (fst (fst (os_free (env w)))). Qed.

Lemma rep_to_int z : rep 4 (to_int z) = rep 4 z.
Proof.
  unfold rep. rewrite (le_split_mod (to_int z)), (le_split_mod z).
  f_equal. apply to_int_mod.
Qed.

Lemma overwrite_prefix obj d :
  (length d <= length obj)%nat -> overwrite obj d = d ++ skipn (length d) obj.
Proof.
  intros H. unfold overwrite. apply firstn_all2.
  rewrite length_app, length_skipn. lia.
Qed.

(** C4: the reply of [read].  When the call returns [result >= 0] the reply
    is the result on eight bytes, the error code and exactly [result] bytes,
    those the call stored; when it returns -1 the reply is the result and
    the error code, with no data. *)
Theorem serveRead_reply buf (w : world E) fildes nbyte :
  malloc_succeeds ->
  load_signed 4 buf 0 = Some fildes ->
  load_unsigned 8 buf 4 = Some nbyte ->
  nbyte < 2 ^ 63 ->
  exists w' e,
    serveRead buf w = Ret tt w' /\
    outbox w' = outbox w ++
      [match fst (fst (os_read fildes nbyte (snd (os_malloc nbyte (env w))))) with
       | Some d =>
           let data := firstn (Z.to_nat nbyte) d in
           let result := Z.of_nat (length data) in
           rep 4 (result + 12) ++ rep 8 result ++ rep 4 e ++ data
       | None => rep 4 12 ++ rep 8 (-1) ++ rep 4 e
       end].
Proof.
  intros HM Hfd Hn Hmax.
  pose proof (load_unsigned_range _ _ _ _ Hn) as Hr.
  unfold serveRead. sizes. rewrite Hfd. run. rewrite Hn. run.
  rewrite HM. run.
  destruct (fst (fst (os_read fildes nbyte _))) as [d|]; cbn [filled fst snd].
  - set (data := firstn (Z.to_nat nbyte) d).
    assert (Z.of_nat (length data) <= nbyte) as Hd
      by (subst data; rewrite length_firstn; lia).
    replace (Z.of_nat (length data) =? -1) with false
      by (symmetry; apply Z.eqb_neq; lia).
    cbn [negb]. rewrite !to_size_t_small by lia. run.
    rewrite HM. run.
    rewrite overwrite_prefix by (rewrite length_fresh; lia).
    change (fresh (Z.of_nat (length data) + 8 + 4 * 2))
      with ([] ++ fresh (Z.of_nat (length data) + 8 + 4 * 2)).
    rewrite memcpy_frontier_all by len. run.
    rewrite memcpy_frontier_all by len. run.
    rewrite memcpy_frontier_all by len. run.
    rewrite memcpy_frontier_prefix by len. run.
    rewrite skipn_all2 by len. rewrite app_nil_r. cbn [app].
    erewrite bind_Ret by (apply send_all; len). run.
    rewrite !free_Ret. cbv zeta.
    eexists _, _. split; [reflexivity|].
    cbn [outbox lib_step sent sys_step]. rewrite rep_to_int, <- !app_assoc.
    do 3 f_equal. f_equal. lia.
  - change (-1 =? -1) with true. cbn [negb]. run. rewrite HM. run.
    change (fresh (8 + 2 * 4)) with ([] ++ fresh 16).
    rewrite memcpy_frontier_all by len. run.
    rewrite memcpy_frontier_all by len. run.
    rewrite memcpy_frontier_all by len. run.
    rewrite skipn_all2 by len. rewrite app_nil_r. cbn [app].
    erewrite bind_Ret by (apply send_all; len). run.
    rewrite !free_Ret.
    eexists _, _. split; [reflexivity|].
    cbn [outbox lib_step sent sys_step]. rewrite <- !app_assoc. reflexivity.
Qed.

(** C5 (where the code keeps it): the reply of [getdirtree].  When the
    call returns [NULL] the reply is the result 1 and the error code.  When
    it returns a tree (as [getdirtree] builds it, with names of at most 192
    bytes on the nodes that have children) the reply is the result 0,
    [tree_len] on eight bytes, the error code after it, the [tree_len] bytes
    of the preorder serialization and one NUL byte. *)
Theorem serveGetdirtree_reply buf (w : world E) n :
  malloc_succeeds ->
  load_signed 4 buf 0 = Some n ->
  0 <= n < 2 ^ 31 - 1 ->
  n + 4 <= Z.of_nat (length buf) ->
  let path := c_string (firstn (Z.to_nat n) (ptr_add buf 4) ++ [Byte.x00]) in
  (fst (fst (os_getdirtree path (env w))) = None ->
   exists w' e,
     serveGetdirtree buf w = Ret tt w' /\
     returned w' = returned w ++ [e] /\
     outbox w' = outbox w ++ [rep 4 8 ++ rep 4 1 ++ rep 4 e]) /\
  (forall t,
     fst (fst (os_getdirtree path (env w))) = Some t ->
     well_formed t -> inner_names_within 192 t ->
     tree_size t + 200 < 2 ^ 31 ->
     exists w' e,
       serveGetdirtree buf w = Ret tt w' /\
       Z.of_nat (length (preorder t)) = tree_size t /\
       outbox w' = outbox w ++
         [rep 4 (tree_size t + 17) ++ rep 4 0 ++ rep 8 (tree_size t)
            ++ rep 4 e ++ preorder t ++ [Byte.x00]]).
Proof.
  intros HM Hn Hr Hlen path.
  assert (forall k : option dirtreenode -> M E unit,
    (n0 <- access (load_signed 4 buf 0) ;;
     p <- alloca (to_int (n0 + 1)) ;;
     p <- access (memcpy p 0 (ptr_add buf sizeof_int) (to_size_t n0)) ;;
     p <- access (memcpy p n0 [Byte.x00] 1) ;;
     t <- syscall (os_getdirtree (c_string p)) ;; k t) w
    = k (fst (fst (os_getdirtree path (env w))))
        (sys_step (snd (fst (os_getdirtree path (env w))))
           (snd (os_getdirtree path (env w))) w)) as Hpre.
  { intros k. sizes. rewrite Hn. run.
    rewrite (to_int_small (n + 1)) by lia.
    rewrite (bind_Ret _ _ _ _ _ (alloca_nonneg (n + 1) w ltac:(lia))).
    rewrite (to_size_t_small n) by lia.
    change (fresh (n + 1)) with ([] ++ fresh (n + 1)).
    rewrite memcpy_frontier
      by (unfold ptr_add; rewrite ?length_skipn, ?length_fresh; cbn [length]; lia).
    run.
    rewrite memcpy_frontier_all
      by (unfold ptr_add; rewrite ?length_app, ?length_firstn, ?length_skipn,
            ?length_fresh; cbn [length]; lia).
    run.
    rewrite skipn_all2
      by (rewrite ?length_skipn, ?length_fresh; lia).
    rewrite app_nil_r. cbn [app]. reflexivity. }
  unfold serveGetdirtree. split.
  - intros Hnull. rewrite Hpre, Hnull. sizes.
    erewrite bind_Ret by (apply alloca_nonneg; lia).
    change (fresh (4 * 3)) with ([] ++ fresh 12).
    rewrite memcpy_frontier_all by len. run.
    rewrite memcpy_frontier_all by len. run.
    rewrite memcpy_frontier_all by len. run.
    rewrite skipn_all2 by len. rewrite app_nil_r. cbn [app].
    erewrite bind_Ret by (apply send_all; len). run.
    eexists _, _. split; [reflexivity|]. cbn [returned outbox sent sys_step].
    rewrite <- !app_assoc. split; reflexivity.
  - intros t Ht Hwf Hnames Hsize. rewrite Hpre, Ht.
    edestruct (serializeTree_preorder t HM Hwf Hnames Hsize) as (w2 & rest & Hser & Ha).
    rewrite (bind_Ret _ _ _ _ _ Hser). run. sizes.
    pose proof (tree_size_pos t) as H8. pose proof (preorder_length t) as Hpl.
    rewrite (to_ssize_t_small (tree_size t)) by lia.
    rewrite !to_size_t_small by lia.
    rewrite (to_int_small (4 * 2 + 8 + tree_size t + 1)) by lia.
    erewrite bind_Ret by (apply alloca_nonneg; lia).
    change (fresh (4 * 3 + 8 + tree_size t + 1))
      with ([] ++ fresh (4 * 3 + 8 + tree_size t + 1)).
    rewrite memcpy_frontier_all by len. run.
    rewrite memcpy_frontier_all by len. run.
    rewrite memcpy_frontier_all by len. run.
    rewrite memcpy_frontier_all by len. run.
    rewrite memcpy_frontier_prefix by len. run.
    rewrite memcpy_frontier_all by len. run.
    rewrite skipn_all2 by len. rewrite app_nil_r. cbn [app].
    erewrite bind_Ret by (apply send_all; len). run.
    destruct Ha as ((_ & Ho & _) & _).
    rewrite free_Ret.
    eexists _, _. split; [reflexivity|]. split; [exact Hpl|].
    cbn [outbox lib_step sent]. rewrite Ho. cbn [outbox sys_step].
    rewrite <- !app_assoc. do 3 f_equal. f_equal. lia.
Qed.

(** The call of [getdirtree] that [serveGetdirtree] makes, and what
    follows it. *)
Lemma serveGetdirtree_calls buf (w : world E) n :
  load_signed 4 buf 0 = Some n ->
  0 <= n < 2 ^ 31 - 1 ->
  n + 4 <= Z.of_nat (length buf) ->
  let path := c_string (firstn (Z.to_nat n) (ptr_add buf 4) ++ [Byte.x00]) in
  forall k : option dirtreenode -> M E unit,
    (n0 <- access (load_signed 4 buf 0) ;;
     p <- alloca (to_int (n0 + 1)) ;;
     p <- access (memcpy p 0 (ptr_add buf sizeof_int) (to_size_t n0)) ;;
     p <- access (memcpy p n0 [Byte.x00] 1) ;;
     t <- syscall (os_getdirtree (c_string p)) ;; k t) w
    = k (fst (fst (os_getdirtree path (env w))))
        (sys_step (snd (fst (os_getdirtree path (env w))))
           (snd (os_getdirtree path (env w))) w).
Proof.
  intros Hn Hr Hlen path k. sizes. rewrite Hn. run.
  rewrite (to_int_small (n + 1)) by lia.
  rewrite (bind_Ret _ _ _ _ _ (alloca_nonneg (n + 1) w ltac:(lia))).
  rewrite (to_size_t_small n) by lia.
  change (fresh (n + 1)) with ([] ++ fresh (n + 1)).
  rewrite memcpy_frontier
    by (unfold ptr_add; rewrite ?length_skipn, ?length_fresh; cbn [length]; lia).
  run.
  rewrite memcpy_frontier_all
    by (unfold ptr_add; rewrite ?length_app, ?length_firstn, ?length_skipn,
          ?length_fresh; cbn [length]; lia).
  run.
  rewrite skipn_all2
    by (rewrite ?length_skipn, ?length_fresh; lia).
  rewrite app_nil_r. cbn [app]. reflexivity.
Qed.

(** C5 (where the code breaks it): when [getdirtree] returns the tree of a
    directory that has entries and a name of more than 192 bytes, the
    request gets no reply: the call is made, the serializer leaves its 200
    bytes, and [serveGetdirtree] does not return. *)
Theorem serveGetdirtree_long_name_no_reply buf (w : world E) n t :
  malloc_succeeds ->
  load_signed 4 buf 0 = Some n ->
  0 <= n < 2 ^ 31 - 1 ->
  n + 4 <= Z.of_nat (length buf) ->
  let path := c_string (firstn (Z.to_nat n) (ptr_add buf 4) ++ [Byte.x00]) in
  fst (fst (os_getdirtree path (env w))) = Some t ->
  num_subdirs t <> 0 ->
  192 < strlen (name t) < 2 ^ 31 - 8 ->
  exists w' e,
    serveGetdirtree buf w = Fault w' /\
    returned w' = returned w ++ [e] /\
    outbox w' = outbox w.
Proof.
  intros HM Hn Hr Hlen path Ht Hk Hnm.
  unfold serveGetdirtree.
  rewrite (serveGetdirtree_calls buf w n Hn Hr Hlen). fold path. rewrite Ht.
  destruct t as [nm k cs]. cbn [num_subdirs name] in Hk, Hnm.
  unfold bind at 1. cbn [serializeTree].
  replace (k =? 0) with false by (symmetry; apply Z.eqb_neq; exact Hk).
  sizes. run. rewrite HM. run.
  match goal with |- context [bind (serializaTreeNode ?t) _ ?w0] =>
    destruct (serializaTreeNode_run t w0 HM) as (w1 & Hrun & Ha);
      [cbn [name]; lia|]
  end.
  rewrite (bind_Ret _ _ _ _ _ Hrun). run. cbn [name num_subdirs].
  rewrite to_size_t_small by lia.
  rewrite memcpy_None_dst by (rewrite length_fresh; lia).
  run. destruct Ha as ((_ & Ho & _ & Hret & _) & _).
  eexists _, _. split; [reflexivity|].
  rewrite Ho, Hret. cbn [returned outbox lib_step sys_step]. split; reflexivity.
Qed.
End Serializer.

(** ** The claims of the specification *)

Section Claims.
Context {E : Type} {P : Platform E}.

(** C2 (as amended): for every operation, when [malloc] and [free] leave
    [errno] alone, the error code of the reply is [errno] as it stood when
    the file-system call returned. *)
Theorem reply_err_code_is_errno_of_call op buf (w w' : world E) v :
  allocator_keeps_errno ->
  0 <= op <= 8 ->
  dispatch op buf w = Ret v w' ->
  exists frame e,
    outbox w' = outbox w ++ [frame] /\
    returned w' = returned w ++ [e] /\
    err_code op frame = rep 4 e.
Proof.
  intros K Hop H.
  destruct (dispatch_replied op buf w w' v Hop H)
    as (_ & frame & e & Ho & Hr & _ & _ & He & _).
  exists frame, e. auto.
Qed.

Ltac run :=
  cbn [bind ret access fault err libcall syscall malloc check_null deref free
       get_errno fst snd env errno lib_step sys_step sent filled].

Lemma serveGetdirentries_failure_run buf (w : world E) fd nbyte basep :
  load_signed 4 buf 0 = Some fd ->
  load_unsigned 8 buf 4 = Some nbyte ->
  load_signed 8 buf 12 = Some basep ->
  fst (fst (os_getdirentries fd nbyte basep (env w))) = None ->
  let w1 := sys_step (snd (fst (os_getdirentries fd nbyte basep (env w))))
              (snd (os_getdirentries fd nbyte basep (env w))) w in
  let w2 := lib_step (snd (fst (os_malloc 15 (env w1))))
              (snd (os_malloc 15 (env w1))) w1 in
  serveGetdirentries buf w =
  if fst (fst (os_malloc 15 (env w1))) then Fault w2
  else Exit 1 (logged (ErrMsg (errno w2)) w2).
Proof.
  intros Hfd Hn Hb Hfail w1 w2. unfold serveGetdirentries. sizes.
  change (4 + 8) with 12.
  run. rewrite Hfd. run. rewrite Hn. run. rewrite Hb. run.
  pose proof (load_unsigned_range _ _ _ _ Hn) as Hr.
  rewrite (bind_Ret _ _ _ _ _ (alloca_nonneg nbyte w ltac:(lia))).
  run. rewrite Hfail. run.
  change (to_size_t (-1 + 4 * 2 + 8)) with 15.
  subst w1 w2. cbn [env sys_step].
  destruct (fst (fst (os_malloc 15 _))); run; [|reflexivity].
  destruct (memcpy_in_bounds (fresh 15) 0 (rep 4 (to_int (-1 + 4 + 8))) 4)
    as (r1 & -> & Hl1); rewrite ?length_fresh, ?length_rep; try (cbn; lia).
  run.
  destruct (memcpy_in_bounds r1 4 (rep 8 (-1)) 8)
    as (r2 & -> & Hl2); rewrite ?Hl1, ?length_fresh, ?length_rep; try (cbn; lia).
  run.
  rewrite memcpy_None_dst by (rewrite Hl2, Hl1, length_fresh; cbn; lia).
  reflexivity.
Qed.

(** C7 (what the code does): when [getdirentries] fails, the handler does
    not return and sends nothing: it ends in an access outside the 15 bytes
    of its reply buffer, or in [err(1,0)] when [malloc] fails. *)
Theorem serveGetdirentries_failure_sends_nothing buf (w : world E) fd nbyte basep :
  load_signed 4 buf 0 = Some fd ->
  load_unsigned 8 buf 4 = Some nbyte ->
  load_signed 8 buf 12 = Some basep ->
  fst (fst (os_getdirentries fd nbyte basep (env w))) = None ->
  exists w',
    (serveGetdirentries buf w = Fault w' \/ serveGetdirentries buf w = Exit 1 w') /\
    outbox w' = outbox w /\
    (malloc_succeeds -> serveGetdirentries buf w = Fault w').
Proof.
  intros Hfd Hn Hb Hfail.
  rewrite (serveGetdirentries_failure_run buf w fd nbyte basep Hfd Hn Hb Hfail).
  cbv zeta.
  destruct (fst (fst (os_malloc 15 _))) eqn:Hm; eexists.
  - split; [left; reflexivity|]. split; reflexivity.
  - split; [right; reflexivity|]. split; [reflexivity|].
    intros HM. rewrite HM in Hm. discriminate.
Qed.

(** C1 (where the code breaks it): a complete [getdirentries] request whose
    call fails gets no reply frame at all; [serve] does not return. *)
Theorem serve_getdirentries_failure_no_reply fuel (w : world E) hdr inb1
    bufSize payload inb2 fd nbyte basep :
  take 8 (inbox w) = (8, hdr, None, inb1) ->
  load_signed 4 hdr 0 = Some 7 ->
  load_signed 4 hdr 4 = Some bufSize ->
  0 <= bufSize ->
  pull (Z.to_nat bufSize) inb1 = Some (payload, inb2) ->
  (Z.to_nat bufSize < fuel)%nat ->
  load_signed 4 payload 0 = Some fd ->
  load_unsigned 8 payload 4 = Some nbyte ->
  load_signed 8 payload 12 = Some basep ->
  fst (fst (os_getdirentries fd nbyte basep (env w))) = None ->
  exists w',
    (serve fuel w = Fault w' \/ serve fuel w = Exit 1 w') /\
    outbox w' = outbox w /\
    (malloc_succeeds -> serve fuel w = Fault w').
Proof.
  intros Ht Hop Hlen H0 Hp Hf Hfd Hn Hb Hfail.
  rewrite (serve_frame fuel w hdr inb1 7 bufSize payload inb2) by assumption.
  unfold dispatch. cbn [Z.eqb Pos.eqb]. unfold bind.
  rewrite (serveGetdirentries_failure_run payload _ fd nbyte basep Hfd Hn Hb)
    by exact Hfail.
  cbv zeta. cbn [env received sys_step].
  destruct (fst (fst (os_malloc 15 _))) eqn:Hm; eexists.
  - split; [left; reflexivity|]. split; reflexivity.
  - split; [right; reflexivity|]. split; [reflexivity|].
    intros HM. rewrite HM in Hm. discriminate.
Qed.

(** C1 (where the code keeps it): whenever [serve] returns from a complete
    request of an operation 0..8, it has sent exactly one frame, whose first
    four bytes are its length less four (modulo 2^32). *)
Lemma serve_reply_framed fuel (w w' : world E) hdr inb1 fID bufSize payload
    inb2 v :
  take 8 (inbox w) = (8, hdr, None, inb1) ->
  load_signed 4 hdr 0 = Some fID ->
  load_signed 4 hdr 4 = Some bufSize ->
  0 <= bufSize ->
  pull (Z.to_nat bufSize) inb1 = Some (payload, inb2) ->
  (Z.to_nat bufSize < fuel)%nat ->
  0 <= fID <= 8 ->
  serve fuel w = Ret v w' ->
  v = 0 /\
  exists frame,
    outbox w' = outbox w ++ [frame] /\
    reply_len frame = (Z.of_nat (length frame) - 4) mod 2 ^ 32.
Proof.
  intros Ht Hop Hlen H0 Hp Hf Hid H.
  rewrite (serve_frame fuel w hdr inb1 fID bufSize payload inb2) in H by assumption.
  destruct (dispatch_replied fID payload _ w' v Hid H)
    as (-> & frame & e & Ho & _ & _ & _ & _ & Hl).
  split; [reflexivity|]. exists frame. split; [exact Ho|exact Hl].
Qed.

Lemma pull_length inb : forall k payload inb',
  pull k inb = Some (payload, inb') -> length payload = k.
Proof.
  induction inb as [|c inb IH]; intros k payload inb' H.
  - destruct k; [|discriminate]. now injection H as <- _.
  - destruct k as [|k'].
    + rewrite pull_zero in H. now injection H as <- _.
    + rewrite pull_succ in H by lia. destruct c as [bs|e]; [|discriminate].
      destruct (Nat.leb_spec (length bs) (S k')).
      * destruct (pull (S k' - length bs) inb) as [[more i]|] eqn:Hp; [|discriminate].
        injection H as <- _. rewrite length_app. apply IH in Hp. lia.
      * assert (payload = firstn (S k') bs) as -> by congruence.
        rewrite length_firstn. lia.
Qed.

(** C10 (as amended): for every announced length from 0 to 2^31 - 1, without
    any ceiling, [serve] allocates a buffer of exactly that many bytes,
    reads exactly that many bytes into it and hands it to the dispatcher. *)
Theorem payload_buffer_has_announced_size fuel (w : world E) hdr inb1 fID
    bufSize payload inb2 :
  take 8 (inbox w) = (8, hdr, None, inb1) ->
  load_signed 4 hdr 0 = Some fID ->
  load_signed 4 hdr 4 = Some bufSize ->
  0 <= bufSize ->
  pull (Z.to_nat bufSize) inb1 = Some (payload, inb2) ->
  (Z.to_nat bufSize < fuel)%nat ->
  serve fuel w = dispatch fID payload (received inb2 None w) /\
  Z.of_nat (length payload) = bufSize /\
  bufSize <= 2 ^ 31 - 1.
Proof.
  intros Ht Hop Hlen H0 Hp Hf. splits.
  - now apply serve_frame with (hdr := hdr) (inb1 := inb1) (bufSize := bufSize).
  - apply pull_length in Hp. lia.
  - apply load_signed_range in Hlen; [|lia]. cbn in Hlen. lia.
Qed.
End Claims.


(** * Further properties of the code *)

Ltac exec :=
  repeat (progress (rewrite ?bind_assoc;
    cbn [bind ret access fault err libcall syscall malloc check_null deref free
         get_errno fst snd env errno lib_step sys_step sent filled tmp len])).

Ltac lens :=
  repeat rewrite ?length_app, ?length_firstn, ?length_skipn, ?length_rep,
    ?length_fresh;
  cbn [length]; lia.

(** The reply of a handler that ran to its end. *)
Ltac reply_sent :=
  rewrite ?skipn_all2 by lens; rewrite ?app_nil_r; cbn [app];
  erewrite bind_Ret by (apply send_all; lens); exec;
  rewrite !free_Ret.

Lemma length_overwrite obj d : length (overwrite obj d) = length obj.
Proof.
  unfold overwrite. rewrite length_firstn, length_app, length_skipn. lia.
Qed.

Lemma length_ptr_add (buf : list byte) k :
  length (ptr_add buf k) = (length buf - Z.to_nat k)%nat.
Proof. unfold ptr_add. apply length_skipn. Qed.

Lemma load_unsigned_length n buf off v :
  load_unsigned n buf off = Some v ->
  0 <= off /\ off + Z.of_nat n <= Z.of_nat (length buf).
Proof.
  unfold load_unsigned.
  destruct (in_bounds buf off (Z.of_nat n)) eqn:Hb; [|discriminate].
  apply in_bounds_true in Hb. lia.
Qed.

Lemma load_signed_length n buf off v :
  load_signed n buf off = Some v ->
  0 <= off /\ off + Z.of_nat n <= Z.of_nat (length buf).
Proof.
  unfold load_signed. destruct (load_unsigned n buf off) eqn:Hl; [|discriminate].
  intros _. eapply load_unsigned_length, Hl.
Qed.

Lemma load_unsigned_in_bounds n buf off :
  0 <= off -> off + Z.of_nat n <= Z.of_nat (length buf) ->
  exists v, load_unsigned n buf off = Some v.
Proof.
  intros Ho Hl. unfold load_unsigned.
  replace (in_bounds buf off (Z.of_nat n)) with true
    by (symmetry; apply in_bounds_true; lia).
  eexists. reflexivity.
Qed.

Lemma load_signed_in_bounds n buf off :
  0 <= off -> off + Z.of_nat n <= Z.of_nat (length buf) ->
  exists v, load_signed n buf off = Some v.
Proof.
  intros Ho Hl. unfold load_signed.
  destruct (load_unsigned_in_bounds n buf off Ho Hl) as (v & ->).
  eexists. reflexivity.
Qed.

(** ** The replies of the other handlers *)

Section Replies.
Context {E : Type} {P : Platform E}.

Lemma keeps_malloc (K : allocator_keeps_errno) n e x :
  new_errno (snd (fst (os_malloc n e))) x = x.
Proof. destruct K as [K _]. now rewrite K. Qed.

Lemma keeps_free (K : allocator_keeps_errno) e x :
  new_errno (snd (fst (os_free e))) x = x.
Proof. destruct K as [_ K]. now rewrite K. Qed.

(** The path a handler hands to the file system: [n] bytes of the payload
    from offset [off], copied into [n + 1] bytes and closed by a NUL. *)
Lemma path_copied (buf : list byte) off n :
  0 <= n -> 0 <= off -> off + n <= Z.of_nat (length buf) ->
  exists p,
    memcpy (fresh (n + 1)) 0 (ptr_add buf off) n = Some p /\
    memcpy p n [Byte.x00] 1
    = Some (firstn (Z.to_nat n) (ptr_add buf off) ++ [Byte.x00]).
Proof.
  intros Hn Ho Hl. eexists. split.
  - change (fresh (n + 1)) with ([] ++ fresh (n + 1)).
    apply memcpy_frontier;
      unfold ptr_add; rewrite ?length_skipn, ?length_fresh; cbn [length]; lia.
  - cbn [app]. rewrite memcpy_frontier_all
      by (unfold ptr_add; rewrite ?length_app, ?length_firstn, ?length_skipn,
            ?length_fresh; cbn [length]; lia).
    rewrite skipn_all2 by (rewrite ?length_skipn, ?length_fresh; lia).
    now rewrite app_nil_r.
Qed.

(** X1: the reply of [open].  For a payload that holds the flags, the
    mode, the length of the path and the path, [serveOpen] calls [open]
    once, on the path cut at its first NUL, and sends twelve bytes: the
    length 8, the result of the call, the error code. *)
Theorem serveOpen_reply buf (w : world E) flag m pathLen :
  malloc_succeeds ->
  load_signed 4 buf 0 = Some flag ->
  load_unsigned 4 buf 4 = Some m ->
  load_unsigned 8 buf 8 = Some pathLen ->
  16 + pathLen <= Z.of_nat (length buf) < 2 ^ 31 ->
  let path := c_string (firstn (Z.to_nat pathLen) (ptr_add buf 16) ++ [Byte.x00]) in
  let r := os_open path flag m (snd (os_malloc (pathLen + 1) (env w))) in
  exists w' c e,
    serveOpen buf w = Ret tt w' /\
    returned w' = returned w ++ [c] /\
    outbox w' = outbox w ++ [rep 4 8 ++ rep 4 (fst (fst r)) ++ rep 4 e] /\
    (allocator_keeps_errno -> c = new_errno (snd (fst r)) (errno w) /\ e = c).
Proof.
  intros HM Hf Hm Hp Hl path r.
  pose proof (load_unsigned_range _ _ _ _ Hp) as Hr.
  unfold serveOpen. sizes. change (4 + 4) with 8. change (8 + 8) with 16.
  rewrite Hf. exec. rewrite Hm. exec. rewrite Hp. exec.
  rewrite (to_size_t_small (pathLen + 1)) by lia.
  rewrite HM. exec.
  destruct (path_copied buf 16 pathLen) as (p & -> & Hz); try lia. exec.
  rewrite Hz. exec. rewrite HM. exec.
  change (fresh (4 * 3)) with ([] ++ fresh 12).
  rewrite memcpy_frontier_all by lens. exec.
  rewrite memcpy_frontier_all by lens. exec.
  rewrite memcpy_frontier_all by lens. exec.
  reply_sent.
  eexists _, _, _. split; [reflexivity|].
  cbn [returned outbox lib_step sent sys_step errno].
  rewrite <- !app_assoc. splits; try reflexivity.
  intros K. now rewrite ?(keeps_malloc K), ?(keeps_free K).
Qed.

(** X2: the reply of [close].  [serveClose] calls [close] on the
    descriptor of the payload and sends twelve bytes: the length 8, the
    result, the error code. *)
Theorem serveClose_reply buf (w : world E) fd :
  malloc_succeeds ->
  load_signed 4 buf 0 = Some fd ->
  let r := os_close fd (env w) in
  exists w' c e,
    serveClose buf w = Ret tt w' /\
    returned w' = returned w ++ [c] /\
    outbox w' = outbox w ++ [rep 4 8 ++ rep 4 (fst (fst r)) ++ rep 4 e] /\
    c = new_errno (snd (fst r)) (errno w) /\
    (allocator_keeps_errno -> e = c).
Proof.
  intros HM Hfd r. unfold serveClose. sizes. rewrite Hfd. exec.
  rewrite HM. exec.
  change (fresh (4 * 3)) with ([] ++ fresh 12).
  rewrite memcpy_frontier_all by lens. exec.
  rewrite memcpy_frontier_all by lens. exec.
  rewrite memcpy_frontier_all by lens. exec.
  reply_sent.
  eexists _, _, _. split; [reflexivity|].
  cbn [returned outbox lib_step sent sys_step errno].
  rewrite <- !app_assoc. splits; try reflexivity.
  intros K. now rewrite ?(keeps_malloc K), ?(keeps_free K).
Qed.

(** X3: the reply of [write].  [serveWrite] hands to [write] the [nbyte]
    bytes that follow the two fixed fields and sends sixteen bytes: the
    length 12, the result on eight bytes, the error code. *)
Theorem serveWrite_reply buf (w : world E) fildes nbyte :
  malloc_succeeds ->
  load_signed 4 buf 0 = Some fildes ->
  load_unsigned 8 buf 4 = Some nbyte ->
  12 + nbyte <= Z.of_nat (length buf) ->
  let data := firstn (Z.to_nat nbyte) (ptr_add buf 12) in
  let r := os_write fildes data (snd (os_malloc nbyte (env w))) in
  exists w' c e,
    serveWrite buf w = Ret tt w' /\
    Z.of_nat (length data) = nbyte /\
    returned w' = returned w ++ [c] /\
    outbox w' = outbox w ++ [rep 4 12 ++ rep 8 (fst (fst r)) ++ rep 4 e] /\
    (allocator_keeps_errno -> c = new_errno (snd (fst r)) (errno w) /\ e = c).
Proof.
  intros HM Hf Hn Hl data r.
  pose proof (load_unsigned_range _ _ _ _ Hn) as Hr.
  unfold serveWrite. sizes. change (4 + 8) with 12.
  rewrite Hf. exec. rewrite Hn. exec. rewrite HM. exec.
  change (fresh nbyte) with ([] ++ fresh nbyte).
  rewrite memcpy_frontier
    by (unfold ptr_add; rewrite ?length_skipn, ?length_fresh; cbn [length]; lia).
  exec. rewrite skipn_all2 by (rewrite length_fresh; lia).
  rewrite app_nil_r. cbn [app].
  rewrite (firstn_all2 (n := Z.to_nat nbyte) (firstn (Z.to_nat nbyte) (ptr_add buf 12)))
    by (rewrite length_firstn; lia).
  fold data. rewrite HM. exec.
  change (fresh (4 * 2 + 8)) with ([] ++ fresh 16).
  rewrite memcpy_frontier_all by lens. exec.
  rewrite memcpy_frontier_all by lens. exec.
  rewrite memcpy_frontier_all by lens. exec.
  reply_sent.
  eexists _, _, _. split; [reflexivity|].
  cbn [returned outbox lib_step sent sys_step errno].
  rewrite <- !app_assoc. splits; try reflexivity.
  - subst data. unfold ptr_add. rewrite length_firstn, length_skipn. lia.
  - intros K. now rewrite ?(keeps_malloc K), ?(keeps_free K).
Qed.

(** X4: the reply of [lseek].  [serveLseek] reads the descriptor, the
    offset as a signed number of eight bytes and [whence], and sends
    sixteen bytes: the length 12, the result on eight bytes, the error
    code. *)
Theorem serveLseek_reply buf (w : world E) fildes offset pos :
  malloc_succeeds ->
  load_signed 4 buf 0 = Some fildes ->
  load_signed 8 buf 4 = Some offset ->
  load_signed 4 buf 12 = Some pos ->
  let r := os_lseek fildes offset pos (env w) in
  exists w' c e,
    serveLseek buf w = Ret tt w' /\
    returned w' = returned w ++ [c] /\
    outbox w' = outbox w ++ [rep 4 12 ++ rep 8 (fst (fst r)) ++ rep 4 e] /\
    c = new_errno (snd (fst r)) (errno w) /\
    (allocator_keeps_errno -> e = c).
Proof.
  intros HM Hf Ho Hp r. unfold serveLseek. sizes. change (4 + 8) with 12.
  rewrite Hf. exec. rewrite Ho. exec. rewrite Hp. exec.
  rewrite HM. exec.
  change (fresh (8 + 4 * 2)) with ([] ++ fresh 16).
  rewrite memcpy_frontier_all by lens. exec.
  rewrite memcpy_frontier_all by lens. exec.
  rewrite memcpy_frontier_all by lens. exec.
  reply_sent.
  eexists _, _, _. split; [reflexivity|].
  cbn [returned outbox lib_step sent sys_step errno].
  rewrite <- !app_assoc. splits; try reflexivity.
  intros K. now rewrite ?(keeps_malloc K), ?(keeps_free K).
Qed.

(** X5: the reply of [stat].  The reply is the length, the result, the
    error code and [sizeof(struct stat)] bytes: what [stat] stored, and,
    where it stored nothing, what the local variable held before the
    call. *)
Theorem serveStat_reply buf (w : world E) pathLen :
  malloc_succeeds ->
  load_signed 4 buf 0 = Some pathLen ->
  0 <= pathLen < 2 ^ 31 - 1 ->
  4 + pathLen <= Z.of_nat (length buf) ->
  0 <= sizeof_stat < 2 ^ 31 ->
  let path := c_string (firstn (Z.to_nat pathLen) (ptr_add buf 4) ++ [Byte.x00]) in
  let r := os_stat path (snd (os_malloc (pathLen + 1) (env w))) in
  let s := match snd (fst (fst r)) with
           | Some d => overwrite (fresh sizeof_stat) d
           | None => fresh sizeof_stat
           end in
  exists w' c e,
    serveStat buf w = Ret tt w' /\
    returned w' = returned w ++ [c] /\
    outbox w' = outbox w ++
      [rep 4 (8 + sizeof_stat) ++ rep 4 (fst (fst (fst r))) ++ rep 4 e ++ s] /\
    Z.of_nat (length s) = sizeof_stat /\
    (allocator_keeps_errno -> c = new_errno (snd (fst r)) (errno w) /\ e = c).
Proof.
  intros HM Hp Hr Hl Hs path r s.
  assert (Z.of_nat (length s) = sizeof_stat) as Hls.
  { subst s. destruct (snd (fst (fst r)));
      rewrite ?length_overwrite, length_fresh; lia. }
  unfold serveStat. sizes. rewrite Hp. exec.
  rewrite (to_int_small (pathLen + 1)) by lia.
  rewrite (to_size_t_small (pathLen + 1)), (to_size_t_small pathLen) by lia.
  rewrite (to_size_t_small (4 * 3 + sizeof_stat)) by lia.
  rewrite HM. exec.
  erewrite bind_Ret by (apply alloca_nonneg; lia).
  destruct (path_copied buf 4 pathLen) as (p & -> & Hz); try lia. exec.
  rewrite Hz. exec. fold path. fold r. fold s. rewrite HM. exec.
  change (fresh (4 * 3 + sizeof_stat)) with ([] ++ fresh (4 * 3 + sizeof_stat)).
  rewrite memcpy_frontier_all by lens. exec.
  rewrite memcpy_frontier_all by lens. exec.
  rewrite memcpy_frontier_all by lens. exec.
  rewrite memcpy_frontier_all by lens. exec.
  reply_sent.
  eexists _, _, _. split; [reflexivity|].
  cbn [returned outbox lib_step sent sys_step errno].
  rewrite rep_to_int, <- !app_assoc.
  split; [reflexivity|]. split; [do 3 f_equal; f_equal; lia|].
  split; [exact Hls|].
  intros K. now rewrite ?(keeps_malloc K), ?(keeps_free K).
Qed.

(** X6: the reply of [unlink].  [serveUnlink] calls [unlink] once, on the
    path of the payload cut at its first NUL, and sends twelve bytes: the
    length 8, the result, the error code. *)
Theorem serveUnlink_reply buf (w : world E) pathLen :
  malloc_succeeds ->
  load_signed 4 buf 0 = Some pathLen ->
  0 <= pathLen < 2 ^ 31 - 1 ->
  4 + pathLen <= Z.of_nat (length buf) ->
  let path := c_string (firstn (Z.to_nat pathLen) (ptr_add buf 4) ++ [Byte.x00]) in
  let r := os_unlink path (snd (os_malloc (pathLen + 1) (env w))) in
  exists w' c e,
    serveUnlink buf w = Ret tt w' /\
    returned w' = returned w ++ [c] /\
    outbox w' = outbox w ++ [rep 4 8 ++ rep 4 (fst (fst r)) ++ rep 4 e] /\
    (allocator_keeps_errno -> c = new_errno (snd (fst r)) (errno w) /\ e = c).
Proof.
  intros HM Hp Hr Hl path r.
  unfold serveUnlink. sizes. rewrite Hp. exec.
  rewrite (to_int_small (pathLen + 1)) by lia.
  rewrite (to_size_t_small (pathLen + 1)), (to_size_t_small pathLen) by lia.
  rewrite HM. exec.
  destruct (path_copied buf 4 pathLen) as (p & -> & Hz); try lia. exec.
  rewrite Hz. exec. rewrite HM. exec.
  change (fresh (4 * 3)) with ([] ++ fresh 12).
  rewrite memcpy_frontier_all by lens. exec.
  rewrite memcpy_frontier_all by lens. exec.
  rewrite memcpy_frontier_all by lens. exec.
  reply_sent.
  eexists _, _, _. split; [reflexivity|].
  cbn [returned outbox lib_step sent sys_step errno].
  rewrite <- !app_assoc. splits; try reflexivity.
  intros K. now rewrite ?(keeps_malloc K), ?(keeps_free K).
Qed.

(** X7: the reply of [getdirentries] when the call succeeds: the result
    on eight bytes, the error code and exactly [result] bytes, those the
    call stored; the new value of [basep] is not part of the reply. *)
Theorem serveGetdirentries_reply buf (w : world E) fd nbyte basep d :
  malloc_succeeds ->
  load_signed 4 buf 0 = Some fd ->
  load_unsigned 8 buf 4 = Some nbyte ->
  load_signed 8 buf 12 = Some basep ->
  nbyte < 2 ^ 63 ->
  let r := os_getdirentries fd nbyte basep (env w) in
  fst (fst r) = Some d ->
  let data := firstn (Z.to_nat nbyte) d in
  let result := Z.of_nat (length data) in
  exists w' c e,
    serveGetdirentries buf w = Ret tt w' /\
    returned w' = returned w ++ [c] /\
    outbox w' = outbox w ++
      [rep 4 (result + 12) ++ rep 8 result ++ rep 4 e ++ data] /\
    c = new_errno (snd (fst r)) (errno w) /\
    (allocator_keeps_errno -> e = c).
Proof.
  intros HM Hf Hn Hb Hmax r Hd data result.
  pose proof (load_unsigned_range _ _ _ _ Hn) as Hr.
  assert (result <= nbyte) as Hres
    by (subst result data; rewrite length_firstn; lia).
  unfold serveGetdirentries. sizes. change (4 + 8) with 12.
  rewrite Hf. exec. rewrite Hn. exec. rewrite Hb. exec.
  erewrite bind_Ret by (apply alloca_nonneg; lia). exec.
  fold r. rewrite Hd. cbn [filled fst snd]. fold data. fold result.
  rewrite !to_size_t_small by lia. rewrite HM. exec.
  rewrite overwrite_prefix by (rewrite length_fresh; lia).
  change (fresh (result + 4 * 2 + 8)) with ([] ++ fresh (result + 4 * 2 + 8)).
  rewrite memcpy_frontier_all by lens. exec.
  rewrite memcpy_frontier_all by lens. exec.
  rewrite memcpy_frontier_all by lens. exec.
  rewrite memcpy_frontier_prefix by lens. exec.
  reply_sent.
  eexists _, _, _. split; [reflexivity|].
  cbn [returned outbox lib_step sent sys_step errno].
  rewrite rep_to_int, <- !app_assoc.
  split; [reflexivity|]. split; [do 3 f_equal; f_equal; lia|].
  split; [reflexivity|].
  intros K. now rewrite ?(keeps_malloc K), ?(keeps_free K).
Qed.

End Replies.

(** ** Payloads the handlers do not check *)

Section Edges.
Context {E : Type} {P : Platform E}.

(** A field read from the payload, or the end of the run. *)
Ltac read_field :=
  match goal with
  | |- context [access (load_signed ?n ?b ?o)] =>
      let H := fresh "Hld" in
      destruct (load_signed n b o) eqn:H;
        [apply load_signed_length in H; exec | reflexivity]
  | |- context [access (load_unsigned ?n ?b ?o)] =>
      let H := fresh "Hld" in
      destruct (load_unsigned n b o) eqn:H;
        [apply load_unsigned_length in H; exec | reflexivity]
  end.

(** X8: a payload shorter than the fixed fields of its operation.  The
    handler reads outside the payload before it calls or allocates
    anything: nothing is sent and the world is left as it was. *)
Theorem short_payload_faults op buf (w : world E) :
  0 <= op <= 8 ->
  Z.of_nat (length buf) < fixed_fields op ->
  dispatch op buf w = Fault w.
Proof.
  intros Hop Hl.
  assert (op = 0 \/ op = 1 \/ op = 2 \/ op = 3 \/ op = 4 \/ op = 5 \/ op = 6
          \/ op = 7 \/ op = 8) as Hc by lia.
  unfold fixed_fields in Hl.
  repeat destruct Hc as [-> | Hc]; try subst op;
    cbn [Z.eqb Pos.eqb] in Hl; cbn [dispatch Z.eqb Pos.eqb];
    unfold serveOpen, serveClose, serveWrite, serveRead, serveLseek, serveStat,
      serveUnlink, serveGetdirentries, serveGetdirtree;
    sizes; exec; repeat read_field; cbn in *; lia.
Qed.

(** X9: [open] does not compare the length it is told with the payload.
    When the path would pass the end of the payload the copy of the path
    reads outside it: [open] is not called and nothing is sent. *)
Theorem serveOpen_path_beyond_payload buf (w : world E) pathLen :
  load_unsigned 8 buf 8 = Some pathLen ->
  Z.of_nat (length buf) < 16 + pathLen ->
  exists w',
    (serveOpen buf w = Fault w' \/ serveOpen buf w = Exit 1 w') /\
    returned w' = returned w /\ outbox w' = outbox w /\
    (malloc_succeeds -> serveOpen buf w = Fault w').
Proof.
  intros Hp Hl. pose proof (load_unsigned_length _ _ _ _ Hp) as Hb.
  unfold serveOpen. sizes. change (4 + 4) with 8. change (8 + 8) with 16.
  destruct (load_signed_in_bounds 4 buf 0) as (flag & ->); [lia|cbn; lia|].
  destruct (load_unsigned_in_bounds 4 buf 4) as (m & ->); [lia|cbn; lia|].
  exec. rewrite Hp. exec.
  destruct (fst (fst (os_malloc _ _))) eqn:Hok; exec.
  - rewrite memcpy_None_src by (rewrite length_ptr_add; lia). exec.
    eexists. split; [left; reflexivity|]. splits; reflexivity.
  - eexists. split; [right; reflexivity|]. splits; try reflexivity.
    intros HM. rewrite HM in Hok. discriminate.
Qed.

(** X10: [write] does not compare the number of bytes it is told with the
    payload, nor test the block it copies them to.  When the data would
    pass the end of the payload, or [malloc] returns [NULL], the copy
    leaves its objects: [write] is not called and nothing is sent. *)
Theorem serveWrite_data_beyond_payload buf (w : world E) fildes nbyte :
  load_signed 4 buf 0 = Some fildes ->
  load_unsigned 8 buf 4 = Some nbyte ->
  Z.of_nat (length buf) < 12 + nbyte \/
  fst (fst (os_malloc nbyte (env w))) = false ->
  exists w',
    serveWrite buf w = Fault w' /\
    returned w' = returned w /\ outbox w' = outbox w.
Proof.
  intros Hf Hn Hl. pose proof (load_unsigned_length _ _ _ _ Hn) as Hb.
  unfold serveWrite. sizes. change (4 + 8) with 12.
  rewrite Hf. exec. rewrite Hn. exec.
  destruct (fst (fst (os_malloc _ _))) eqn:Hok; exec.
  - destruct Hl as [Hl|Hl]; [|discriminate].
    rewrite memcpy_None_src by (rewrite length_ptr_add; lia). exec.
    eexists. splits; reflexivity.
  - eexists. splits; reflexivity.
Qed.

(** X11: [stat], [unlink] and [getdirtree] use the length of the path as
    it comes.  A negative length, or one that passes the end of the
    payload, makes the copy of the path leave the payload: the call is not
    made and nothing is sent. *)
Theorem path_length_not_validated buf (w : world E) pathLen :
  load_signed 4 buf 0 = Some pathLen ->
  Z.of_nat (length buf) < 2 ^ 31 ->
  pathLen < 0 \/ Z.of_nat (length buf) < 4 + pathLen ->
  (exists w',
     (serveStat buf w = Fault w' \/ serveStat buf w = Exit 1 w') /\
     returned w' = returned w /\ outbox w' = outbox w) /\
  (exists w',
     (serveUnlink buf w = Fault w' \/ serveUnlink buf w = Exit 1 w') /\
     returned w' = returned w /\ outbox w' = outbox w) /\
  serveGetdirtree buf w = Fault w.
Proof.
  intros Hp Hmax Hl. pose proof (load_signed_length _ _ _ _ Hp) as Hb.
  assert (- 2 ^ 31 <= pathLen < 2 ^ 31) as Hr
    by (apply (load_signed_range 4 buf 0); [lia|exact Hp]).
  assert (Z.of_nat (length (ptr_add buf 4)) < to_size_t pathLen) as Hsrc.
  { rewrite length_ptr_add. unfold to_size_t, wrap_unsigned.
    change (2 ^ (8 * 8)) with (2 ^ 64).
    destruct (Z.ltb_spec pathLen 0).
    - replace (pathLen mod 2 ^ 64) with (pathLen + 2 ^ 64); [lia|].
      apply Z.mod_unique with (-1); lia.
    - rewrite Z.mod_small by lia. lia. }
  splits.
  - unfold serveStat. sizes. rewrite Hp. exec.
    destruct (fst (fst (os_malloc _ _))) eqn:Hok; exec.
    + unfold alloca. destruct (sizeof_stat <? 0); exec.
      * eexists. split; [left; reflexivity|]. splits; reflexivity.
      * rewrite memcpy_None_src by exact Hsrc. exec.
        eexists. split; [left; reflexivity|]. splits; reflexivity.
    + eexists. split; [right; reflexivity|]. splits; reflexivity.
  - unfold serveUnlink. sizes. rewrite Hp. exec.
    destruct (fst (fst (os_malloc _ _))) eqn:Hok; exec.
    + rewrite memcpy_None_src by exact Hsrc. exec.
      eexists. split; [left; reflexivity|]. splits; reflexivity.
    + eexists. split; [right; reflexivity|]. splits; reflexivity.
  - unfold serveGetdirtree. sizes. rewrite Hp. exec.
    unfold alloca. destruct (to_int (pathLen + 1) <? 0); exec; [reflexivity|].
    rewrite memcpy_None_src by exact Hsrc. reflexivity.
Qed.

End Edges.

(** ** The frame reader and the session *)

Section Session.
Context {E : Type} {P : Platform E}.

Lemma receiveAll_loop_quiet fuel :
  forall buf bufSize maxSize currlen (w : world E),
  Z.of_nat (length buf) = bufSize -> 0 <= currlen ->
  (currlen < bufSize -> 0 < maxSize <= bufSize - currlen) ->
  quiet_end buf w (receiveAll_loop fuel buf bufSize maxSize currlen w).
Proof.
  induction fuel as [|fuel IH]; intros buf bufSize maxSize currlen w Hl Hc Hm.
  - exact I.
  - cbn [receiveAll_loop]. destruct (Z.ltb_spec currlen bufSize) as [Hlt|Hge].
    + specialize (Hm Hlt). unfold bind at 1, recv.
      destruct (take maxSize (inbox w)) as [[[rv bs] upd] inb'] eqn:Ht.
      destruct (take_cases _ _ _ _ _ _ (proj1 Hm) Ht)
        as [(-> & -> & e & ->) | (Hrv & Hmax & -> & _)].
      * destruct (memcpy_in_bounds buf currlen [] (Z.of_nat (length (@nil byte))))
          as (r & -> & Hr); cbn [length]; try lia.
        cbn [fst snd]. change (-1 <? 0) with true. cbn [quiet_end err].
        cbn [outbox returned stderr errno logged received new_errno]. tauto.
      * destruct (memcpy_in_bounds buf currlen bs (Z.of_nat (length bs)))
          as (r & -> & Hr); try lia.
        cbn [fst snd]. replace (rv <? 0) with false by (symmetry; apply Z.ltb_ge; lia).
        specialize (IH r bufSize
          (if bufSize - (currlen + rv) <? maxSize then bufSize - (currlen + rv)
           else maxSize) (currlen + rv) (received inb' None w)).
        destruct (receiveAll_loop fuel r bufSize _ (currlen + rv) _);
          cbn [quiet_end] in *; rewrite <- ?Hr;
          apply IH; try lia;
          destruct (bufSize - (currlen + rv) <? maxSize) eqn:Hq;
            [apply Z.ltb_lt in Hq|apply Z.ltb_ge in Hq| | | | | | ]; lia.
    + cbn [ret quiet_end]. tauto.
Qed.

(** X12: [receiveAll] stays in its buffer.  Whatever the peer sends and
    however it is cut, a call on a buffer of the size it is told never
    writes outside it; it sends nothing and asks nothing of the file
    system; when it returns, the buffer has the size it had; when it
    leaves the process, it is by [err(1,0)]. *)
Theorem receiveAll_stays_in_buffer fuel buf (w : world E) :
  quiet_end buf w (receiveAll fuel buf (Z.of_nat (length buf)) w).
Proof.
  unfold receiveAll. apply receiveAll_loop_quiet; [reflexivity|lia|].
  intros H. sizes. destruct (Z.ltb_spec (Z.of_nat (length buf)) 200); lia.
Qed.

Lemma receiveAll_returns_io fuel buf bufSize (w w' : world E) buf' :
  Z.of_nat (length buf) = bufSize ->
  receiveAll fuel buf bufSize w = Ret buf' w' ->
  outbox w' = outbox w /\ returned w' = returned w /\ stderr w' = stderr w.
Proof.
  intros Hl H. unfold receiveAll in H.
  pose proof (receiveAll_loop_quiet fuel buf bufSize
    (if bufSize <? MAXMSGLEN then bufSize else MAXMSGLEN) 0 w Hl ltac:(lia)) as Hq.
  rewrite H in Hq. cbn [quiet_end] in Hq.
  destruct Hq as (_ & Ho & Hr & Hs & _); [|auto].
  intros Hpos. sizes. destruct (Z.ltb_spec bufSize 200); lia.
Qed.

Lemma take_full max (hdr : list byte) inb :
  (0 < length hdr)%nat -> Z.of_nat (length hdr) <= max ->
  take max (Data hdr :: inb) = (Z.of_nat (length hdr), hdr, None, inb).
Proof.
  intros Hn Hl. destruct hdr as [|b tl]; [cbn in Hn; lia|].
  cbn [take]. now replace (Z.of_nat (length (b :: tl)) <=? max) with true
    by (symmetry; apply Z.leb_le; lia).
Qed.

Lemma recv_run (buf : list byte) max (w : world E) rv bs upd inb' :
  take max (inbox w) = (rv, bs, upd, inb') ->
  (length bs <= length buf)%nat ->
  recv buf 0 max w = Ret (rv, bs ++ skipn (length bs) buf) (received inb' upd w).
Proof.
  intros Ht Hl. unfold recv. rewrite Ht.
  change buf with ([] ++ buf) at 1.
  rewrite memcpy_frontier_all by (cbn [length]; lia).
  now rewrite Nat2Z.id.
Qed.

(** X13: a header that comes in pieces.  When the first [recv] brings
    fewer than eight bytes, [serve] does not wait for the others: it goes
    on as if the bytes that miss had come, holding what the array [op] held
    before; the rest of the header, when it comes, is taken for payload. *)
Theorem serve_short_header fuel (w : world E) rv bs upd inb1 :
  take 8 (inbox w) = (rv, bs, upd, inb1) ->
  0 < rv < 8 ->
  serve fuel w
  = serve fuel (received (Data (bs ++ skipn (length bs) (fresh 8)) :: inb1) None w).
Proof.
  intros Ht Hrv.
  destruct (take_cases 8 _ _ _ _ _ ltac:(lia) Ht)
    as [(-> & _) | (-> & _ & -> & _)]; [lia|].
  assert (length (bs ++ skipn (length bs) (fresh 8)) = 8%nat) as Hh
    by (rewrite ?length_app, ?length_skipn, ?length_fresh; lia).
  unfold serve. sizes. change (4 * 2) with 8.
  rewrite !(bind_Ret _ _ _ _ _ (alloca_nonneg 8 _ ltac:(lia))).
  rewrite (bind_Ret _ _ _ _ _ (recv_run (fresh 8) 8 w _ _ _ _ Ht
             ltac:(rewrite length_fresh; lia))).
  erewrite (bind_Ret _ _ (received _ None w)).
  2:{ apply recv_run; [cbn [inbox received]; apply take_full; lia|].
      rewrite Hh, length_fresh. lia. }
  cbn [fst snd]. rewrite Hh.
  rewrite (skipn_all2 (n := 8%nat)) by (rewrite length_fresh; lia).
  rewrite app_nil_r.
  replace (Z.of_nat (length bs) <=? 0) with false by (symmetry; apply Z.leb_gt; lia).
  change (Z.of_nat 8 <=? 0) with false. cbv iota.
  replace (received inb1 None (received (Data (bs ++ skipn (length bs) (fresh 8)) :: inb1) None w))
    with (received inb1 None w) by reflexivity.
  reflexivity.
Qed.

(** X14: a negative length in the header.  The array of the payload would
    have a negative size: [serve] ends there, before it reads a byte of
    what follows the header, and sends nothing. *)
Theorem negative_payload_len_faults fuel (w : world E) hdr inb1 fID bufSize :
  take 8 (inbox w) = (8, hdr, None, inb1) ->
  load_signed 4 hdr 0 = Some fID ->
  load_signed 4 hdr 4 = Some bufSize ->
  bufSize < 0 ->
  serve fuel w = Fault (received inb1 None w).
Proof.
  intros Ht Hop Hlen Hneg.
  destruct (take_cases 8 _ _ _ _ _ ltac:(lia) Ht) as [(? & _)|(Hl & _)]; [lia|].
  unfold serve. sizes. change (4 * 2) with 8.
  rewrite (bind_Ret _ _ _ _ _ (alloca_nonneg 8 w ltac:(lia))).
  unfold bind at 1. unfold recv. rewrite Ht.
  change (fresh 8) with ([] ++ fresh 8).
  rewrite memcpy_frontier_all by (rewrite ?length_fresh; cbn; lia).
  cbn [fst snd]. change (8 <=? 0) with false. cbn match.
  rewrite skipn_all2 by (rewrite length_fresh; cbn; lia).
  rewrite app_nil_l, app_nil_r.
  unfold bind at 1. rewrite Hop. cbn [access ret].
  unfold bind at 1. rewrite Hlen. cbn [access ret].
  unfold bind at 1, alloca.
  replace (bufSize <? 0) with true by (symmetry; apply Z.ltb_lt; exact Hneg).
  reflexivity.
Qed.

(** X15: an error of the transport where a header is awaited.  The child
    logs the message of the error [recv] set and exits with status 1; it
    sends nothing and does not close the session socket. *)
Theorem child_ends_on_transport_error fuel (w : world E) e rest :
  child (S fuel) (received (Broken e :: rest) None w)
  = Exit 1 (logged (ErrMsg e) (received rest (Some e) w)).
Proof.
  unfold child. cbn [session_loop]. unfold serve. sizes. change (4 * 2) with 8.
  rewrite !bind_assoc.
  rewrite (bind_Ret _ _ _ _ _ (alloca_nonneg 8 _ ltac:(lia))).
  rewrite !bind_assoc.
  unfold bind at 1. unfold recv. cbn [inbox received take].
  destruct (memcpy_in_bounds (fresh 8) 0 [] (Z.of_nat (length (@nil byte))))
    as (r & -> & _); rewrite ?length_fresh; cbn [length]; try lia.
  cbn [fst snd]. change (-1 <=? 0) with true. change (-1 <? 0) with true.
  cbn match. reflexivity.
Qed.

(** What a call of [serve] that returns has done. *)
Lemma serve_returns fuel (w w' : world E) v :
  serve fuel w = Ret v w' ->
  (v = -1 /\ outbox w' = outbox w /\ returned w' = returned w /\
   (stderr w' = stderr w \/ stderr w' = stderr w ++ [Text undefined_function])) \/
  (v = 0 /\ stderr w' = stderr w /\
   exists frame e,
     outbox w' = outbox w ++ [frame] /\ returned w' = returned w ++ [e] /\
     well_framed frame).
Proof.
  intros H. unfold serve in H.
  apply bind_inv in H as (op & w1 & Hop & H).
  apply alloca_inv in Hop as (-> & -> & _).
  apply bind_inv in H as ([rv op] & w1 & Hrecv & H). cbn [fst snd] in H.
  assert (outbox w1 = outbox w /\ returned w1 = returned w /\ stderr w1 = stderr w)
    as (Ho1 & Hr1 & Hs1).
  { unfold recv in Hrecv.
    destruct (take _ _) as [[[rv0 bs] upd] inb'].
    destruct (memcpy _ _ _ _); [|discriminate].
    injection Hrecv as _ _ <-. repeat split. }
  destruct (rv <=? 0).
  - destruct (rv <? 0); [discriminate|].
    apply ret_inv in H as (<- & <-). left. tauto.
  - apply bind_inv in H as (fID & w2 & Hf & H). apply access_inv in Hf as (Hf & ->).
    apply bind_inv in H as (bufSize & w2 & Hb & H). apply access_inv in Hb as (Hb & ->).
    apply bind_inv in H as (buf & w2 & Ha & H). apply alloca_inv in Ha as (-> & -> & Hn).
    apply bind_inv in H as (buf & w2 & Hrcv & H).
    apply receiveAll_returns_io in Hrcv as (Ho2 & Hr2 & Hs2);
      [|rewrite length_fresh; lia].
    destruct (Z_lt_le_dec fID 0) as [Hneg|Hpos];
      [|destruct (Z_lt_le_dec 8 fID) as [Hbig|Hsmall]].
    + rewrite dispatch_undefined in H by lia. injection H as <- <-.
      left. cbn [outbox returned stderr logged]. rewrite Ho2, Hr2, Hs2, Ho1, Hr1, Hs1.
      tauto.
    + rewrite dispatch_undefined in H by lia. injection H as <- <-.
      left. cbn [outbox returned stderr logged]. rewrite Ho2, Hr2, Hs2, Ho1, Hr1, Hs1.
      tauto.
    + apply dispatch_replied in H as (-> & frame & e & Ho & Hr & _ & Hs & _ & Hl);
        [|lia].
      right. split; [reflexivity|]. split; [congruence|].
      exists frame, e. rewrite Ho, Hr, Ho2, Hr2, Ho1, Hr1. repeat split. exact Hl.
Qed.

(** X16: the replies of a session.  When the loop over [serve] comes to
    its end, what was sent is one reply for each call of the file system,
    in the order of the calls, each reply announcing its own length; the
    log has at most the line of an undefined operation. *)
Theorem session_replies_once_per_call fuel : forall (w w' : world E),
  session_loop fuel w = Ret tt w' ->
  exists frames calls,
    outbox w' = outbox w ++ frames /\
    returned w' = returned w ++ calls /\
    length frames = length calls /\
    Forall well_framed frames /\
    (stderr w' = stderr w \/ stderr w' = stderr w ++ [Text undefined_function]).
Proof.
  induction fuel as [|fuel IH]; intros w w' H; [discriminate|].
  cbn [session_loop] in H. apply bind_inv in H as (v & w1 & Hs & H).
  apply serve_returns in Hs
    as [(-> & Ho & Hr & He) | (-> & He & frame & e & Ho & Hr & Hf)].
  - change (-1 =? -1) with true in H. apply ret_inv in H as (_ & <-).
    exists [], []. rewrite !app_nil_r. repeat split; auto.
  - change (0 =? -1) with false in H.
    apply IH in H as (frames & calls & Ho' & Hr' & Hlen & Hall & He').
    exists (frame :: frames), (e :: calls).
    rewrite Ho', Hr', Ho, Hr, <- !app_assoc. cbn [app length].
    repeat split; auto. rewrite <- He. exact He'.
Qed.

(** *** How the process is left *)

Lemma exits_ret {A} (a : A) : exits_by_err (@ret E A a).
Proof. intros w s w' H. discriminate. Qed.

Lemma exits_bind {A B} (m : M E A) (k : A -> M E B) :
  exits_by_err m -> (forall a, exits_by_err (k a)) -> exits_by_err (bind m k).
Proof.
  intros Hm Hk w s w' H. unfold bind in H.
  destruct (m w) as [a w1| s1 w1 | w1 |] eqn:Hr; try discriminate.
  - exact (Hk a _ _ _ H).
  - injection H as <- <-. exact (Hm _ _ _ Hr).
Qed.

Lemma exits_err {A} : exits_by_err (@err E A).
Proof. intros w s w' H. now injection H as <- _. Qed.

Lemma exits_fault {A} : exits_by_err (@fault E A).
Proof. intros w s w' H. discriminate. Qed.

Lemma exits_access {A} (o : option A) : exits_by_err (@access E A o).
Proof. destruct o; [apply exits_ret|apply exits_fault]. Qed.

Lemma exits_libcall {A} (f : call E A) : exits_by_err (libcall f).
Proof. intros w s w' H. discriminate. Qed.

Lemma exits_syscall {A} (f : call E A) : exits_by_err (syscall f).
Proof. intros w s w' H. discriminate. Qed.

Lemma exits_get_errno : exits_by_err (@get_errno E).
Proof. intros w s w' H. discriminate. Qed.

Lemma exits_fprintf s : exits_by_err (@fprintf_stderr E s).
Proof. intros w s0 w' H. discriminate. Qed.

Lemma exits_check_null p : exits_by_err (@check_null E p).
Proof. destruct p; [apply exits_ret|apply exits_err]. Qed.

Lemma exits_deref p : exits_by_err (@deref E p).
Proof. destruct p; [apply exits_ret|apply exits_fault]. Qed.

Lemma exits_alloca n : exits_by_err (alloca n).
Proof. unfold alloca. destruct (n <? 0); [apply exits_fault|apply exits_ret]. Qed.

Lemma exits_send buf n : exits_by_err (@send E buf n).
Proof. intros w s w' H. unfold send in H. destruct (in_bounds _ _ _); discriminate. Qed.

Lemma exits_recv buf off max : exits_by_err (@recv E buf off max).
Proof.
  intros w s w' H. unfold recv in H.
  destruct (take _ _) as [[[rv bs] upd] inb']. destruct (memcpy _ _ _ _); discriminate.
Qed.

Lemma exits_malloc n : exits_by_err (malloc n).
Proof. apply exits_bind; [apply exits_libcall|intros a; apply exits_ret]. Qed.

Lemma exits_free : exits_by_err free.
Proof. apply exits_libcall. Qed.

End Session.

Create HintDb exits.
#[export] Hint Resolve exits_ret exits_err exits_fault exits_access exits_libcall
  exits_syscall exits_get_errno exits_fprintf exits_check_null exits_deref
  exits_alloca exits_send exits_recv exits_malloc exits_free : exits.

(** Decomposes an action along its binds and its tests. *)
Ltac exits :=
  repeat (cbv beta zeta;
    lazymatch goal with
    | |- exits_by_err (bind _ _) => apply exits_bind; [|intros ?]
    | |- exits_by_err (if ?c then _ else _) => destruct c
    | |- exits_by_err (match ?x with _ => _ end) => destruct x
    | |- _ => solve [auto with exits]
    end).

Section Exits.
Context {E : Type} {P : Platform E}.

Lemma exits_serializaTreeNode t : exits_by_err (serializaTreeNode t).
Proof. unfold serializaTreeNode. exits. Qed.

Lemma exits_serializeTree_children rec k size cs :
  Forall (fun c => exits_by_err (rec c)) cs ->
  forall i buf offset,
    exits_by_err (serializeTree_children rec k size cs i buf offset).
Proof.
  induction 1 as [|c cs Hc _ IH]; intros i buf offset;
    cbn [serializeTree_children]; exits; auto using exits_serializaTreeNode.
Qed.

Lemma exits_serializeTree t : exits_by_err (serializeTree t).
Proof.
  induction t as [nm k cs IH] using dirtreenode_induction.
  cbn [serializeTree]. exits; auto using exits_serializaTreeNode.
  now apply exits_serializeTree_children.
Qed.

Lemma exits_receiveAll_loop fuel : forall buf bufSize maxSize currlen,
  exits_by_err (E := E) (receiveAll_loop fuel buf bufSize maxSize currlen).
Proof.
  induction fuel as [|fuel IH]; intros; cbn [receiveAll_loop].
  - intros w s w' H. discriminate.
  - exits.
Qed.

Lemma exits_dispatch fID buf : exits_by_err (dispatch fID buf).
Proof.
  unfold dispatch, serveOpen, serveClose, serveWrite, serveRead, serveLseek,
    serveStat, serveUnlink, serveGetdirentries, serveGetdirtree.
  exits; auto using exits_serializeTree.
Qed.

Lemma exits_serve fuel : exits_by_err (serve fuel).
Proof.
  unfold serve, receiveAll. exits;
    auto using exits_receiveAll_loop, exits_dispatch.
Qed.

Lemma exits_session_loop fuel : exits_by_err (session_loop fuel).
Proof.
  induction fuel as [|fuel IH]; cbn [session_loop].
  - intros w s w' H. discriminate.
  - exits; auto using exits_serve.
Qed.

(** X17: the exit status of a child.  It is 0 when the loop over [serve]
    came to its end, and then the session socket was closed; it is 1 when
    [err(1,0)] ended the loop, in a handler or in a read.  There is no
    other status. *)
Theorem child_exit_status fuel (w w' : world E) s :
  child fuel w = Exit s w' ->
  (s = 0 /\ sess_open w' = false /\
   exists w1, session_loop fuel w = Ret tt w1 /\ w' = closed w1) \/
  (s = 1 /\ session_loop fuel w = Exit 1 w').
Proof.
  unfold child, bind. intros H.
  destruct (session_loop fuel w) as [[] w1| s1 w1 | w1 |] eqn:Hs; try discriminate.
  - cbn [close_session exit] in H. injection H as <- <-. left.
    split; [reflexivity|]. split; [reflexivity|]. eauto.
  - injection H as <- <-. right.
    pose proof (exits_session_loop fuel _ _ _ Hs) as ->. auto.
Qed.

End Exits.

(** ** The accept loop *)

Section Listener.
Context {E : Type} {P : Platform E}.

(** X18: the parent outlives its children.  While [accept] and [fork]
    succeed the parent stays listening, however the children end; each
    child starts from the log and the [errno] of the parent, on its own
    stream, and what it does to them does not reach the parent. *)
Theorem main_loop_outlives_children fuel streams : forall (w : world E),
  exists w',
    snd (main_loop fuel (map Connects streams) w) = Listening w' /\
    same_parent w w' /\
    Forall2 (fun stream c =>
               exists pw, same_parent w pw /\ c = child fuel (forked stream pw))
      streams (fst (main_loop fuel (map Connects streams) w)).
Proof.
  induction streams as [|stream streams IH]; intros w; cbn [map main_loop fst snd].
  - exists w. repeat split. constructor.
  - destruct (IH (closed (lib_step None
                 (env_after (child fuel (forked stream w)) w) w)))
      as (w' & Hl & (Hs & He & Ho) & Hall).
    exists w'. split; [exact Hl|]. split; [repeat split; assumption|].
    constructor.
    + exists w. repeat split.
    + eapply Forall2_impl; [|exact Hall]. cbn beta.
      intros a b (pw & (Hs' & He' & Ho') & ->). exists pw. repeat split; assumption.
Qed.

(** X19: the end of the parent.  When [accept] or [fork] fails the parent
    logs the message of the error and exits with status 1; the clients
    that came before were given a child each, those that come after are
    not served. *)
Theorem main_loop_stops_at_failure fuel streams (in_accept : bool) e rest :
  forall w : world E,
  let failure := if in_accept then AcceptFails e else ForkFails e in
  let run := main_loop fuel (map Connects streams ++ failure :: rest) w in
  length (fst run) = length streams /\
  exists w', snd run = Stopped 1 w' /\ stderr w' = stderr w ++ [ErrMsg e].
Proof.
  induction streams as [|stream streams IH]; intros w;
    cbn [map app main_loop fst snd length].
  - destruct in_accept; cbn [main_loop fst snd length];
      (split; [reflexivity|]); eexists; (split; [reflexivity|]); reflexivity.
  - destruct (IH (closed (lib_step None
                 (env_after (child fuel (forked stream w)) w) w)))
      as (Hlen & w' & Hs & He).
    cbv zeta. split; [now rewrite Hlen|]. exists w'. split; [exact Hs|exact He].
Qed.

End Listener.

(** ** The blocks a handler allocates *)

Section Balance.
Context {E : Type} {P0 : Platform E}.
#[local] Existing Instance counting.

Lemma balanced_eq {A} (m : M (E * Z) A) d d' :
  balanced m d -> d = d' -> balanced m d'.
Proof. now intros H <-. Qed.

Lemma balanced_bind {A B} (m : M (E * Z) A) (k : A -> M (E * Z) B) d1 d2 :
  balanced m d1 -> (forall a, balanced (k a) d2) -> balanced (bind m k) (d1 + d2).
Proof.
  intros Hm Hk w b w' H. apply bind_inv in H as (a & w1 & H1 & H2).
  apply Hm in H1. apply Hk in H2. lia.
Qed.

Lemma balanced_ret {A} (a : A) : balanced (E := E) (ret a) 0.
Proof. intros w b w' H. apply ret_inv in H as (_ & <-). lia. Qed.

Lemma balanced_never {A} (m : M (E * Z) A) d :
  (forall w, returns (m w) = false) -> balanced m d.
Proof. intros H w a w' Hr. specialize (H w). rewrite Hr in H. discriminate. Qed.

Lemma balanced_access {A} (o : option A) : balanced (E := E) (access o) 0.
Proof. destruct o; [apply balanced_ret|now apply balanced_never]. Qed.

Lemma balanced_alloca n : balanced (alloca n) 0.
Proof.
  unfold alloca. destruct (n <? 0); [now apply balanced_never|apply balanced_ret].
Qed.

Lemma balanced_get_errno : balanced (E := E) get_errno 0.
Proof. intros w a w' H. apply get_errno_inv in H as (_ & ->). lia. Qed.

Lemma balanced_send buf n : balanced (E := E) (send buf n) 0.
Proof. intros w a w' H. apply send_inv in H as (-> & _). unfold live. cbn. lia. Qed.

Lemma balanced_free : balanced free (-1).
Proof. intros w a w' H. apply free_inv in H as ->. reflexivity. Qed.

Lemma balanced_syscall {A} (f : call E A) :
  balanced (syscall (counted (fun _ => 0) f)) 0.
Proof. intros w a w' H. apply syscall_inv in H as (_ & ->). reflexivity. Qed.

(** A block that was asked for and tested, or used at once. *)
Lemma balanced_malloc {B} n (use : option (list byte) -> M (E * Z) (list byte))
    (k : list byte -> M (E * Z) B) d :
  (forall w, returns (use None w) = false) ->
  (forall b, balanced (use (Some b)) 0) ->
  (forall b, balanced (k b) d) ->
  balanced (p <- malloc n ;; b <- use p ;; k b) (1 + d).
Proof.
  intros Hnone Hsome Hk w a w' H.
  apply bind_inv in H as (p & w1 & Hm & H).
  unfold malloc, bind, libcall, ret in Hm. cbn [os_malloc counting counted fst snd] in Hm.
  apply bind_inv in H as (b & w2 & Hu & H).
  apply Hk in H. rewrite H. clear H.
  destruct (fst (fst (os_malloc n (fst (env w))))) eqn:Hok.
  - injection Hm as <- <-. apply Hsome in Hu. rewrite Hu.
    unfold live. cbn [env lib_step snd]. lia.
  - injection Hm as <- <-. specialize (Hnone (lib_step
      (snd (fst (os_malloc n (fst (env w)))))
      (snd (os_malloc n (fst (env w))), snd (env w) + 0) w)).
    rewrite Hu in Hnone. discriminate.
Qed.

Lemma check_null_returns (w : world (E * Z)) : returns (check_null None w) = false.
Proof. reflexivity. Qed.

Lemma deref_returns (w : world (E * Z)) : returns (deref None w) = false.
Proof. reflexivity. Qed.

Lemma balanced_check_null b : balanced (E := E) (check_null (Some b)) 0.
Proof. apply balanced_ret. Qed.

Lemma balanced_deref b : balanced (E := E) (deref (Some b)) 0.
Proof. apply balanced_ret. Qed.

Lemma balanced_if {A} (c : bool) (a b : M (E * Z) A) d :
  balanced a d -> balanced b d -> balanced (if c then a else b) d.
Proof. now destruct c. Qed.

Lemma balanced_getdirtree {B} path (k : option dirtreenode -> M (E * Z) B) d :
  balanced (k None) d -> (forall t, balanced (k (Some t)) (d - 1)) ->
  balanced (t <- syscall (os_getdirtree path) ;; k t) d.
Proof.
  intros Hn Hs w a w' H. apply bind_inv in H as (t & w1 & Hc & H).
  apply syscall_inv in Hc as (-> & ->).
  cbn [os_getdirtree counting counted fst snd] in H.
  destruct (fst (fst (os_getdirtree path (fst (env w)))));
    [apply Hs in H|apply Hn in H]; rewrite H; unfold live; cbn [env sys_step snd]; lia.
Qed.

(** The steps of an action, each with the change it makes. *)
Ltac balance :=
  repeat (cbv beta zeta;
    lazymatch goal with
    | |- balanced (bind (malloc _) (fun p => bind (check_null p) _)) _ =>
        eapply balanced_eq;
        [apply balanced_malloc;
         [exact check_null_returns|exact balanced_check_null|intros ?]|]
    | |- balanced (bind (malloc _) (fun p => bind (deref p) _)) _ =>
        eapply balanced_eq;
        [apply balanced_malloc;
         [exact deref_returns|exact balanced_deref|intros ?]|]
    | |- balanced (bind (syscall (os_getdirtree _)) _) _ =>
        apply balanced_getdirtree; [|intros ?]
    | |- balanced (bind (if ?c then _ else _) _) _ => destruct c
    | |- balanced (bind _ _) _ =>
        eapply balanced_eq; [apply balanced_bind; [|intros ?]|]
    | |- balanced (if _ then _ else _) _ => apply balanced_if
    | |- balanced (ret _) _ => apply balanced_ret
    | |- balanced (access _) _ => apply balanced_access
    | |- balanced (fault) _ => apply balanced_never; reflexivity
    | |- balanced (alloca _) _ => apply balanced_alloca
    | |- balanced get_errno _ => apply balanced_get_errno
    | |- balanced (send _ _) _ => apply balanced_send
    | |- balanced free _ => apply balanced_free
    | |- balanced (syscall _) _ => apply balanced_syscall
    end).

Lemma serializaTreeNode_balanced t : balanced (serializaTreeNode t) 2.
Proof. unfold serializaTreeNode. balance; reflexivity. Qed.

Lemma serializeTree_children_balanced rec k size cs :
  Forall (fun c => balanced (rec c) 2) cs ->
  forall i buf offset,
    balanced (serializeTree_children rec k size cs i buf offset) 1.
Proof.
  induction 1 as [|c cs Hc _ IH]; intros i buf offset;
    cbn [serializeTree_children].
  - balance; reflexivity.
  - destruct (i <? k); [|balance; reflexivity].
    eapply balanced_eq; [apply balanced_bind; [exact Hc|intros tmp_]|].
    + balance; try apply IH; reflexivity.
    + reflexivity.
Qed.

Lemma serializeTree_balanced t : balanced (serializeTree t) 2.
Proof.
  induction t as [nm k cs IH] using dirtreenode_induction.
  cbn [serializeTree]. destruct (k =? 0); [apply serializaTreeNode_balanced|].
  balance; try apply serializaTreeNode_balanced;
    try (apply serializeTree_children_balanced; exact IH); reflexivity.
Qed.

(** X20: the blocks of a request.  On a platform that counts the blocks
    handed out, every handler that returns has called [free] once for each
    block [malloc] gave it, and [freedirtree] for the tree of
    [getdirtree]: the count after the request is the count before it. *)
Theorem handlers_free_what_they_allocate op buf (w w' : world (E * Z)) v :
  @dispatch (E * Z) (counting P0) op buf w = Ret v w' -> live w' = live w.
Proof.
  intros H.
  assert (balanced (dispatch op buf) 0) as Hb.
  { unfold dispatch, serveOpen, serveClose, serveWrite, serveRead, serveLseek,
      serveStat, serveUnlink, serveGetdirentries, serveGetdirtree, fprintf_stderr.
    repeat match goal with |- balanced (if ?c then _ else _) _ => destruct c end;
      balance; try apply serializeTree_balanced; try reflexivity.
    - apply balanced_eq with (d := 0); [|reflexivity].
      intros w0 a w0' H0. injection H0 as _ <-. unfold live. cbn [env logged]. lia.
    - reflexivity. }
  apply Hb in H. lia.
Qed.

End Balance.

(** ** The interposition library and the start of the server *)

Lemma c_string_terminated (s : list byte) :
  ~ In Byte.x00 s -> c_string (s ++ [Byte.x00]) = s.
Proof.
  induction s as [|b s IH]; intros H; cbn [c_string app].
  - reflexivity.
  - destruct (Byte.eqb b Byte.x00) eqn:Hb.
    + apply Byte.byte_dec_bl in Hb. subst b. exfalso. apply H. now left.
    + f_equal. apply IH. intros Hin. apply H. now right.
Qed.

Section Client.
Context {E : Type} {P : Platform E} {N : Network E}.

Lemma sendToServer_logs arg (w : world E) port :
  mylib.client_port (os_getenv "serverport15440") = Some port ->
  exists w0,
    stderr w0 = stderr w ++ announcement /\ outbox w0 = outbox w /\
    returned w0 = returned w /\ inbox w0 = inbox w /\ env w0 = env w /\
    mylib.sendToServer arg w
    = (sockfd <- libcall os_socket ;;
       (if sockfd <? 0 then err else ret tt) ;;;
       rv <- libcall (os_connect sockfd (os_inet_addr server_ip) (htons port)) ;;
       (if rv <? 0 then err else ret tt) ;;;
       send (list_byte_of_string arg ++ [Byte.x00])
         (strlen (c_string (list_byte_of_string arg ++ [Byte.x00]))) ;;;
       libcall (os_close sockfd) ;;;
       ret 0) w0.
Proof.
  intros Hport. unfold mylib.sendToServer, announcement, server_ip. cbv zeta.
  rewrite Hport.
  destruct (os_getenv "server15440"), (os_getenv "serverport15440");
    eexists; (split; [|split; [|split; [|split; [|split; [|reflexivity]]]]]);
    cbn [stderr outbox returned inbox env errno logged];
    rewrite <- ?app_assoc; reflexivity.
Qed.

Lemma sendToServer_run arg (w : world E) port :
  mylib.client_port (os_getenv "serverport15440") = Some port ->
  reaches_server port (env w) ->
  ~ In Byte.x00 (list_byte_of_string arg) ->
  exists w1, mylib.sendToServer arg w = Ret 0 w1 /\ notified arg w w1.
Proof.
  intros Hport (Hs & Hc) Hnul.
  destruct (sendToServer_logs arg w port Hport)
    as (w0 & Hlog & Ho & Hr & Hi & He & ->).
  exec. rewrite He.
  replace (fst (fst (os_socket (env w))) <? 0) with false
    by (symmetry; apply Z.ltb_ge; exact Hs).
  exec.
  replace (fst (fst (os_connect _ _ _ _)) <? 0) with false
    by (symmetry; apply Z.ltb_ge; exact Hc).
  exec. rewrite c_string_terminated by exact Hnul.
  unfold bind at 1, send, strlen.
  replace (in_bounds _ 0 _) with true
    by (symmetry; apply in_bounds_true; rewrite length_app; cbn [length]; lia).
  rewrite Nat2Z.id, firstn_app, Nat.sub_diag, firstn_O, app_nil_r, firstn_all.
  exec. eexists. split; [reflexivity|].
  unfold notified. cbn [outbox returned stderr inbox lib_step sent].
  rewrite Ho, Hr, Hlog, Hi. repeat split.
Qed.

Lemma sendToServer_gives_up arg (w : world E) port :
  mylib.client_port (os_getenv "serverport15440") = Some port ->
  ~ reaches_server port (env w) ->
  gave_up w (mylib.sendToServer arg w).
Proof.
  intros Hport Hno.
  destruct (sendToServer_logs arg w port Hport)
    as (w0 & Hlog & Ho & Hr & Hi & He & ->).
  exec. rewrite He. unfold gave_up.
  destruct (Z.ltb_spec (fst (fst (os_socket (env w)))) 0) as [Hs|Hs]; exec.
  - eexists. split; [reflexivity|].
    cbn [returned outbox stderr errno logged lib_step].
    rewrite Hr, Ho, Hlog. repeat split. exists announcement.
    now rewrite <- app_assoc.
  - destruct (Z.ltb_spec (fst (fst (os_connect (fst (fst (os_socket (env w))))
               (os_inet_addr server_ip) (htons port) (snd (os_socket (env w)))))) 0)
      as [Hc|Hc]; exec.
    + eexists. split; [reflexivity|].
      cbn [returned outbox stderr errno logged lib_step].
      rewrite Hr, Ho, Hlog. repeat split. exists announcement.
      now rewrite <- app_assoc.
    + exfalso. apply Hno. split; assumption.
Qed.

Lemma gave_up_bind {A B} (m : M E A) (k : A -> M E B) (w : world E) :
  gave_up w (m w) -> gave_up w (bind m k w).
Proof. intros (w' & Hm & H). exists w'. unfold bind. rewrite Hm. auto. Qed.

(** X23: an interposed function is the function of the C library.  With a
    server that answers, each of [close], [read], [write], [lseek], [stat],
    [unlink], [getdirentries], [getdirtree] and [freedirtree] sends the
    server its own name, without arguments and without its NUL, waits for
    no answer, and then is the original function on the same arguments. *)
Theorem interposed_call_is_local (w : world E) port :
  mylib.client_port (os_getenv "serverport15440") = Some port ->
  reaches_server port (env w) ->
  (forall fd, exists w1, notified "close" w w1 /\
     mylib.close fd w = syscall (os_close fd) w1) /\
  (forall fd n, exists w1, notified "read" w w1 /\
     mylib.read fd n w = syscall (os_read fd n) w1) /\
  (forall fd buf, exists w1, notified "write" w w1 /\
     mylib.write fd buf w = syscall (os_write fd buf) w1) /\
  (forall fd off whence, exists w1, notified "lseek" w w1 /\
     mylib.lseek fd off whence w = syscall (os_lseek fd off whence) w1) /\
  (forall path, exists w1, notified "stat" w w1 /\
     mylib.stat path w = syscall (os_stat (list_byte_of_string path)) w1) /\
  (forall path, exists w1, notified "unlink" w w1 /\
     mylib.unlink path w = syscall (os_unlink (list_byte_of_string path)) w1) /\
  (forall fd n basep, exists w1, notified "getdirentries" w w1 /\
     mylib.getdirentries fd n basep w = syscall (os_getdirentries fd n basep) w1) /\
  (forall path, exists w1, notified "getdirtree" w w1 /\
     mylib.getdirtree path w = syscall (os_getdirtree (list_byte_of_string path)) w1) /\
  (exists w1, notified "freedirtree" w w1 /\ mylib.freedirtree w = free w1).
Proof.
  intros Hport Hreach.
  assert (forall name, ~ In Byte.x00 (list_byte_of_string name) ->
            forall (A : Type) (k : M E A),
            exists w1, notified name w w1 /\
                       (mylib.sendToServer name ;;; k) w = k w1) as Hrun.
  { intros name Hnul A k.
    destruct (sendToServer_run name w port Hport Hreach Hnul) as (w1 & Hr & Hn).
    exists w1. split; [exact Hn|]. unfold bind. now rewrite Hr. }
  repeat split; intros; apply Hrun; cbn; intuition discriminate.
Qed.

(** X24: without a server there is no call.  When [socket] or [connect]
    fails, every interposed function ends the process in [err(1,0)], with
    status 1, before the original function is called. *)
Theorem interposed_call_needs_server (w : world E) port :
  mylib.client_port (os_getenv "serverport15440") = Some port ->
  ~ reaches_server port (env w) ->
  (forall fd, gave_up w (mylib.close fd w)) /\
  (forall fd n, gave_up w (mylib.read fd n w)) /\
  (forall fd buf, gave_up w (mylib.write fd buf w)) /\
  (forall fd off whence, gave_up w (mylib.lseek fd off whence w)) /\
  (forall path, gave_up w (mylib.stat path w)) /\
  (forall path, gave_up w (mylib.unlink path w)) /\
  (forall fd n basep, gave_up w (mylib.getdirentries fd n basep w)) /\
  (forall path, gave_up w (mylib.getdirtree path w)) /\
  gave_up w (mylib.freedirtree w) /\
  (forall pathname flags mode,
     gave_up w (mylib.open pathname flags (Some mode) w)).
Proof.
  intros Hport Hno.
  repeat split; intros;
    try (apply gave_up_bind;
         apply sendToServer_gives_up with (port := port); assumption).
  unfold mylib.open.
  replace (if Z.land flags mylib.O_CREAT =? 0 then ret 0 else access (Some mode))
    with (@ret E Z (if Z.land flags mylib.O_CREAT =? 0 then 0 else mode))
    by (now destruct (Z.land flags mylib.O_CREAT =? 0)).
  set (m := if Z.land flags mylib.O_CREAT =? 0 then 0 else mode).
  change ((m0 <- ret m ;;
           fprintf_stderr ("mylib: open called for path " ++ pathname ++ newline) ;;;
           mylib.sendToServer "open" ;;;
           syscall (os_open (list_byte_of_string pathname) flags m0)) w)
    with ((mylib.sendToServer "open" ;;;
           syscall (os_open (list_byte_of_string pathname) flags m))
            (logged (Text ("mylib: open called for path " ++ pathname ++ newline)) w)).
  destruct (sendToServer_gives_up "open"
              (logged (Text ("mylib: open called for path " ++ pathname ++ newline)) w)
              port Hport Hno) as (w' & Hrun & Hr & Ho & log & Hlog).
  exists w'. unfold bind. rewrite Hrun. repeat split; try assumption.
  exists (Text ("mylib: open called for path " ++ pathname ++ newline) :: log).
  rewrite Hlog. cbn [stderr logged]. now rewrite <- app_assoc.
Qed.

(** X25: the mode of [open].  The interposed [open] hands to the original
    the mode it was given when [flags] has [O_CREAT], and 0 when it has
    not; the server is told [open] and nothing of the path. *)
Theorem open_mode_only_with_O_CREAT (w : world E) port pathname flags mode :
  mylib.client_port (os_getenv "serverport15440") = Some port ->
  reaches_server port (env w) ->
  let m := if Z.land flags mylib.O_CREAT =? 0 then 0 else mode in
  exists w1,
    outbox w1 = outbox w ++ [list_byte_of_string "open"] /\
    returned w1 = returned w /\
    mylib.open pathname flags (Some mode) w
    = syscall (os_open (list_byte_of_string pathname) flags m) w1.
Proof.
  intros Hport Hreach m. unfold mylib.open.
  replace (if Z.land flags mylib.O_CREAT =? 0 then ret 0 else access (Some mode))
    with (@ret E Z m) by (subst m; now destruct (Z.land flags mylib.O_CREAT =? 0)).
  change ((m0 <- ret m ;;
           fprintf_stderr ("mylib: open called for path " ++ pathname ++ newline) ;;;
           mylib.sendToServer "open" ;;;
           syscall (os_open (list_byte_of_string pathname) flags m0)) w)
    with ((mylib.sendToServer "open" ;;;
           syscall (os_open (list_byte_of_string pathname) flags m))
            (logged (Text ("mylib: open called for path " ++ pathname ++ newline)) w)).
  destruct (sendToServer_run "open" (logged (Text ("mylib: open called for path "
              ++ pathname ++ newline)) w) port Hport Hreach)
    as (w1 & Hr & Ho & Hret & _).
  { cbn. intuition discriminate. }
  exists w1. split; [exact Ho|]. split; [exact Hret|].
  unfold bind. now rewrite Hr.
Qed.

(** X21: the start of the server.  [main] serves its clients when
    [socket], [bind] and [listen] have all succeeded, and only then; when
    one of them fails the process ends in [err(1,0)], the log has the
    message of the error, and no client is served. *)
Theorem main_listens_or_exits fuel queue (w : world E) port :
  server_port (os_getenv "serverport15440") = Some port ->
  let s := os_socket (env w) in
  let b := os_bind (fst (fst s)) (htonl INADDR_ANY) (htons port) (snd s) in
  let l := os_listen (fst (fst s)) 5 (snd b) in
  (0 <= fst (fst s) /\ 0 <= fst (fst b) /\ 0 <= fst (fst l) ->
   exists w1,
     main fuel queue w = Ret (main_loop fuel queue w1) w1 /\
     env w1 = snd l /\ stderr w1 = stderr w /\ outbox w1 = outbox w) /\
  (fst (fst s) < 0 \/ fst (fst b) < 0 \/ fst (fst l) < 0 ->
   exists w',
     main fuel queue w = Exit 1 w' /\
     stderr w' = stderr w ++ [ErrMsg (errno w')] /\ outbox w' = outbox w).
Proof.
  intros Hport s b l. unfold main. cbv zeta. rewrite Hport. exec.
  fold s. destruct (Z.ltb_spec (fst (fst s)) 0) as [Hs|Hs]; exec.
  { split; [intros (? & _); lia|]. intros _. eexists. split; [reflexivity|].
    split; reflexivity. }
  fold b. destruct (Z.ltb_spec (fst (fst b)) 0) as [Hb|Hb]; exec.
  { split; [intros (_ & ? & _); lia|]. intros _. eexists. split; [reflexivity|].
    split; reflexivity. }
  fold l. destruct (Z.ltb_spec (fst (fst l)) 0) as [Hl|Hl]; exec.
  { split; [intros (_ & _ & ?); lia|]. intros _. eexists. split; [reflexivity|].
    split; reflexivity. }
  split; [|lia]. intros _. eexists. split; [reflexivity|]. repeat split.
Qed.

End Client.

(** X22: the port of the library and the port of the server.  Both take
    [(unsigned short)atoi] of [serverport15440] when it is set; when it is
    not, the library connects to 15440 and the server listens on 15400. *)
Theorem ports_agree_iff_set (serverport : option string) :
  server_port serverport = mylib.client_port serverport <-> serverport <> None.
Proof.
  destruct serverport as [s|]; cbn [server_port mylib.client_port].
  - split; [discriminate|reflexivity].
  - split; [vm_compute; discriminate|congruence].
Qed.

(** ** Concrete runs *)

Module Runs.
Import Script.


Lemma quiet_keeps_errno : @allocator_keeps_errno unit quiet_platform.
Proof. split; intros; reflexivity. Qed.

Lemma quiet_malloc_succeeds : @malloc_succeeds unit quiet_platform.
Proof. intros n e. reflexivity. Qed.

Lemma reply_err_code_is_errno_of_call_witness :
  exists frame e,
    outbox (world_of (dispatch 0 open_missing (start [])) (start []))
    = outbox (start []) ++ [frame] /\
    returned (world_of (dispatch 0 open_missing (start [])) (start []))
    = returned (start []) ++ [e] /\
    err_code 0 frame = rep 4 e.
Proof.
  apply (reply_err_code_is_errno_of_call 0 open_missing (start []) _ 0).
  - exact quiet_keeps_errno.
  - lia.
  - vm_compute. reflexivity.
Defined.

(** C2 as stated fails: [open] fails with [ENOENT]; the [malloc] of the
    reply buffer, which succeeds, leaves [ENOMEM] in [errno]; the reply
    carries [ENOMEM]. *)
Lemma errno_overwritten_before_reply :
  exists w' frame,
    @dispatch unit (scripted noisy) 0 open_missing (start []) = Ret 0 w' /\
    outbox w' = [frame] /\
    returned w' = [ENOENT] /\
    err_code 0 frame = rep 4 ENOMEM /\
    err_code 0 frame <> rep 4 ENOENT.
Proof.
  eexists _, _. split; [vm_compute; reflexivity|].
  split; [reflexivity|]. split; [reflexivity|].
  split; [vm_compute; reflexivity|]. vm_compute. discriminate.
Qed.

Lemma receiveAll_peer_closed_spins_witness :
  receiveAll 1000 (repeat Byte.x00 4) 4 (start [Data (bytes "ab")]) = OutOfFuel.
Proof.
  apply (receiveAll_peer_closed_spins 1000 _ 4 _ 2); reflexivity.
Defined.

Lemma serveGetdirentries_failure_sends_nothing_witness :
  exists w',
    (serveGetdirentries getdirentries_bad_fd (start []) = Fault w' \/
     serveGetdirentries getdirentries_bad_fd (start []) = Exit 1 w') /\
    outbox w' = outbox (start []) /\
    (malloc_succeeds -> serveGetdirentries getdirentries_bad_fd (start []) = Fault w').
Proof.
  apply (serveGetdirentries_failure_sends_nothing getdirentries_bad_fd (start [])
           (-10) 4096 0); vm_compute; reflexivity.
Defined.

Lemma serve_getdirentries_failure_no_reply_witness :
  exists w',
    (serve 100 (start [Data (request 7 getdirentries_bad_fd)]) = Fault w' \/
     serve 100 (start [Data (request 7 getdirentries_bad_fd)]) = Exit 1 w') /\
    outbox w' = outbox (start [Data (request 7 getdirentries_bad_fd)]) /\
    (malloc_succeeds ->
     serve 100 (start [Data (request 7 getdirentries_bad_fd)]) = Fault w').
Proof.
  apply (serve_getdirentries_failure_no_reply 100
           (start [Data (request 7 getdirentries_bad_fd)])
           (rep 4 7 ++ rep 4 20) [Data getdirentries_bad_fd] 20
           getdirentries_bad_fd [] (-10) 4096 0);
    try (vm_compute; reflexivity); try lia.
Defined.

Lemma undefined_op_ends_session_witness :
  exists w',
    serve 3 (start [Data (request 9 (bytes "xy"))]) = Ret (-1) w' /\
    stderr w' = stderr (start [Data (request 9 (bytes "xy"))])
                  ++ [Text undefined_function] /\
    outbox w' = outbox (start [Data (request 9 (bytes "xy"))]) /\
    inbox w' = [] /\
    child 3 (start [Data (request 9 (bytes "xy"))]) = Exit 0 (closed w') /\
    sess_open (closed w') = false /\
    outbox (closed w') = outbox (start [Data (request 9 (bytes "xy"))]).
Proof.
  apply (undefined_op_ends_session 2 (start [Data (request 9 (bytes "xy"))])
           (rep 4 9 ++ rep 4 2) [Data (bytes "xy")] 9 2 (bytes "xy") []);
    try (vm_compute; reflexivity); try lia.
Defined.

Lemma payload_buffer_has_announced_size_witness :
  serve 5 (start [Data (request 1 (rep 4 99999))])
  = dispatch 1 (rep 4 99999) (received [] None (start [Data (request 1 (rep 4 99999))])) /\
  Z.of_nat (length (rep 4 99999)) = 4 /\
  4 <= 2 ^ 31 - 1.
Proof.
  apply (payload_buffer_has_announced_size 5
           (start [Data (request 1 (rep 4 99999))])
           (rep 4 1 ++ rep 4 4) [Data (rep 4 99999)] 1 4 (rep 4 99999) []);
    try (vm_compute; reflexivity); try lia.
Defined.

(** C10 as stated fails: the announced length [0xFFFFFFFF] is read as the
    [int] -1; no buffer of 4294967295 bytes is allocated and none of the
    bytes that follow the header is read. *)
Lemma announced_length_with_top_bit_is_negative :
  load_unsigned 4 (rep 4 1 ++ rep 4 4294967295) 4 = Some 4294967295 /\
  load_signed 4 (rep 4 1 ++ rep 4 4294967295) 4 = Some (-1) /\
  exists w',
    serve 100 (start [Data (rep 4 1 ++ rep 4 4294967295); Data (bytes "abcd")])
    = Fault w' /\
    inbox w' = [Data (bytes "abcd")] /\ outbox w' = [].
Proof.
  split; [vm_compute; reflexivity|]. split; [vm_compute; reflexivity|].
  eexists. split; [vm_compute; reflexivity|]. split; reflexivity.
Qed.

Lemma peer_closed_ends_session_cleanly_witness :
  serve 1 (start []) = Ret (-1) (received [] None (start [])) /\
  outbox (received [] None (start [])) = outbox (start []) /\
  stderr (received [] None (start [])) = stderr (start []) /\
  child 2 (start []) = Exit 0 (closed (received [] None (start []))) /\
  forall queue (parent : world unit),
    forked (inbox (start [])) parent = start [] ->
    exists parent',
      main_loop 2 (Connects (inbox (start [])) :: queue) parent
      = (Exit 0 (closed (received [] None (start [])))
           :: fst (main_loop 2 queue parent'),
         snd (main_loop 2 queue parent')) /\
      env parent' = env parent /\ stderr parent' = stderr parent.
Proof.
  apply (peer_closed_ends_session_cleanly 1 (start []) [] None []).
  reflexivity.
Defined.

Lemma serveRead_reply_witness :
  (exists w' e,
     serveRead read_hello (start []) = Ret tt w' /\
     outbox w' = outbox (start []) ++
       [rep 4 17 ++ rep 8 5 ++ rep 4 e ++ bytes "hello"]) /\
  (exists w' e,
     serveRead read_bad_fd (start []) = Ret tt w' /\
     outbox w' = outbox (start []) ++ [rep 4 12 ++ rep 8 (-1) ++ rep 4 e]).
Proof.
  split.
  - apply (serveRead_reply read_hello (start []) 3 16 quiet_malloc_succeeds);
      [vm_compute; reflexivity | vm_compute; reflexivity | reflexivity].
  - apply (serveRead_reply read_bad_fd (start []) 5 16 quiet_malloc_succeeds);
      [vm_compute; reflexivity | vm_compute; reflexivity | reflexivity].
Defined.


Lemma tree_a_well_formed : well_formed tree_a.
Proof. cbn. tauto. Qed.

Lemma tree_a_names : inner_names_within 192 tree_a.
Proof. cbn. repeat split; intros; try lia; unfold strlen; cbn; lia. Qed.

Lemma serveGetdirtree_reply_witness :
  (exists w' e,
     serveGetdirtree getdirtree_b (start []) = Ret tt w' /\
     returned w' = returned (start []) ++ [e] /\
     outbox w' = outbox (start []) ++ [rep 4 8 ++ rep 4 1 ++ rep 4 e]) /\
  (exists w' e,
     serveGetdirtree getdirtree_a (start []) = Ret tt w' /\
     Z.of_nat (length (preorder tree_a)) = tree_size tree_a /\
     outbox w' = outbox (start []) ++
       [rep 4 (tree_size tree_a + 17) ++ rep 4 0 ++ rep 8 (tree_size tree_a)
          ++ rep 4 e ++ preorder tree_a ++ [Byte.x00]]).
Proof.
  split.
  - apply (serveGetdirtree_reply getdirtree_b (start []) 2 quiet_malloc_succeeds);
      [vm_compute; reflexivity | lia | vm_compute; discriminate | reflexivity].
  - apply (serveGetdirtree_reply getdirtree_a (start []) 2 quiet_malloc_succeeds);
      [vm_compute; reflexivity | lia | vm_compute; discriminate | reflexivity
      | exact tree_a_well_formed | exact tree_a_names | reflexivity].
Defined.


Lemma serializeTree_long_inner_name_faults_witness :
  exists w', serializeTree long_name_tree (start []) = Fault w' /\
             alloc_only (start []) w'.
Proof.
  apply (serializeTree_long_inner_name_faults long_name_tree (start [])
           quiet_malloc_succeeds).
  - discriminate.
  - vm_compute. split; reflexivity.
Defined.


(** *** Runs for the further properties *)

Ltac by_run :=
  vm_compute; repeat split; first [reflexivity | discriminate | lia].

Lemma serveOpen_reply_witness :
  exists w' c e,
    serveOpen open_missing (start []) = Ret tt w' /\
    returned w' = returned (start []) ++ [c] /\
    outbox w' = outbox (start []) ++ [rep 4 8 ++ rep 4 (-1) ++ rep 4 e] /\
    (allocator_keeps_errno -> c = ENOENT /\ e = c).
Proof.
  apply (serveOpen_reply open_missing (start []) 0 0 2 quiet_malloc_succeeds);
    by_run.
Defined.

Lemma serveClose_reply_witness :
  exists w' c e,
    serveClose close_3 (start []) = Ret tt w' /\
    returned w' = returned (start []) ++ [c] /\
    outbox w' = outbox (start []) ++ [rep 4 8 ++ rep 4 0 ++ rep 4 e] /\
    c = 0 /\
    (allocator_keeps_errno -> e = c).
Proof.
  apply (serveClose_reply close_3 (start []) 3 quiet_malloc_succeeds); by_run.
Defined.

Lemma serveWrite_reply_witness :
  exists w' c e,
    serveWrite write_hi (start []) = Ret tt w' /\
    Z.of_nat (length (bytes "hi")) = 2 /\
    returned w' = returned (start []) ++ [c] /\
    outbox w' = outbox (start []) ++ [rep 4 12 ++ rep 8 2 ++ rep 4 e] /\
    (allocator_keeps_errno -> c = 0 /\ e = c).
Proof.
  apply (serveWrite_reply write_hi (start []) 3 2 quiet_malloc_succeeds); by_run.
Defined.

Lemma serveLseek_reply_witness :
  exists w' c e,
    serveLseek lseek_3 (start []) = Ret tt w' /\
    returned w' = returned (start []) ++ [c] /\
    outbox w' = outbox (start []) ++ [rep 4 12 ++ rep 8 0 ++ rep 4 e] /\
    c = 0 /\
    (allocator_keeps_errno -> e = c).
Proof.
  apply (serveLseek_reply lseek_3 (start []) 3 0 0 quiet_malloc_succeeds); by_run.
Defined.

Lemma serveStat_reply_witness :
  exists w' c e,
    serveStat path_x (start []) = Ret tt w' /\
    returned w' = returned (start []) ++ [c] /\
    outbox w' = outbox (start []) ++
      [rep 4 152 ++ rep 4 (-1) ++ rep 4 e ++ fresh 144] /\
    Z.of_nat (length (fresh 144)) = 144 /\
    (allocator_keeps_errno -> c = ENOENT /\ e = c).
Proof.
  apply (serveStat_reply path_x (start []) 2 quiet_malloc_succeeds); by_run.
Defined.

Lemma serveUnlink_reply_witness :
  exists w' c e,
    serveUnlink path_x (start []) = Ret tt w' /\
    returned w' = returned (start []) ++ [c] /\
    outbox w' = outbox (start []) ++ [rep 4 8 ++ rep 4 (-1) ++ rep 4 e] /\
    (allocator_keeps_errno -> c = ENOENT /\ e = c).
Proof.
  apply (serveUnlink_reply path_x (start []) 2 quiet_malloc_succeeds); by_run.
Defined.

Lemma serveGetdirentries_reply_witness :
  exists w' c e,
    serveGetdirentries getdirentries_4 (start []) = Ret tt w' /\
    returned w' = returned (start []) ++ [c] /\
    outbox w' = outbox (start []) ++
      [rep 4 19 ++ rep 8 7 ++ rep 4 e ++ bytes "entries"] /\
    c = 0 /\
    (allocator_keeps_errno -> e = c).
Proof.
  apply (serveGetdirentries_reply getdirentries_4 (start []) 4 16 0
           (bytes "entries") quiet_malloc_succeeds); by_run.
Defined.

Lemma short_payload_faults_witness :
  dispatch 4 close_3 (start []) = Fault (start []).
Proof. apply (short_payload_faults 4 close_3 (start [])); by_run. Defined.

Lemma serveOpen_path_beyond_payload_witness :
  exists w',
    (serveOpen open_overlong (start []) = Fault w' \/
     serveOpen open_overlong (start []) = Exit 1 w') /\
    returned w' = returned (start []) /\ outbox w' = outbox (start []) /\
    (malloc_succeeds -> serveOpen open_overlong (start []) = Fault w').
Proof.
  apply (serveOpen_path_beyond_payload open_overlong (start []) 200); by_run.
Defined.

Lemma serveWrite_data_beyond_payload_witness :
  exists w',
    serveWrite write_overlong (start []) = Fault w' /\
    returned w' = returned (start []) /\ outbox w' = outbox (start []).
Proof.
  apply (serveWrite_data_beyond_payload write_overlong (start []) 3 200);
    [by_run | by_run | left; by_run].
Defined.

Lemma path_length_not_validated_witness :
  (exists w',
     (serveStat path_negative (start []) = Fault w' \/
      serveStat path_negative (start []) = Exit 1 w') /\
     returned w' = returned (start []) /\ outbox w' = outbox (start [])) /\
  (exists w',
     (serveUnlink path_negative (start []) = Fault w' \/
      serveUnlink path_negative (start []) = Exit 1 w') /\
     returned w' = returned (start []) /\ outbox w' = outbox (start [])) /\
  serveGetdirtree path_negative (start []) = Fault (start []).
Proof.
  apply (path_length_not_validated path_negative (start []) (-1));
    [by_run | by_run | left; by_run].
Defined.

(** The four bytes [open], as the library of [interpose] sends them, where
    the server awaits a header. *)
Lemma serve_short_header_witness :
  serve 5 (start [Data (bytes "open")])
  = serve 5 (received [Data (bytes "open" ++ skipn 4 (fresh 8))] None
               (start [Data (bytes "open")])).
Proof.
  apply (serve_short_header 5 (start [Data (bytes "open")]) 4 (bytes "open")
           None []); by_run.
Defined.

Lemma negative_payload_len_faults_witness :
  serve 5 (start [Data (rep 4 1 ++ rep 4 (-5)); Data (bytes "abcd")])
  = Fault (received [Data (bytes "abcd")] None
             (start [Data (rep 4 1 ++ rep 4 (-5)); Data (bytes "abcd")])).
Proof.
  apply (negative_payload_len_faults 5 _ (rep 4 1 ++ rep 4 (-5))
           [Data (bytes "abcd")] 1 (-5)); by_run.
Defined.

Lemma session_replies_once_per_call_witness :
  exists frames calls,
    outbox (world_of (session_loop 5 two_closes) two_closes)
    = outbox two_closes ++ frames /\
    returned (world_of (session_loop 5 two_closes) two_closes)
    = returned two_closes ++ calls /\
    length frames = length calls /\
    Forall well_framed frames /\
    (stderr (world_of (session_loop 5 two_closes) two_closes) = stderr two_closes \/
     stderr (world_of (session_loop 5 two_closes) two_closes)
     = stderr two_closes ++ [Text undefined_function]).
Proof.
  apply (session_replies_once_per_call 5 two_closes). by_run.
Defined.

Lemma child_exit_status_witness :
  (0 = 0 /\ sess_open (closed (received [] None (start []))) = false /\
   exists w1, session_loop 2 (start []) = Ret tt w1 /\
              closed (received [] None (start [])) = closed w1) \/
  (0 = 1 /\ session_loop 2 (start []) = Exit 1 (closed (received [] None (start [])))).
Proof.
  apply (child_exit_status 2 (start []) (closed (received [] None (start []))) 0).
  by_run.
Defined.

Lemma handlers_free_what_they_allocate_witness :
  live (world_of_counting
          (@dispatch (unit * Z) (counting quiet_platform) 8 getdirtree_a
             (start_counting []))
          (start_counting []))
  = live (start_counting []).
Proof.
  apply (handlers_free_what_they_allocate 8 getdirtree_a (start_counting []) _ 0).
  by_run.
Defined.

Lemma main_listens_or_exits_witness :
  (0 <= 3 /\ 0 <= 0 /\ 0 <= 0 ->
   exists w1,
     main 2 [] (start []) = Ret (main_loop 2 [] w1) w1 /\
     env w1 = tt /\ stderr w1 = stderr (start []) /\
     outbox w1 = outbox (start [])) /\
  (3 < 0 \/ 0 < 0 \/ 0 < 0 ->
   exists w',
     main 2 [] (start []) = Exit 1 w' /\
     stderr w' = stderr (start []) ++ [ErrMsg (errno w')] /\
     outbox w' = outbox (start [])).
Proof.
  refine (main_listens_or_exits 2 [] (start []) 15400 _). by_run.
Defined.

Lemma interposed_call_is_local_witness :
  (forall fd, exists w1, notified "close" (start []) w1 /\
     mylib.close fd (start []) = syscall (os_close fd) w1) /\
  (forall fd n, exists w1, notified "read" (start []) w1 /\
     mylib.read fd n (start []) = syscall (os_read fd n) w1) /\
  (forall fd buf, exists w1, notified "write" (start []) w1 /\
     mylib.write fd buf (start []) = syscall (os_write fd buf) w1) /\
  (forall fd off whence, exists w1, notified "lseek" (start []) w1 /\
     mylib.lseek fd off whence (start []) = syscall (os_lseek fd off whence) w1) /\
  (forall path, exists w1, notified "stat" (start []) w1 /\
     mylib.stat path (start [])
     = syscall (os_stat (list_byte_of_string path)) w1) /\
  (forall path, exists w1, notified "unlink" (start []) w1 /\
     mylib.unlink path (start [])
     = syscall (os_unlink (list_byte_of_string path)) w1) /\
  (forall fd n basep, exists w1, notified "getdirentries" (start []) w1 /\
     mylib.getdirentries fd n basep (start [])
     = syscall (os_getdirentries fd n basep) w1) /\
  (forall path, exists w1, notified "getdirtree" (start []) w1 /\
     mylib.getdirtree path (start [])
     = syscall (os_getdirtree (list_byte_of_string path)) w1) /\
  (exists w1, notified "freedirtree" (start []) w1 /\
     mylib.freedirtree (start []) = free w1).
Proof.
  apply (interposed_call_is_local (start []) 15440); by_run.
Defined.

Lemma open_mode_only_with_O_CREAT_witness :
  exists w1,
    outbox w1 = outbox (start []) ++ [list_byte_of_string "open"] /\
    returned w1 = returned (start []) /\
    mylib.open "localFile" 0 (Some 420) (start [])
    = syscall (os_open (list_byte_of_string "localFile") 0 0) w1.
Proof.
  apply (open_mode_only_with_O_CREAT (start []) 15440 "localFile" 0 420); by_run.
Defined.

Lemma long_names_malloc_succeeds : @malloc_succeeds unit (scripted long_names).
Proof. intros n e. reflexivity. Qed.

Lemma serveGetdirtree_long_name_no_reply_witness :
  exists w' e,
    @serveGetdirtree unit (scripted long_names) getdirtree_a (start []) = Fault w' /\
    returned w' = returned (start []) ++ [e] /\
    outbox w' = outbox (start []).
Proof.
  refine (@serveGetdirtree_long_name_no_reply unit (scripted long_names)
            getdirtree_a (start []) 2 long_name_tree
            long_names_malloc_succeeds _ _ _ _ _ _); by_run.
Defined.

(** C8 as stated fails: operation 9 with the announced length
    [0x80000000], which is the [int] -2147483648.  The array of the payload
    has a negative size; the operation number is never looked at: no line
    on the log, and the child does not reach [close] and [exit]. *)
Lemma undefined_op_with_negative_length_is_not_logged :
  load_signed 4 undefined_negative 0 = Some 9 /\
  load_signed 4 undefined_negative 4 = Some (-2147483648) /\
  exists w',
    serve 100 (start [Data undefined_negative]) = Fault w' /\
    child 100 (start [Data undefined_negative]) = Fault w' /\
    stderr w' = [] /\ outbox w' = [] /\ sess_open w' = true.
Proof.
  split; [vm_compute; reflexivity|]. split; [vm_compute; reflexivity|].
  eexists. split; [vm_compute; reflexivity|].
  split; [vm_compute; reflexivity|]. repeat split.
Qed.

Section Offline.
#[local] Existing Instance offline | 0.

Lemma interposed_call_needs_server_witness :
  (forall fd, gave_up (start []) (mylib.close fd (start []))) /\
  (forall fd n, gave_up (start []) (mylib.read fd n (start []))) /\
  (forall fd buf, gave_up (start []) (mylib.write fd buf (start []))) /\
  (forall fd off whence,
     gave_up (start []) (mylib.lseek fd off whence (start []))) /\
  (forall path, gave_up (start []) (mylib.stat path (start []))) /\
  (forall path, gave_up (start []) (mylib.unlink path (start []))) /\
  (forall fd n basep,
     gave_up (start []) (mylib.getdirentries fd n basep (start []))) /\
  (forall path, gave_up (start []) (mylib.getdirtree path (start []))) /\
  gave_up (start []) (mylib.freedirtree (start [])) /\
  (forall pathname flags mode,
     gave_up (start []) (mylib.open pathname flags (Some mode) (start []))).
Proof.
  apply (interposed_call_needs_server (start []) 15440).
  - by_run.
  - intros [_ H]. vm_compute in H. apply H. reflexivity.
Defined.

End Offline.

End Runs.
